(** * Job coordination and adaptive execution engine: a shallow embedding

    The development follows three source files:
    - [src/error_distributor.py]      (modules [ErrorDistributor],
      [ErrorRouting], [Distribution] and [Aggregation]),
    - [src/distributed_coordinator.py] (module [Coordinator]),
    - [src/parallel_executor.py]       (modules [Executor] and
      [TestSuiteBuilder]).

    Strings are sequences of 8-bit characters; [str.lower] and the
    case-insensitive regular-expression search act on the ASCII letters.
    Scores, which the source computes in binary floating point, are exact
    rationals here: every product the source forms has at most two decimal
    digits, so the final rounding to two decimals selects the same decimal
    value in both. *)

From Stdlib Require Import ZArith QArith Qround String Ascii List Bool Lia.
From stdpp Require Import gmap strings list pretty.

Local Open Scope string_scope.
Local Open Scope list_scope.

(** ** Strings as Python uses them *)

Module PyStr.

Definition is_upper (c : ascii) : bool :=
  let n := nat_of_ascii c in (65 <=? n)%nat && (n <=? 90)%nat.

Definition lower_ascii (c : ascii) : ascii :=
  if is_upper c then ascii_of_nat (nat_of_ascii c + 32) else c.

(** [s.lower()] *)
Fixpoint lower (s : string) : string :=
  match s with
  | EmptyString => EmptyString
  | String c s' => String (lower_ascii c) (lower s')
  end.

Fixpoint startswith (p s : string) : bool :=
  match p, s with
  | EmptyString, _ => true
  | String a p', String b s' => if Ascii.eqb a b then startswith p' s' else false
  | String _ _, EmptyString => false
  end.

(** [needle in hay] *)
Fixpoint contains (needle hay : string) : bool :=
  startswith needle hay ||
  match hay with
  | EmptyString => false
  | String _ hay' => contains needle hay'
  end.

(** [s.split('.')[-1]]: what follows the last dot, the whole string when
    there is none. *)
Fixpoint last_segment (acc s : string) : string :=
  match s with
  | EmptyString => acc
  | String c s' =>
      if Ascii.eqb c "."%char then last_segment EmptyString s'
      else last_segment (acc +:+ String c EmptyString) s'
  end.

Definition split_dot_last (s : string) : string := last_segment EmptyString s.

Definition is_empty (s : string) : bool :=
  match s with EmptyString => true | _ => false end.

End PyStr.

(** ** Regular expressions: the fragment of [re] the pattern tables use *)

Module Re.

Inductive regex : Type :=
| Fail
| Eps
| Lit (c : ascii)
| Dot
| Digit
| Cat (r s : regex)
| Alt (r s : regex)
| Star (r : regex).

Definition is_digit (c : ascii) : bool :=
  let n := nat_of_ascii c in (48 <=? n)%nat && (n <=? 57)%nat.

Definition is_letter (c : ascii) : bool :=
  let n := nat_of_ascii (PyStr.lower_ascii c) in (97 <=? n)%nat && (n <=? 122)%nat.

(** Characters with a meaning of their own that the tables never use: a
    pattern containing one is rejected, not misread. *)
Definition unsupported (c : ascii) : bool :=
  existsb (Ascii.eqb c) ["?"; "["; "]"; "{"; "}"; "^"; "$"]%char.

Section Parser.
(** [group] parses the inside of a parenthesis. *)
Variable group : list ascii -> option (regex * list ascii).

Definition parse_atom (s : list ascii) : option (regex * list ascii) :=
  match s with
  | [] => None
  | c :: s' =>
      if Ascii.eqb c "("%char then
        match group s' with
        | Some (r, d :: s'') => if Ascii.eqb d ")"%char then Some (r, s'') else None
        | _ => None
        end
      else if Ascii.eqb c "\"%char then
        match s' with
        | [] => None
        | e :: s'' =>
            if Ascii.eqb e "d"%char then Some (Digit, s'')
            else if is_letter e || is_digit e then None
            else Some (Lit e, s'')
        end
      else if Ascii.eqb c "."%char then Some (Dot, s')
      else if Ascii.eqb c "*"%char || Ascii.eqb c "+"%char || unsupported c then None
      else Some (Lit c, s')
  end.

Fixpoint parse_postfix (r : regex) (s : list ascii) : regex * list ascii :=
  match s with
  | c :: s' =>
      if Ascii.eqb c "*"%char then parse_postfix (Star r) s'
      else if Ascii.eqb c "+"%char then parse_postfix (Cat r (Star r)) s'
      else (r, s)
  | [] => (r, s)
  end.

Fixpoint parse_seq (fuel : nat) (s : list ascii) : option (regex * list ascii) :=
  match fuel with
  | O => None
  | S fuel' =>
      match s with
      | [] => Some (Eps, s)
      | c :: _ =>
          if Ascii.eqb c "|"%char || Ascii.eqb c ")"%char then Some (Eps, s)
          else
            match parse_atom s with
            | None => None
            | Some (a, s1) =>
                let '(r, s2) := parse_postfix a s1 in
                match parse_seq fuel' s2 with
                | None => None
                | Some (rest, s3) => Some (Cat r rest, s3)
                end
            end
      end
  end.

Fixpoint parse_alts (fuel : nat) (s : list ascii) : option (regex * list ascii) :=
  match fuel with
  | O => None
  | S fuel' =>
      match parse_seq (S (length s)) s with
      | None => None
      | Some (r, c :: s1) =>
          if Ascii.eqb c "|"%char then
            match parse_alts fuel' s1 with
            | Some (r2, s2) => Some (Alt r r2, s2)
            | None => None
            end
          else Some (r, c :: s1)
      | Some (r, []) => Some (r, [])
      end
  end.
End Parser.

Fixpoint parse_depth (depth : nat) (s : list ascii) : option (regex * list ascii) :=
  match depth with
  | O => None
  | S d => parse_alts (parse_depth d) (S (length s)) s
  end.

(** [re.compile(pattern)]; [None] where [re] would reject the pattern or
    the pattern leaves the fragment. *)
Definition compile (pattern : string) : option regex :=
  let s := list_ascii_of_string pattern in
  match parse_depth (S (length s)) s with
  | Some (r, []) => Some r
  | _ => None
  end.

Fixpoint nullable (r : regex) : bool :=
  match r with
  | Fail | Lit _ | Dot | Digit => false
  | Eps | Star _ => true
  | Cat r s => nullable r && nullable s
  | Alt r s => nullable r || nullable s
  end.

(** Derivative by one character, under [re.IGNORECASE]. *)
Fixpoint deriv (c : ascii) (r : regex) : regex :=
  match r with
  | Fail | Eps => Fail
  | Lit a => if Ascii.eqb (PyStr.lower_ascii a) (PyStr.lower_ascii c) then Eps else Fail
  | Dot => if Ascii.eqb c (ascii_of_nat 10) then Fail else Eps
  | Digit => if is_digit c then Eps else Fail
  | Cat r s =>
      if nullable r then Alt (Cat (deriv c r) s) (deriv c s)
      else Cat (deriv c r) s
  | Alt r s => Alt (deriv c r) (deriv c s)
  | Star r' => Cat (deriv c r') (Star r')
  end.

(** Some prefix of [s] is in the language of [r]. *)
Fixpoint match_here (r : regex) (s : list ascii) : bool :=
  nullable r ||
  match s with
  | [] => false
  | c :: s' => match_here (deriv c r) s'
  end.

(** Some substring of [s] is in the language of [r]. *)
Fixpoint search_from (r : regex) (s : list ascii) : bool :=
  match_here r s ||
  match s with
  | [] => false
  | _ :: s' => search_from r s'
  end.

(** [re.search(pattern, text, re.IGNORECASE)] as a truth value. *)
Definition search (pattern text : string) : bool :=
  match compile pattern with
  | Some r => search_from r (list_ascii_of_string text)
  | None => false
  end.

End Re.


(** ** [src/error_distributor.py] *)

Module ErrorDistributor.

(** [class ErrorType(Enum)], in declaration order. *)
Inductive ErrorType : Type :=
| TYPESCRIPT | REACT | TEST | LINT | BUILD | RUNTIME | DEPENDENCY | GENERAL.

(** [class ErrorSeverity(Enum)] *)
Inductive ErrorSeverity : Type := CRITICAL | HIGH | MEDIUM | LOW.

(** [severity.value] *)
Definition severity_value (s : ErrorSeverity) : Z :=
  match s with CRITICAL => 1 | HIGH => 2 | MEDIUM => 3 | LOW => 4 end.

Definition ErrorType_eqb (a b : ErrorType) : bool :=
  match a, b with
  | TYPESCRIPT, TYPESCRIPT | REACT, REACT | TEST, TEST | LINT, LINT
  | BUILD, BUILD | RUNTIME, RUNTIME | DEPENDENCY, DEPENDENCY
  | GENERAL, GENERAL => true
  | _, _ => false
  end.

(** [@dataclass class ErrorContext] *)
Record ErrorContext : Type := {
  file_path : string;
  line_number : option Z;
  column_number : option Z;
  function_name : option string;
  class_name : option string;
  surrounding_code : option string
}.

(** [self.error_patterns]: a dict, so an association list in insertion
    order. *)
Definition error_patterns : list (ErrorType * list string) :=
  [ (TYPESCRIPT,
     [ "TS\d+:";
       "Type '.*' is not assignable to type";
       "Property '.*' does not exist on type";
       "Cannot find name '.*'";
       "Expected \d+ arguments, but got \d+";
       "Object is possibly 'null'";
       "Object is possibly 'undefined'" ]);
    (REACT,
     [ "React Hook";
       "Invalid hook call";
       "Cannot read propert(y|ies) of undefined";
       "Cannot read propert(y|ies) of null";
       "JSX element .* has no corresponding closing tag";
       "Expected an assignment or function call" ]);
    (TEST,
     [ "Test failed";
       "expect\(.*\)\.to";
       "AssertionError";
       "ReferenceError.*describe";
       "ReferenceError.*it";
       "ReferenceError.*expect";
       "vitest";
       "jest" ]);
    (LINT,
     [ "eslint";
       "Parsing error";
       "'.*' is defined but never used";
       "Missing semicolon";
       "Unexpected token" ]);
    (BUILD,
     [ "Build failed";
       "Module not found";
       "Cannot resolve module";
       "Compilation error";
       "SyntaxError: Unexpected token" ]);
    (RUNTIME,
     [ "ReferenceError";
       "TypeError";
       "RangeError";
       "SyntaxError";
       "at runtime" ]);
    (DEPENDENCY,
     [ "npm ERR!";
       "yarn error";
       "Package .* not found";
       "Module .* not found";
       "Cannot find module" ]) ].

(** [self.severity_patterns] *)
Definition severity_patterns : list (ErrorSeverity * list string) :=
  [ (CRITICAL,
     [ "Build failed"; "Compilation error"; "SyntaxError";
       "Cannot find module"; "TS\d+:" ]);
    (HIGH,
     [ "TypeError"; "ReferenceError"; "Test failed"; "Cannot read propert" ]);
    (MEDIUM, [ "eslint"; "Warning"; "Deprecated" ]);
    (LOW,
     [ "'.*' is defined but never used"; "Missing semicolon"; "Prefer const" ]) ].

(** [any(re.search(pattern, error_message, re.IGNORECASE) for pattern in patterns)] *)
Definition any_search (patterns : list string) (error_message : string) : bool :=
  existsb (fun pattern => Re.search pattern error_message) patterns.

(** [self.error_patterns[t]] *)
Definition patterns_of (t : ErrorType) : list string :=
  match List.find (fun kv => ErrorType_eqb (fst kv) t) error_patterns with
  | Some kv => snd kv
  | None => []
  end.

(** The loop [for error_type, patterns in self.error_patterns.items()]. *)
Fixpoint scan_patterns (items : list (ErrorType * list string))
         (error_message : string) : option ErrorType :=
  match items with
  | [] => None
  | (error_type, patterns) :: rest =>
      if any_search patterns error_message then Some error_type
      else scan_patterns rest error_message
  end.

Definition file_ext (context : ErrorContext) : string :=
  if PyStr.is_empty (file_path context) then ""
  else PyStr.lower (PyStr.split_dot_last (file_path context)).

Definition _classify_error_type (error_message : string)
           (context : ErrorContext) : ErrorType :=
  if (String.eqb (file_ext context) "ts" || String.eqb (file_ext context) "tsx")
     && any_search (patterns_of TYPESCRIPT) error_message
  then TYPESCRIPT
  else if (PyStr.contains "test" (PyStr.lower (file_path context))
           || PyStr.contains "spec" (PyStr.lower (file_path context)))
          && any_search (patterns_of TEST) error_message
  then TEST
  else match scan_patterns error_patterns error_message with
       | Some error_type => error_type
       | None => GENERAL
       end.

Fixpoint scan_severity (items : list (ErrorSeverity * list string))
         (error_message : string) : option ErrorSeverity :=
  match items with
  | [] => None
  | (severity, patterns) :: rest =>
      if any_search patterns error_message then Some severity
      else scan_severity rest error_message
  end.

Definition _classify_severity (error_message : string)
           (context : ErrorContext) : ErrorSeverity :=
  match scan_severity severity_patterns error_message with
  | Some severity => severity
  | None => MEDIUM
  end.

Definition classify_error (error_message : string) (context : ErrorContext)
  : ErrorType * ErrorSeverity :=
  (_classify_error_type error_message context,
   _classify_severity error_message context).

(** [round(x, 2)]: to the nearest hundredth, ties to the even one. *)
Definition round_half_even (q : Q) : Z :=
  let f := Qfloor q in
  let d := (q - inject_Z f)%Q in
  match (d ?= 1 # 2)%Q with
  | Lt => f
  | Gt => (f + 1)%Z
  | Eq => if Z.even f then f else (f + 1)%Z
  end.

Definition round2 (q : Q) : Q := Qmake (round_half_even (q * 100)%Q) 100.

(** [type_multipliers] *)
Definition type_multipliers : list (ErrorType * Q) :=
  [ (TYPESCRIPT, 12 # 10); (BUILD, 13 # 10); (REACT, 11 # 10);
    (TEST, 1); (LINT, 8 # 10); (RUNTIME, 11 # 10);
    (DEPENDENCY, 12 # 10); (GENERAL, 9 # 10) ]%Q.

(** [type_multipliers.get(error_type, 1.0)] *)
Definition type_multiplier (error_type : ErrorType) : Q :=
  match List.find (fun kv => ErrorType_eqb (fst kv) error_type) type_multipliers with
  | Some kv => snd kv
  | None => 1%Q
  end.

Definition critical_paths : list string :=
  [ "src/main"; "src/app"; "src/index";
    "package.json"; "tsconfig.json"; "vite.config" ].

(** The guard of the boost: a non-empty path whose lower-cased form
    contains one of [critical_paths]. *)
Definition on_critical_path (context : ErrorContext) : bool :=
  negb (PyStr.is_empty (file_path context))
  && existsb (fun critical => PyStr.contains critical (PyStr.lower (file_path context)))
             critical_paths.

Definition calculate_priority_score (error_type : ErrorType)
           (severity : ErrorSeverity) (context : ErrorContext) : Q :=
  let base_score := (10 - inject_Z (severity_value severity))%Q in
  let score := (base_score * type_multiplier error_type)%Q in
  let score := if on_critical_path context then (score * (12 # 10))%Q else score in
  round2 score.

End ErrorDistributor.


(** ** [src/distributed_coordinator.py] *)

Module Coordinator.

(** [@dataclass class TestJob] *)
Record TestJob : Type := {
  id : string;
  code : string;
  language : string;
  test_type : string;
  priority : Z;
  retry_count : Z;
  max_retries : Z;
  created_at : string
}.

(** [@dataclass class TestResult] *)
Record TestResult : Type := {
  job_id : string;
  success : bool;
  tests_generated : Z;
  tests_passed : Z;
  tests_failed : Z;
  coverage_percentage : Q;
  execution_time_ms : Z;
  error_message : option string;
  generated_tests : option string;
  completed_at : string
}.

(** Exceptions, by the classes the handlers tell apart; [exn_str] is
    [str(e)]. *)
Inductive Exn : Type :=
| ClientError (text : string)
| TimeoutError (text : string)
| ValueError (text : string)
| OtherError (text : string).

Definition exn_str (e : Exn) : string :=
  match e with
  | ClientError t | TimeoutError t | ValueError t | OtherError t => t
  end.

Definition is_client_error (e : Exn) : bool :=
  match e with ClientError _ => true | _ => false end.

(** A queue message as [receive_message] hands it out. The body is the
    job it serialises, [None] for a body that [json.loads] or the
    [TestJob] constructor rejects. *)
Record Message : Type := {
  Body : option TestJob;
  ReceiptHandle : nat
}.

(** An entry of [send_message_batch]. *)
Record BatchEntry : Type := {
  Id : string;
  MessageBody : TestJob;
  AttrPriority : string;
  AttrLanguage : string
}.

(** The response of [send_message_batch]: [(Id, MessageId)] for the
    accepted entries, [(Id, Message)] for the refused ones. *)
Record BatchResponse : Type := {
  Successful : list (string * string);
  Failed : list (string * string)
}.

(** The attributes [get_queue_attributes] returns; an attribute may be
    missing from the answer. *)
Record QueueAttributes : Type := {
  ApproximateNumberOfMessages : option Z;
  ApproximateNumberOfMessagesNotVisible : option Z;
  ApproximateNumberOfMessagesDelayed : option Z
}.

(** The coordinator object together with the services it talks to: the
    two job maps, the messages the queue holds, the batch requests the
    queue was sent, the writes the object store accepted (in [bucket], a
    log: every accepted write in the order of the writes, with the job id
    its key is made of; the store itself keeps, under a key, the last object
    written under it), the metrics the sink accepted, what was logged at
    error or warning level, and the number of service calls and clock
    readings made so far. *)
Record State : Type := {
  active_jobs : gmap string TestJob;
  completed_jobs : gmap string TestResult;
  queue : list Message;
  sent_batches : list (list BatchEntry);
  bucket : list (string * TestResult);
  metrics : list (string * Z);
  logged : list string;
  calls : nat;
  next_handle : nat
}.

Definition set_active_jobs (f : gmap string TestJob -> gmap string TestJob) (st : State) : State :=
  {| active_jobs := f (active_jobs st); completed_jobs := completed_jobs st;
     queue := queue st; sent_batches := sent_batches st;
     bucket := bucket st; metrics := metrics st;
     logged := logged st; calls := calls st; next_handle := next_handle st |}.

Definition set_completed_jobs (f : gmap string TestResult -> gmap string TestResult) (st : State) : State :=
  {| active_jobs := active_jobs st; completed_jobs := f (completed_jobs st);
     queue := queue st; sent_batches := sent_batches st;
     bucket := bucket st; metrics := metrics st;
     logged := logged st; calls := calls st; next_handle := next_handle st |}.

Definition set_queue (f : list Message -> list Message) (st : State) : State :=
  {| active_jobs := active_jobs st; completed_jobs := completed_jobs st;
     queue := f (queue st); sent_batches := sent_batches st;
     bucket := bucket st; metrics := metrics st;
     logged := logged st; calls := calls st; next_handle := next_handle st |}.

Definition set_bucket (f : list (string * TestResult) -> list (string * TestResult)) (st : State) : State :=
  {| active_jobs := active_jobs st; completed_jobs := completed_jobs st;
     queue := queue st; sent_batches := sent_batches st;
     bucket := f (bucket st); metrics := metrics st;
     logged := logged st; calls := calls st; next_handle := next_handle st |}.

Definition set_sent_batches (f : list (list BatchEntry) -> list (list BatchEntry)) (st : State) : State :=
  {| active_jobs := active_jobs st; completed_jobs := completed_jobs st;
     queue := queue st; sent_batches := f (sent_batches st);
     bucket := bucket st; metrics := metrics st;
     logged := logged st; calls := calls st; next_handle := next_handle st |}.

Definition set_metrics (f : list (string * Z) -> list (string * Z)) (st : State) : State :=
  {| active_jobs := active_jobs st; completed_jobs := completed_jobs st;
     queue := queue st; sent_batches := sent_batches st;
     bucket := bucket st; metrics := f (metrics st);
     logged := logged st; calls := calls st; next_handle := next_handle st |}.

Definition set_logged (f : list string -> list string) (st : State) : State :=
  {| active_jobs := active_jobs st; completed_jobs := completed_jobs st;
     queue := queue st; sent_batches := sent_batches st;
     bucket := bucket st; metrics := metrics st;
     logged := f (logged st); calls := calls st; next_handle := next_handle st |}.

Definition set_calls (f : nat -> nat) (st : State) : State :=
  {| active_jobs := active_jobs st; completed_jobs := completed_jobs st;
     queue := queue st; sent_batches := sent_batches st;
     bucket := bucket st; metrics := metrics st;
     logged := logged st; calls := f (calls st); next_handle := next_handle st |}.

Definition set_next_handle (f : nat -> nat) (st : State) : State :=
  {| active_jobs := active_jobs st; completed_jobs := completed_jobs st;
     queue := queue st; sent_batches := sent_batches st;
     bucket := bucket st; metrics := metrics st;
     logged := logged st; calls := calls st; next_handle := f (next_handle st) |}.

(** A fresh coordinator, as [__init__] leaves it, in front of empty
    services. *)
Definition init : State :=
  {| active_jobs := ∅; completed_jobs := ∅; queue := []; sent_batches := [];
     bucket := [];
     metrics := []; logged := []; calls := 0; next_handle := 0 |}.

(** The services and the clock. Each answer is a function of the number
    of service calls made before it, so an environment can fail a call
    once and serve it the next time. [clock_ms] is [time.time()] in
    milliseconds. [background] is what the rest of the process (the
    consumer loop, the sibling tasks) does to the state while a task
    sleeps, and [completion_rank] the order in which concurrent tasks
    finish. *)
Record Env : Type := {
  send_message : nat -> TestJob -> Exn + string;
  send_message_batch : nat -> list BatchEntry -> Exn + BatchResponse;
  delete_message : nat -> nat -> option Exn;
  get_queue_attributes : nat -> Exn + QueueAttributes;
  put_object : nat -> string -> TestResult -> option Exn;
  put_metric_data : nat -> string -> option Exn;
  inference : nat -> TestJob -> option Exn;
  clock_ms : nat -> Z;
  now : nat -> string;
  completion_rank : nat -> nat -> nat;
  background : nat -> State -> State
}.

(** *** The monad of coordinator code: state, exceptions, and calls that
    never return *)

Inductive Res (A : Type) : Type :=
| Ok (a : A)
| Raise (e : Exn)
| Blocked.
Arguments Ok {A} a.
Arguments Raise {A} e.
Arguments Blocked {A}.

Definition M (A : Type) : Type := State -> Res A * State.

Definition ret {A} (a : A) : M A := fun st => (Ok a, st).
Definition raise {A} (e : Exn) : M A := fun st => (Raise e, st).
Definition blocked {A} : M A := fun st => (Blocked, st).

Definition bind {A B} (m : M A) (k : A -> M B) : M B :=
  fun st =>
    match m st with
    | (Ok a, st') => k a st'
    | (Raise e, st') => (Raise e, st')
    | (Blocked, st') => (Blocked, st')
    end.

(** [try: m except Exception as e: h e] *)
Definition try_except {A} (m : M A) (h : Exn -> M A) : M A :=
  fun st =>
    match m st with
    | (Raise e, st') => h e st'
    | r => r
    end.

(** [try: m except ClientError as e: h e] *)
Definition try_except_client {A} (m : M A) (h : Exn -> M A) : M A :=
  try_except m (fun e => if is_client_error e then h e else raise e).

Definition get : M State := fun st => (Ok st, st).
Definition modify (f : State -> State) : M unit := fun st => (Ok tt, f st).

Declare Scope coord_scope.
Delimit Scope coord_scope with coord.
Notation "'let*' x ':=' m 'in' k" := (bind m (fun x => k))
  (at level 10, x pattern, m at level 100, k at level 200) : coord_scope.
Notation "m ';;' k" := (bind m (fun _ => k))
  (at level 100, k at level 200, right associativity) : coord_scope.
Local Open Scope coord_scope.

(** The index of the next service call. *)
Definition call : M nat :=
  fun st => (Ok (calls st), set_calls S st).

Definition log_line (line : string) : M unit :=
  modify (set_logged (fun l => l ++ [line])).

Section WithEnv.
Variable env : Env.

(** [datetime.now(timezone.utc).isoformat()] *)
Definition timestamp : M string :=
  let* n := call in ret (now env n).

(** The queue keeps an accepted message until it is deleted. *)
Definition enqueue (job : TestJob) : M unit :=
  let* st := get in
  modify (fun st' =>
    set_next_handle S
      (set_queue (fun q => q ++ [ {| Body := Some job; ReceiptHandle := next_handle st |} ]) st')).

Definition sqs_send_message (job : TestJob) : M string :=
  let* n := call in
  match send_message env n job with
  | inl e => raise e
  | inr message_id => enqueue job ;; ret message_id
  end.

Definition sqs_delete_message (receipt_handle : nat) : M unit :=
  let* n := call in
  match delete_message env n receipt_handle with
  | Some e => raise e
  | None =>
      modify (set_queue (List.filter (fun m => negb (Nat.eqb (ReceiptHandle m) receipt_handle))))
  end.

(** [self.s3.put_object]: an accepted write is added to the log of
    writes. *)
Definition s3_put_object (job_id : string) (result : TestResult) : M unit :=
  let* n := call in
  match put_object env n job_id result with
  | Some e => raise e
  | None => modify (set_bucket (fun b => b ++ [(job_id, result)]))
  end.

Definition _send_metric (metric_name : string) (value : Z) : M unit :=
  try_except_client
    (let* n := call in
     match put_metric_data env n metric_name with
     | Some e => raise e
     | None => modify (set_metrics (fun l => l ++ [(metric_name, value)]))
     end)
    (fun e => log_line ("Failed to send metric " +:+ metric_name +:+ ": " +:+ exn_str e)).

Definition submit_test_job (job : TestJob) : M string :=
  try_except_client
    (let* message_id := sqs_send_message job in
     modify (set_active_jobs (fun m => <[id job := job]> m)) ;;
     _send_metric "JobsSubmitted" 1 ;;
     ret message_id)
    (fun e =>
       log_line ("Failed to submit job " +:+ id job +:+ ": " +:+ exn_str e) ;;
       raise e).

Definition batch_size : nat := 10.

(** [range(0, stop, step)] for a positive [step]. *)
Definition range_step (stop step : nat) : list nat :=
  List.map (fun k => k * step)%nat (seq 0 (Nat.div (stop + step - 1) step)).

Definition entry_of (job : TestJob) : BatchEntry :=
  {| Id := id job; MessageBody := job;
     AttrPriority := pretty (priority job); AttrLanguage := language job |}.

(** The queue takes in an entry of the call when the response lists its
    id as successful. *)
Definition accepted (response : BatchResponse) (entries : list BatchEntry) : list TestJob :=
  List.map MessageBody
    (List.filter (fun e => existsb (fun s => String.eqb (fst s) (Id e)) (Successful response))
                 entries).

Fixpoint enqueue_all (jobs : list TestJob) : M unit :=
  match jobs with
  | [] => ret tt
  | job :: rest => enqueue job ;; enqueue_all rest
  end.

Definition sqs_send_message_batch (entries : list BatchEntry) : M BatchResponse :=
  let* n := call in
  modify (set_sent_batches (fun l => l ++ [entries])) ;;
  match send_message_batch env n entries with
  | inl e => raise e
  | inr response => enqueue_all (accepted response entries) ;; ret response
  end.

(** [for success in response.get('Successful', [])] *)
Fixpoint track_successful (batch : list TestJob) (successful : list (string * string))
         (message_ids : list string) : M (list string) :=
  match successful with
  | [] => ret message_ids
  | (job_id, message_id) :: rest =>
      let message_ids := message_ids ++ [message_id] in
      match List.find (fun j => String.eqb (id j) job_id) batch with
      | None => raise (OtherError "coroutine raised StopIteration")
      | Some job =>
          modify (set_active_jobs (fun m => <[job_id := job]> m)) ;;
          track_successful batch rest message_ids
      end
  end.

(** [for failure in response.get('Failed', [])] *)
Fixpoint log_failed (failed : list (string * string)) : M unit :=
  match failed with
  | [] => ret tt
  | (job_id, message) :: rest =>
      log_line ("Failed to submit job " +:+ job_id +:+ ": " +:+ message) ;;
      log_failed rest
  end.

(** The body of [for i in range(0, len(jobs), batch_size)]. *)
Fixpoint submit_chunks (starts : list nat) (jobs : list TestJob)
         (message_ids : list string) : M (list string) :=
  match starts with
  | [] => ret message_ids
  | i :: rest =>
      let batch := take batch_size (drop i jobs) in
      let entries := List.map entry_of batch in
      let* message_ids :=
        try_except_client
          (let* response := sqs_send_message_batch entries in
           let* message_ids := track_successful batch (Successful response) message_ids in
           log_failed (Failed response) ;;
           ret message_ids)
          (fun e =>
             log_line ("Failed to submit job batch: " +:+ exn_str e) ;;
             raise e) in
      submit_chunks rest jobs message_ids
  end.

Definition submit_batch_jobs (jobs : list TestJob) : M (list string) :=
  let* message_ids := submit_chunks (range_step (length jobs) batch_size) jobs [] in
  _send_metric "BatchJobsSubmitted" (Z.of_nat (length message_ids)) ;;
  ret message_ids.

(** [json.loads(message['Body'])] followed by the [TestJob] constructor *)
Definition parse_job (message : Message) : M TestJob :=
  match Body message with
  | Some job => ret job
  | None => raise (ValueError "malformed message body")
  end.

Definition mock_tests (job : TestJob) : string :=
      "
// Generated " +:+ test_type job +:+ " tests for " +:+ language job +:+ "
describe('" +:+ id job +:+ "', () => {
    it('should pass basic functionality test', () => {
        // Test implementation here
        expect(true).toBe(true);
    });
    
    it('should handle edge cases', () => {
        // Edge case test implementation
        expect(true).toBe(true);
    });
});
".

(** The source simulates the generation: it sleeps, returns the same
    counts for every job and raises nothing. [inference] stands for the
    backend that is to replace the simulation, which may raise; when it
    answers [None] the definition is the source's. *)
Definition _generate_tests (job : TestJob) : M TestResult :=
  let* n := call in
  match inference env n job with
  | Some e => raise e
  | None =>
      let* t := timestamp in
      ret {| job_id := id job; success := true; tests_generated := 2;
             tests_passed := 2; tests_failed := 0;
             coverage_percentage := 855 # 10; execution_time_ms := 0;
             error_message := None; generated_tests := Some (mock_tests job);
             completed_at := t |}
  end.

Definition _store_results (job_id : string) (result : TestResult) : M unit :=
  try_except_client
    (s3_put_object job_id result)
    (fun e =>
       log_line ("Failed to store results for job " +:+ job_id +:+ ": " +:+ exn_str e) ;;
       raise e).

Definition with_execution_time (ms : Z) (r : TestResult) : TestResult :=
  {| job_id := job_id r; success := success r; tests_generated := tests_generated r;
     tests_passed := tests_passed r; tests_failed := tests_failed r;
     coverage_percentage := coverage_percentage r; execution_time_ms := ms;
     error_message := error_message r; generated_tests := generated_tests r;
     completed_at := completed_at r |}.

Definition with_retry_count (n : Z) (j : TestJob) : TestJob :=
  {| id := id j; code := code j; language := language j; test_type := test_type j;
     priority := priority j; retry_count := n; max_retries := max_retries j;
     created_at := created_at j |}.

(** The [TestResult] the source builds for a failure: zeroed metrics and
    [error_message=str(e)]. *)
Definition failure_result (job_id : string) (e : Exn) : M TestResult :=
  let* t := timestamp in
  ret {| job_id := job_id; success := false; tests_generated := 0;
         tests_passed := 0; tests_failed := 0; coverage_percentage := 0;
         execution_time_ms := 0; error_message := Some (exn_str e);
         generated_tests := None; completed_at := t |}.

(** The [try] block of [_process_single_job]. *)
Definition process_body (message : Message) : M unit :=
  let* job := parse_job message in
  let* start_time := call in
  let* test_result := _generate_tests job in
  let* end_time := call in
  let execution_time := (clock_ms env end_time - clock_ms env start_time)%Z in
  let test_result := with_execution_time execution_time test_result in
  _store_results (id job) test_result ;;
  modify (set_completed_jobs (fun m => <[id job := test_result]> m)) ;;
  modify (set_active_jobs (fun m => delete (id job) m)) ;;
  sqs_delete_message (ReceiptHandle message) ;;
  _send_metric "JobsCompleted" 1 ;;
  _send_metric "TestsGenerated" (tests_generated test_result).

(** The inner [try] block: the retry logic. *)
Definition handle_retry (message : Message) (e : Exn) : M unit :=
  let* job := parse_job message in
  (if (retry_count job <? max_retries job)%Z then
     let job := with_retry_count (retry_count job + 1) job in
     submit_test_job job ;; ret tt
   else
     let* failure := failure_result (id job) e in
     _store_results (id job) failure ;;
     log_line ("Job " +:+ id job +:+ " failed after " +:+ pretty (max_retries job) +:+ " retries") ;;
     _send_metric "JobsFailed" 1) ;;
  sqs_delete_message (ReceiptHandle message).

Definition _process_single_job (message : Message) : M unit :=
  try_except
    (process_body message)
    (fun e =>
       log_line ("Error processing job: " +:+ exn_str e) ;;
       try_except
         (handle_retry message e)
         (fun retry_error =>
            log_line ("Error handling job retry: " +:+ exn_str retry_error))).

(** One round of [process_test_jobs] for one received message: the
    message at position [k] of the queue, if there is one. *)
Definition deliver (k : nat) : M unit :=
  let* st := get in
  match queue st !! k with
  | Some message => _process_single_job message
  | None => ret tt
  end.

(** The consumer loop over a schedule of deliveries. *)
Fixpoint consume (schedule : list nat) : M unit :=
  match schedule with
  | [] => ret tt
  | k :: rest => deliver k ;; consume rest
  end.

(** [get_job_status] *)
Inductive JobStatus : Type :=
| completed (success : bool) (result : TestResult)
| processing (job : TestJob) (submitted_at : string)
| not_found (message : string).

Definition job_status (job_id : string) (st : State) : JobStatus :=
  match completed_jobs st !! job_id with
  | Some result => completed (success result) result
  | None =>
      match active_jobs st !! job_id with
      | Some job => processing job (created_at job)
      | None => not_found ("Job " +:+ job_id +:+ " not found")
      end
  end.

Definition get_job_status (job_id : string) : M JobStatus :=
  let* st := get in ret (job_status job_id st).

(** [get_queue_stats]: the dict of five counts, or the dict that holds
    only ['error']. *)
Inductive QueueStats : Type :=
| Stats (messages_available messages_in_flight messages_delayed : Z)
        (active_count completed_count : Z)
| StatsError (error : string).

Definition get_queue_stats : M QueueStats :=
  try_except_client
    (let* n := call in
     match get_queue_attributes env n with
     | inl e => raise e
     | inr attributes =>
         let* st := get in
         ret (Stats (default 0%Z (ApproximateNumberOfMessages attributes))
                    (default 0%Z (ApproximateNumberOfMessagesNotVisible attributes))
                    (default 0%Z (ApproximateNumberOfMessagesDelayed attributes))
                    (Z.of_nat (size (active_jobs st)))
                    (Z.of_nat (size (completed_jobs st))))
     end)
    (fun e =>
       log_line ("Failed to get queue stats: " +:+ exn_str e) ;;
       ret (StatsError (exn_str e))).

End WithEnv.

End Coordinator.

(** ** [src/parallel_executor.py]

    Tasks that the source runs concurrently are run here one after the
    other; what the others do between two polls of a task is part of
    [background], about which nothing is assumed. Time is counted in polls:
    every turn of the waiting loop sleeps one second, so a wait with a
    timeout of [n] seconds asks for the status [n] times. *)

Module Executor.
Import Coordinator.
Local Open Scope coord_scope.

(** [class ExecutionStrategy(Enum)] *)
Inductive ExecutionStrategy : Type :=
| SEQUENTIAL | PARALLEL_FILES | PARALLEL_FUNCTIONS | HYBRID | LOAD_BALANCED.

(** [@dataclass class ExecutionConfig] *)
Record ExecutionConfig : Type := {
  strategy : ExecutionStrategy;
  max_workers : Z;
  timeout_seconds : Z;
  retry_attempts : Z;
  batch_size : Z;
  priority_levels : list Z
}.

(** [@dataclass class ExecutionResult] *)
Record ExecutionResult : Type := {
  total_jobs : Z;
  completed_jobs : Z;
  failed_jobs : Z;
  execution_time_ms : Z;
  average_job_time_ms : Q;
  throughput_jobs_per_second : Q;
  error_rate_percentage : Q;
  results : list TestResult
}.

(** What a progress callback is given as its last argument, and what it
    does: return, or raise. *)
Inductive CallbackArg : Type :=
| CbResult (r : TestResult)
| CbException (e : Exn)
| CbNone.

Definition Callback : Type := nat -> nat -> CallbackArg -> option Exn.

Section WithEnv.
Variable env : Env.
Variable config : ExecutionConfig.

(** [try: m except Exception as e], with the outcome as a value. *)
Definition attempt {A} (m : M A) : M (Exn + A) :=
  try_except (let* a := m in ret (inr a)) (fun e => ret (inl e)).

(** [await asyncio.sleep(1)] *)
Definition sleep : M unit :=
  let* n := call in
  modify (fun st => set_calls (fun _ => calls st) (background env n st)).

Fixpoint wait_loop (polls : nat) (job_id : string) (timeout : Z) : M TestResult :=
  match polls with
  | O =>
      raise (TimeoutError ("Job " +:+ job_id +:+ " did not complete within "
                           +:+ pretty timeout +:+ " seconds"))
  | S polls' =>
      let* status := get_job_status job_id in
      match status with
      | completed _ result => ret result
      | _ => sleep ;; wait_loop polls' job_id timeout
      end
  end.

Definition _wait_for_job_completion (job_id : string) (timeout : option Z) : M TestResult :=
  let timeout := default (timeout_seconds config) timeout in
  wait_loop (Z.to_nat timeout) job_id timeout.

(** [if progress_callback: await progress_callback(a, b, c)] *)
Definition invoke (progress_callback : option Callback) (a b : nat) (c : CallbackArg) : M unit :=
  match progress_callback with
  | None => ret tt
  | Some f => match f a b c with Some e => raise e | None => ret tt end
  end.

(** The loop of [_execute_sequential]; [i] counts the jobs done. *)
Fixpoint sequential_loop (i total : nat) (jobs : list TestJob)
         (progress_callback : option Callback) (results : list TestResult)
  : M (list TestResult) :=
  match jobs with
  | [] => ret results
  | job :: rest =>
      let on_exception results e :=
        log_line ("Failed to execute job " +:+ id job +:+ ": " +:+ exn_str e) ;;
        let* failure := failure_result env (id job) e in
        ret (results ++ [failure]) in
      let* outcome := attempt (submit_test_job env job ;;
                               _wait_for_job_completion (id job) None) in
      let* results :=
        match outcome with
        | inl e => on_exception results e
        | inr result =>
            let results := results ++ [result] in
            let* called := attempt (invoke progress_callback (i + 1) total (CbResult result)) in
            match called with
            | inl e => on_exception results e
            | inr _ => ret results
            end
        end in
      sequential_loop (i + 1) total rest progress_callback results
  end.

Definition _execute_sequential (jobs : list TestJob) (progress_callback : option Callback)
  : M (list TestResult) :=
  sequential_loop 0 (length jobs) jobs progress_callback [].

(** [range(0, stop, step)] as the batched strategy calls it. *)
Definition py_range (stop : nat) (step : Z) : M (list nat) :=
  if (step =? 0)%Z then raise (ValueError "range() arg 3 must not be zero")
  else if (step <? 0)%Z then ret []
  else ret (range_step stop (Z.to_nat step)).

(** [asyncio.gather] over the submissions, exceptions kept as values. *)
Fixpoint submit_all (batch : list TestJob) : M (list (Exn + string)) :=
  match batch with
  | [] => ret []
  | job :: rest =>
      let* r := attempt (submit_test_job env job) in
      let* rs := submit_all rest in
      ret (r :: rs)
  end.

(** [asyncio.gather] over the waits, exceptions kept as values. *)
Fixpoint wait_all (batch : list TestJob) : M (list (Exn + TestResult)) :=
  match batch with
  | [] => ret []
  | job :: rest =>
      let* r := attempt (_wait_for_job_completion (id job) None) in
      let* rs := wait_all rest in
      ret (r :: rs)
  end.

(** [for i, result in enumerate(batch_results)] *)
Fixpoint process_results (batch : list TestJob) (batch_results : list (Exn + TestResult))
         (results : list TestResult) : M (list TestResult) :=
  match batch, batch_results with
  | job :: batch', inl e :: rest =>
      log_line ("Job " +:+ id job +:+ " failed: " +:+ exn_str e) ;;
      let* failure := failure_result env (id job) e in
      process_results batch' rest (results ++ [failure])
  | _ :: batch', inr result :: rest =>
      process_results batch' rest (results ++ [result])
  | _, _ => ret results
  end.

Definition last_arg (batch_results : list (Exn + TestResult)) : CallbackArg :=
  match List.last (List.map Some batch_results) None with
  | Some (inl e) => CbException e
  | Some (inr r) => CbResult r
  | None => CbNone
  end.

Fixpoint files_loop (starts : list nat) (jobs : list TestJob)
         (progress_callback : option Callback) (results : list TestResult)
  : M (list TestResult) :=
  match starts with
  | [] => ret results
  | batch_start :: rest =>
      let batch := take (Z.to_nat (batch_size config)) (drop batch_start jobs) in
      submit_all batch ;;
      let* batch_results := wait_all batch in
      let* results := process_results batch batch_results results in
      invoke progress_callback (length results) (length jobs) (last_arg batch_results) ;;
      files_loop rest jobs progress_callback results
  end.

Definition _execute_parallel_files (jobs : list TestJob) (progress_callback : option Callback)
  : M (list TestResult) :=
  let* starts := py_range (length jobs) (batch_size config) in
  files_loop starts jobs progress_callback [].

(** The inner coroutine of [_execute_parallel_functions], once it holds
    the semaphore. *)
Definition execute_single_job (job : TestJob) : M TestResult :=
  try_except
    (submit_test_job env job ;; _wait_for_job_completion (id job) None)
    (fun e =>
       log_line ("Failed to execute job " +:+ id job +:+ ": " +:+ exn_str e) ;;
       failure_result env (id job) e).

Fixpoint run_tasks (jobs : list TestJob) : M (list TestResult) :=
  match jobs with
  | [] => ret []
  | job :: rest =>
      let* r := execute_single_job job in
      let* rs := run_tasks rest in
      ret (r :: rs)
  end.

(** [asyncio.as_completed]: the tasks in the order they finish, tasks
    that finish together in the order they were created. *)
Fixpoint insert_by_rank {A} (x : nat * A) (l : list (nat * A)) : list (nat * A) :=
  match l with
  | [] => [x]
  | y :: l' => if (fst y <? fst x)%nat then y :: insert_by_rank x l' else x :: y :: l'
  end.

Definition as_completed {A} (rank : nat -> nat) (tasks : list A) : list A :=
  List.map snd
    (fold_right insert_by_rank []
       (List.map (fun it => (rank (fst it), snd it)) (imap (fun i a => (i, a)) tasks))).

Fixpoint completion_loop (i total : nat) (done : list TestResult)
         (progress_callback : option Callback) (results : list TestResult)
  : M (list TestResult) :=
  match done with
  | [] => ret results
  | result :: rest =>
      let results := results ++ [result] in
      invoke progress_callback (i + 1) total (CbResult result) ;;
      completion_loop (i + 1) total rest progress_callback results
  end.

(** [asyncio.Semaphore(n)] raises on a negative [n]; with [n = 0] no
    task ever enters, and the loop over a non-empty task list waits for
    ever. *)
Definition _execute_parallel_functions (jobs : list TestJob)
           (progress_callback : option Callback) : M (list TestResult) :=
  if (max_workers config <? 0)%Z then
    raise (ValueError "Semaphore initial value must be >= 0")
  else
    match jobs with
    | [] => ret []
    | _ :: _ =>
        if (max_workers config =? 0)%Z then blocked
        else
          let* finished := run_tasks jobs in
          let* n := call in
          completion_loop 0 (length jobs) (as_completed (completion_rank env n) finished)
                          progress_callback []
    end.

(** [priority_groups]: the jobs of each priority, in their order. *)
Definition group_by_priority (jobs : list TestJob) : gmap Z (list TestJob) :=
  fold_left
    (fun groups job =>
       <[priority job := default [] (groups !! priority job) ++ [job]]> groups)
    jobs ∅.

(** [if p in priority_groups: results.extend(await run(priority_groups[p]))] *)
Definition run_tier (groups : gmap Z (list TestJob)) (p : Z)
           (run : list TestJob -> option Callback -> M (list TestResult))
           (results : list TestResult) : M (list TestResult) :=
  match groups !! p with
  | Some tier => let* tier_results := run tier None in ret (results ++ tier_results)
  | None => ret results
  end.

Definition _execute_hybrid (jobs : list TestJob) (progress_callback : option Callback)
  : M (list TestResult) :=
  let priority_groups := group_by_priority jobs in
  let* results := run_tier priority_groups 1 _execute_sequential [] in
  let* results := run_tier priority_groups 2 _execute_parallel_files results in
  let* results := run_tier priority_groups 3 _execute_parallel_functions results in
  ret results.

(** [queue_stats.get('messages_available', 0)] *)
Definition stats_available (queue_stats : QueueStats) : Z :=
  match queue_stats with
  | Stats available _ _ _ _ => available
  | StatsError _ => 0
  end.

(** [queue_stats.get('messages_in_flight', 0)] *)
Definition stats_in_flight (queue_stats : QueueStats) : Z :=
  match queue_stats with
  | Stats _ in_flight _ _ _ => in_flight
  | StatsError _ => 0
  end.

Definition _execute_load_balanced (jobs : list TestJob) (progress_callback : option Callback)
  : M (list TestResult) :=
  let* queue_stats := get_queue_stats env in
  if (stats_available queue_stats >? 50)%Z then
    _execute_sequential jobs progress_callback
  else if (stats_in_flight queue_stats <? 10)%Z then
    _execute_parallel_functions jobs progress_callback
  else
    _execute_parallel_files jobs progress_callback.

Definition count_success (results : list TestResult) : nat :=
  length (List.filter success results).

Definition count_failure (results : list TestResult) : nat :=
  length (List.filter (fun r => negb (success r)) results).

Definition sum_times (results : list TestResult) : Z :=
  fold_right (fun r acc => (Coordinator.execution_time_ms r + acc)%Z) 0%Z results.

Definition run_strategy (s : ExecutionStrategy) (jobs : list TestJob)
           (progress_callback : option Callback) : M (list TestResult) :=
  match s with
  | SEQUENTIAL => _execute_sequential jobs progress_callback
  | PARALLEL_FILES => _execute_parallel_files jobs progress_callback
  | PARALLEL_FUNCTIONS => _execute_parallel_functions jobs progress_callback
  | HYBRID => _execute_hybrid jobs progress_callback
  | LOAD_BALANCED => _execute_load_balanced jobs progress_callback
  end.

Definition execute_test_suite (jobs : list TestJob) (progress_callback : option Callback)
  : M ExecutionResult :=
  let* start_time := call in
  let* results := run_strategy (strategy config) jobs progress_callback in
  let* end_time := call in
  let execution_time_ms := (clock_ms env end_time - clock_ms env start_time)%Z in
  let completed_jobs := count_success results in
  let failed_jobs := count_failure results in
  let n := Z.of_nat (length results) in
  let average_job_time :=
    match results with
    | [] => 0%Q
    | _ => (inject_Z (sum_times results) / inject_Z n)%Q
    end in
  let throughput :=
    if (execution_time_ms >? 0)%Z
    then (inject_Z n / (inject_Z execution_time_ms / 1000))%Q else 0%Q in
  let error_rate :=
    match results with
    | [] => 0%Q
    | _ => (inject_Z (Z.of_nat failed_jobs) / inject_Z n * 100)%Q
    end in
  ret {| total_jobs := Z.of_nat (length jobs);
         completed_jobs := Z.of_nat completed_jobs;
         failed_jobs := Z.of_nat failed_jobs;
         execution_time_ms := execution_time_ms;
         average_job_time_ms := average_job_time;
         throughput_jobs_per_second := throughput;
         error_rate_percentage := error_rate;
         results := results |}.

End WithEnv.

End Executor.


(** ** Concrete jobs, contexts and environments *)

Module Scenario.
Import ErrorDistributor Coordinator Executor.

Definition context_of (path : string) : ErrorContext :=
  {| file_path := path; line_number := None; column_number := None;
     function_name := None; class_name := None; surrounding_code := None |}.

(** The priority score as the specification words it: the base is the
    largest severity ordinal plus one, minus the ordinal of the severity. *)
Definition max_severity_ordinal : Z := severity_value LOW.

Definition worded_priority_score (error_type : ErrorType) (severity : ErrorSeverity)
           (context : ErrorContext) : Q :=
  let base := inject_Z ((max_severity_ordinal + 1) - severity_value severity) in
  round2 (base * type_multiplier error_type
          * (if on_critical_path context then 12 # 10 else 1))%Q.

(** A job as [TestJob(id, code, language)] builds it, with the given
    priority and retry budget. *)
Definition job_of (job_id : string) (p retries limit : Z) : TestJob :=
  {| id := job_id; code := "function f() {}"; language := "javascript";
     test_type := "unit"; priority := p; retry_count := retries;
     max_retries := limit; created_at := "2025-01-01T00:00:00+00:00" |}.

(** Services that accept every request, a backend that never raises, and
    nothing else running. *)
Definition quiet_env : Env :=
  {| send_message := fun n _ => inr ("msg-" +:+ pretty n);
     send_message_batch := fun _ entries =>
       inr {| Successful := List.map (fun e => (Id e, "msg-" +:+ Id e)) entries;
              Failed := [] |};
     delete_message := fun _ _ => None;
     get_queue_attributes := fun _ =>
       inr {| ApproximateNumberOfMessages := Some 0%Z;
              ApproximateNumberOfMessagesNotVisible := Some 0%Z;
              ApproximateNumberOfMessagesDelayed := Some 0%Z |};
     put_object := fun _ _ _ => None;
     put_metric_data := fun _ _ => None;
     inference := fun _ _ => None;
     clock_ms := fun n => Z.of_nat n;
     now := fun n => "t" +:+ pretty n;
     completion_rank := fun _ i => i;
     background := fun _ st => st |}.

(** The same, with a backend that raises [e] on every job. *)
Definition failing_backend_env (e : Exn) : Env :=
  {| send_message := send_message quiet_env;
     send_message_batch := send_message_batch quiet_env;
     delete_message := delete_message quiet_env;
     get_queue_attributes := get_queue_attributes quiet_env;
     put_object := put_object quiet_env;
     put_metric_data := put_metric_data quiet_env;
     inference := fun _ _ => Some e;
     clock_ms := clock_ms quiet_env;
     now := now quiet_env;
     completion_rank := completion_rank quiet_env;
     background := background quiet_env |}.

(** The same as [quiet_env], with a queue that reports the given depths. *)
Definition loaded_env (available in_flight : Z) : Env :=
  {| send_message := send_message quiet_env;
     send_message_batch := send_message_batch quiet_env;
     delete_message := delete_message quiet_env;
     get_queue_attributes := fun _ =>
       inr {| ApproximateNumberOfMessages := Some available;
              ApproximateNumberOfMessagesNotVisible := Some in_flight;
              ApproximateNumberOfMessagesDelayed := Some 0%Z |};
     put_object := put_object quiet_env;
     put_metric_data := put_metric_data quiet_env;
     inference := inference quiet_env;
     clock_ms := clock_ms quiet_env;
     now := now quiet_env;
     completion_rank := completion_rank quiet_env;
     background := background quiet_env |}.

(** The same as [quiet_env], with a queue whose batch call number [k]
    (counted in service calls) raises [ClientError]. *)
Definition batch_outage_env (k : nat) : Env :=
  {| send_message := send_message quiet_env;
     send_message_batch := fun n entries =>
       if Nat.eqb n k then inl (ClientError "ServiceUnavailable")
       else send_message_batch quiet_env n entries;
     delete_message := delete_message quiet_env;
     get_queue_attributes := get_queue_attributes quiet_env;
     put_object := put_object quiet_env;
     put_metric_data := put_metric_data quiet_env;
     inference := inference quiet_env;
     clock_ms := clock_ms quiet_env;
     now := now quiet_env;
     completion_rank := completion_rank quiet_env;
     background := background quiet_env |}.

Definition config_of (s : ExecutionStrategy) (timeout : Z) : ExecutionConfig :=
  {| strategy := s; max_workers := 4; timeout_seconds := timeout;
     retry_attempts := 3; batch_size := 10; priority_levels := [1; 2; 3]%Z |}.

(** *** Vocabulary of the statements *)

(** Whatever state [m] runs in, [P] still holds afterwards. *)
Definition preserves {A} (P : State -> Prop) (m : M A) : Prop :=
  forall st, P st -> P (snd (m st)).

(** [m] raises or returns, in every state. *)
Definition never_blocks {A} (m : M A) : Prop :=
  forall st, fst (m st) <> Blocked.

(** Whenever [m] returns a value, the value satisfies [post]. *)
Definition yields {A} (m : M A) (post : A -> Prop) : Prop :=
  forall st a, fst (m st) = Ok a -> post a.

(** The invariant of the Job model: [retry_count <= max_retries]. *)
Definition within_budget (job : TestJob) : Prop :=
  (retry_count job <= max_retries job)%Z.

(** A result that succeeded or that says why it did not. *)
Definition accounted (r : TestResult) : Prop :=
  success r = true \/ exists text, error_message r = Some text.

(** Every message in the queue of [st] was already in the queue of [st0]
    or carries a job that satisfies [good]. *)
Definition queue_grows_by (good : TestJob -> Prop) (st0 st : State) : Prop :=
  forall m, m ∈ queue st -> m ∈ queue st0 \/ exists j, Body m = Some j /\ good j.

(** Every object in the bucket of [st] was already in the bucket of [st0]
    or satisfies [good]. *)
Definition bucket_grows_by (good : TestResult -> Prop) (st0 st : State) : Prop :=
  forall k r, (k, r) ∈ bucket st -> (k, r) ∈ bucket st0 \/ good r.

(** The queue reports as successful only ids it was sent. *)
Definition answers_sane (env : Env) : Prop :=
  forall n entries response,
    send_message_batch env n entries = inr response ->
    forall s, In s (Successful response) -> exists e, In e entries /\ Id e = fst s.

(** The entries of the chunk that starts at index [i]. *)
Definition chunk_entries (jobs : list TestJob) (i : nat) : list BatchEntry :=
  List.map entry_of (take Coordinator.batch_size (drop i jobs)).

(** The position, among the chunks sent from call [n] on, of the first
    chunk whose send raises, with the exception. *)
Fixpoint first_outage (env : Env) (jobs : list TestJob) (n : nat) (starts : list nat)
  : option (nat * Exn) :=
  match starts with
  | [] => None
  | i :: rest =>
      match send_message_batch env n (chunk_entries jobs i) with
      | inl e => Some (0%nat, e)
      | inr _ =>
          match first_outage env jobs (S n) rest with
          | Some (k, e) => Some (S k, e)
          | None => None
          end
      end
  end.

Definition failed_line (f : string * string) : string :=
  "Failed to submit job " +:+ fst f +:+ ": " +:+ snd f.

(** What the chunks sent from call [n] on leave in the log: the refused
    entries of every answered chunk, and the outage that ends the loop. *)
Fixpoint chunk_log (env : Env) (jobs : list TestJob) (n : nat) (starts : list nat)
  : list string :=
  match starts with
  | [] => []
  | i :: rest =>
      match send_message_batch env n (chunk_entries jobs i) with
      | inl e =>
          if is_client_error e then [ "Failed to submit job batch: " +:+ exn_str e ] else []
      | inr response =>
          List.map failed_line (Failed response) ++ chunk_log env jobs (S n) rest
      end
  end.

(** The message ids of the entries the answered chunks accepted. *)
Fixpoint accepted_ids (env : Env) (jobs : list TestJob) (n : nat) (starts : list nat)
  : list string :=
  match starts with
  | [] => []
  | i :: rest =>
      match send_message_batch env n (chunk_entries jobs i) with
      | inl _ => []
      | inr response =>
          List.map snd (Successful response) ++ accepted_ids env jobs (S n) rest
      end
  end.

(** Jobs [job-0] to [job-(n-1)]. *)
Definition numbered_jobs (n : nat) : list TestJob :=
  List.map (fun k => job_of ("job-" +:+ pretty k) 1 0 3) (seq 0 n).

(** The jobs of priority [p], in their order. *)
Definition tier (p : Z) (jobs : list TestJob) : list TestJob :=
  List.filter (fun job => Z.eqb (priority job) p) jobs.

(** The job has one of the priorities the hybrid strategy runs. *)
Definition in_tier (job : TestJob) : bool :=
  Z.eqb (priority job) 1 || Z.eqb (priority job) 2 || Z.eqb (priority job) 3.

(** What the batch submission changes besides the queue and the active
    map: the requests sent, the number of calls, the log. *)
Definition batch_view (st : State) : list (list BatchEntry) * nat * list string :=
  (sent_batches st, calls st, logged st).

(** The failed results among the writes the store accepted. *)
Definition failed_writes (st : State) : list (string * TestResult) :=
  List.filter (fun kr => negb (success (snd kr))) (bucket st).

(** The delivery of [message] fails: its try block raises, whatever the
    cause; and the retry logic that follows runs to its end. *)
Definition delivery_fails (env : Env) (message : Message) (st : State) : Prop :=
  exists e st1,
    process_body env message st = (Raise e, st1)
    /\ fst (handle_retry env message e
              (set_logged (fun l => l ++ ["Error processing job: " +:+ exn_str e]) st1))
       = Ok tt.

(** The next [n] deliveries of the message at the head of the queue fail. *)
Fixpoint deliveries_fail (env : Env) (n : nat) (st : State) : Prop :=
  match n with
  | O => True
  | S n' =>
      match queue st with
      | [] => True
      | message :: _ =>
          delivery_fails env message st
          /\ deliveries_fail env n' (snd (_process_single_job env message st))
      end
  end.

(** What the try block leaves of [st0], however it ends: no new message,
    the queue as it was up to the deletion of the delivered message, and no
    write of a failed result. *)
Definition left_by_try (handle : nat) (st0 st : State) : Prop :=
  next_handle st = next_handle st0
  /\ List.filter (fun m => negb (Nat.eqb (ReceiptHandle m) handle)) (queue st)
     = List.filter (fun m => negb (Nat.eqb (ReceiptHandle m) handle)) (queue st0)
  /\ failed_writes st = failed_writes st0.

(** The same as [quiet_env], with a store that refuses, with [e], the
    writes asked at the service calls listed. *)
Definition store_outage_env (refused : list nat) (e : Exn) : Env :=
  {| send_message := send_message quiet_env;
     send_message_batch := send_message_batch quiet_env;
     delete_message := delete_message quiet_env;
     get_queue_attributes := get_queue_attributes quiet_env;
     put_object := fun n _ _ => if existsb (Nat.eqb n) refused then Some e else None;
     put_metric_data := put_metric_data quiet_env;
     inference := inference quiet_env;
     clock_ms := clock_ms quiet_env;
     now := now quiet_env;
     completion_rank := completion_rank quiet_env;
     background := background quiet_env |}.

(** The retry budget of the job is spent. *)
Definition exhausted (job : TestJob) : Prop :=
  (max_retries job <= retry_count job)%Z.

(** No message on the queue carries a job with the id [k]. *)
Definition off_queue (k : string) (st : State) : Prop :=
  forall m j, m ∈ queue st -> Body m = Some j -> id j <> k.

(** What runs while a task sleeps is the consumer, delivering messages of
    the queue. *)
Definition consumer_in_background (env : Env) : Prop :=
  forall n st, exists schedule, background env n st = snd (consume env schedule st).

(** The two job maps are what they are in [st0]. *)
Definition maps_as_in (st0 st : State) : Prop :=
  Coordinator.completed_jobs st = Coordinator.completed_jobs st0
  /\ active_jobs st = active_jobs st0.

(** The failed result the source builds for [job] and exception [e], in
    the retry logic and in the strategies alike, stamped [t]. *)
Definition terminal_failure (job : TestJob) (e : Exn) (t : string) : TestResult :=
  {| job_id := id job; success := false; tests_generated := 0;
     tests_passed := 0; tests_failed := 0; coverage_percentage := 0;
     Coordinator.execution_time_ms := 0; error_message := Some (exn_str e);
     generated_tests := None; completed_at := t |}.

(** The classification as the specification words it: an ordered list of
    (predicate, type) pairs, the first pair whose predicate holds decides,
    [general] when none does. *)
Definition worded_rules (error_message : string) (context : ErrorContext)
  : list (bool * ErrorType) :=
  [ ((String.eqb (file_ext context) "ts" || String.eqb (file_ext context) "tsx")
     && any_search (patterns_of TYPESCRIPT) error_message, TYPESCRIPT);
    ((PyStr.contains "test" (PyStr.lower (file_path context))
      || PyStr.contains "spec" (PyStr.lower (file_path context)))
     && any_search (patterns_of TEST) error_message, TEST);
    (any_search (patterns_of TYPESCRIPT) error_message, TYPESCRIPT);
    (any_search (patterns_of REACT) error_message, REACT);
    (any_search (patterns_of TEST) error_message, TEST);
    (any_search (patterns_of LINT) error_message, LINT);
    (any_search (patterns_of BUILD) error_message, BUILD);
    (any_search (patterns_of RUNTIME) error_message, RUNTIME);
    (any_search (patterns_of DEPENDENCY) error_message, DEPENDENCY) ].

Fixpoint first_match (rules : list (bool * ErrorType)) : ErrorType :=
  match rules with
  | [] => GENERAL
  | (holds, t) :: rest => if holds then t else first_match rest
  end.

End Scenario.

(** ** [src/error_distributor.py]: complexity and model routing *)

Module ErrorRouting.
Import ErrorDistributor.

(** [self.model_recommendations] *)
Definition model_recommendations : list (ErrorType * list (string * string)) :=
  [ (TYPESCRIPT, [ ("simple", "deepseek-coder:1.3b"); ("complex", "deepseek-coder:6.7b");
                   ("advanced", "deepseek-coder:33b") ]);
    (REACT, [ ("simple", "deepseek-coder:1.3b"); ("complex", "deepseek-coder:6.7b");
              ("advanced", "deepseek-coder:33b") ]);
    (TEST, [ ("simple", "deepseek-coder:1.3b"); ("complex", "deepseek-coder:6.7b");
             ("advanced", "deepseek-coder:6.7b") ]);
    (LINT, [ ("simple", "deepseek-coder:1.3b"); ("complex", "deepseek-coder:1.3b");
             ("advanced", "deepseek-coder:6.7b") ]);
    (BUILD, [ ("simple", "deepseek-coder:6.7b"); ("complex", "deepseek-coder:33b");
              ("advanced", "deepseek-coder:33b") ]);
    (RUNTIME, [ ("simple", "deepseek-coder:1.3b"); ("complex", "deepseek-coder:6.7b");
                ("advanced", "deepseek-coder:33b") ]);
    (DEPENDENCY, [ ("simple", "llama3.2:1b"); ("complex", "deepseek-coder:1.3b");
                   ("advanced", "deepseek-coder:6.7b") ]);
    (GENERAL, [ ("simple", "llama3.2:1b"); ("complex", "deepseek-coder:1.3b");
                ("advanced", "deepseek-coder:6.7b") ]) ].

(** [d.get(key, default)] on a dict with string keys. *)
Definition dict_get {V} (d : list (string * V)) (key : string) (default : V) : V :=
  match List.find (fun kv => String.eqb (fst kv) key) d with
  | Some kv => snd kv
  | None => default
  end.

(** [self.model_recommendations.get(error_type, {}).get(complexity, "deepseek-coder:1.3b")] *)
Definition recommend_model (error_type : ErrorType) (complexity : string) : string :=
  let by_complexity :=
    match List.find (fun kv => ErrorType_eqb (fst kv) error_type) model_recommendations with
    | Some kv => snd kv
    | None => []
    end in
  dict_get by_complexity complexity "deepseek-coder:1.3b".

Definition simple_indicators : list string :=
  [ "Missing semicolon"; "Unused variable"; "Prefer const";
    "Missing return type"; "Property does not exist" ].

Definition complex_indicators : list string :=
  [ "Type is not assignable"; "Cannot find name"; "Hook call";
    "Test failed"; "Cannot read property" ].

Definition advanced_indicators : list string :=
  [ "Generic type"; "Conditional type"; "Mapped type";
    "Complex union"; "Intersection type"; "Build failed" ].

(** [any(indicator.lower() in error_lower for indicator in indicators)] *)
Definition any_indicator (indicators : list string) (error_lower : string) : bool :=
  existsb (fun indicator => PyStr.contains (PyStr.lower indicator) error_lower) indicators.

(** [context.surrounding_code and len(context.surrounding_code) > 500] *)
Definition long_excerpt (context : ErrorContext) : bool :=
  match surrounding_code context with
  | Some excerpt => negb (PyStr.is_empty excerpt) && (500 <? String.length excerpt)%nat
  | None => false
  end.

Definition _determine_complexity (error_message : string) (context : ErrorContext) : string :=
  let error_lower := PyStr.lower error_message in
  if any_indicator advanced_indicators error_lower then "advanced"
  else if any_indicator complex_indicators error_lower then "complex"
  else if any_indicator simple_indicators error_lower then "simple"
  else if (200 <? String.length error_message)%nat || long_excerpt context then "complex"
  else "simple".

(** What [distribute_errors] computes for one error before it builds the
    job: type and severity, complexity, suggested model, priority score. *)
Record Routing : Type := {
  routed_type : ErrorType;
  routed_severity : ErrorSeverity;
  routed_complexity : string;
  routed_model : string;
  routed_priority : Q
}.

Definition route_error (error_message : string) (context : ErrorContext) : Routing :=
  let '(error_type, severity) := classify_error error_message context in
  let complexity := _determine_complexity error_message context in
  let suggested_model := recommend_model error_type complexity in
  let priority_score := calculate_priority_score error_type severity context in
  {| routed_type := error_type; routed_severity := severity;
     routed_complexity := complexity; routed_model := suggested_model;
     routed_priority := priority_score |}.

End ErrorRouting.

(** ** [src/parallel_executor.py]: [class TestSuiteBuilder] *)

Module TestSuiteBuilder.
Import Coordinator.

(** [s.split(sep)] for a non-empty [sep]: [skip] counts the characters of
    a separator just found that are still to be passed over, [cur] is the
    piece being read. *)
Fixpoint split_go (sep : string) (skip : nat) (cur : string) (s : string) : list string :=
  match s with
  | EmptyString => [cur]
  | String c s' =>
      match skip with
      | S k => split_go sep k cur s'
      | O =>
          if PyStr.startswith sep s
          then cur :: split_go sep (String.length sep - 1) EmptyString s'
          else split_go sep 0 (cur +:+ String c EmptyString) s'
      end
  end.

Definition split (sep s : string) : list string := split_go sep 0 EmptyString s.

(** [c.isspace()] *)
Definition is_space (c : ascii) : bool :=
  let n := nat_of_ascii c in
  ((9 <=? n) && (n <=? 13) || (28 <=? n) && (n <=? 32))%nat.

(** [not s.strip()] *)
Fixpoint is_blank (s : string) : bool :=
  match s with
  | EmptyString => true
  | String c s' => is_space c && is_blank s'
  end.

(** [sep.join(pieces)] *)
Fixpoint join (sep : string) (pieces : list string) : string :=
  match pieces with
  | [] => EmptyString
  | [x] => x
  | x :: rest => x +:+ sep +:+ join sep rest
  end.

(** [line[1:]] *)
Definition tail_of (line : string) : string :=
  match line with
  | EmptyString => EmptyString
  | String _ rest => rest
  end.

Definition newline : string := String (ascii_of_nat 10) EmptyString.

(** What the builder reads from outside: the files, the clock
    ([int(time.time())] at the construction of job [i]) and the timestamp
    [TestJob] gives itself. *)
Record World : Type := {
  read_file : string -> Exn + string;
  time_s : nat -> Z;
  created : nat -> string
}.

Section WithWorld.
Variable world : World.

Definition job_at (prefix : string) (i : nat) (code language test_type : string)
           (priority : Z) : TestJob :=
  {| id := prefix +:+ pretty i +:+ "-" +:+ pretty (time_s world i);
     code := code; language := language; test_type := test_type;
     priority := priority; retry_count := 0; max_retries := 3;
     created_at := created world i |}.

(** The loop of [from_file_list], from index [i] on: the jobs, and the
    warnings logged for the files that could not be read. *)
Fixpoint file_loop (i : nat) (file_paths : list string) (language test_type : string)
  : list TestJob * list string :=
  match file_paths with
  | [] => ([], [])
  | file_path :: rest =>
      let '(jobs, warnings) := file_loop (S i) rest language test_type in
      match read_file world file_path with
      | inr code => (job_at "file-" i code language test_type 1 :: jobs, warnings)
      | inl e =>
          (jobs, ("Failed to read file " +:+ file_path +:+ ": " +:+ exn_str e) :: warnings)
      end
  end.

Definition from_file_list (file_paths : list string) (language test_type : string)
  : list TestJob :=
  fst (file_loop 0 file_paths language test_type).

(** [[line[1:] for line in file_diff.split('\n')
      if line.startswith('+') and not line.startswith('+++')]] *)
Definition added_lines (file_diff : string) : list string :=
  List.map tail_of
    (List.filter (fun line => PyStr.startswith "+" line && negb (PyStr.startswith "+++" line))
                 (split newline file_diff)).

(** The loop of [from_git_diff] over [files[1:]], from index [i] on. *)
Fixpoint diff_loop (i : nat) (files : list string) (language test_type : string)
  : list TestJob :=
  match files with
  | [] => []
  | file_diff :: rest =>
      let jobs := diff_loop (S i) rest language test_type in
      if is_blank file_diff then jobs
      else
        match added_lines file_diff with
        | [] => jobs
        | lines => job_at "diff-" i (join newline lines) language test_type 2 :: jobs
        end
  end.

Definition from_git_diff (diff_content : string) (language test_type : string)
  : list TestJob :=
  diff_loop 0 (List.tail (split "diff --git" diff_content)) language test_type.

End WithWorld.

End TestSuiteBuilder.

(** ** [src/error_distributor.py]: [class ErrorDistributor]

    The queue, the metrics sink, the clock and [hash] are answers indexed
    by the number of calls made before, as for the coordinator. The log holds
    the lines written at the error and warning levels. *)

Module Distribution.
Import ErrorDistributor ErrorRouting.

(** An element of [errors]: the keys the loop reads; [None] for a key
    that is absent. *)
Record ErrorData : Type := {
  data_message : option string;
  data_file : option string;
  data_line : option Z;
  data_column : option Z;
  data_function : option string;
  data_class : option string;
  data_code_context : option string
}.

(** [@dataclass class ErrorJob] *)
Record ErrorJob : Type := {
  id : string;
  error_type : ErrorType;
  severity : ErrorSeverity;
  message : string;
  context : ErrorContext;
  suggested_model : string;
  priority_score : Q;
  retry_count : Z;
  max_retries : Z;
  created_at : string
}.

(** [@dataclass class ErrorFixResult] *)
Record ErrorFixResult : Type := {
  job_id : string;
  success : bool;
  fixed_code : option string;
  explanation : option string;
  confidence_score : Q;
  execution_time_ms : Z;
  model_used : string;
  error_message : option string;
  completed_at : string
}.

(** The distributor: its two job maps, and what it has sent to the queue,
    to the metrics sink and to the log. *)
Record State : Type := {
  active_jobs : gmap string ErrorJob;
  completed_jobs : gmap string ErrorFixResult;
  queue : list ErrorJob;
  metrics : list (string * Z);
  logged : list string;
  calls : nat
}.

Definition set_active_jobs (f : gmap string ErrorJob -> gmap string ErrorJob) (st : State)
  : State :=
  {| active_jobs := f (active_jobs st); completed_jobs := completed_jobs st;
     queue := queue st; metrics := metrics st; logged := logged st; calls := calls st |}.

Definition set_queue (f : list ErrorJob -> list ErrorJob) (st : State) : State :=
  {| active_jobs := active_jobs st; completed_jobs := completed_jobs st;
     queue := f (queue st); metrics := metrics st; logged := logged st; calls := calls st |}.

Definition set_metrics (f : list (string * Z) -> list (string * Z)) (st : State) : State :=
  {| active_jobs := active_jobs st; completed_jobs := completed_jobs st;
     queue := queue st; metrics := f (metrics st); logged := logged st; calls := calls st |}.

Definition set_logged (f : list string -> list string) (st : State) : State :=
  {| active_jobs := active_jobs st; completed_jobs := completed_jobs st;
     queue := queue st; metrics := metrics st; logged := f (logged st); calls := calls st |}.

Definition set_calls (f : nat -> nat) (st : State) : State :=
  {| active_jobs := active_jobs st; completed_jobs := completed_jobs st;
     queue := queue st; metrics := metrics st; logged := logged st; calls := f (calls st) |}.

(** A fresh distributor, as [__init__] leaves it. *)
Definition init : State :=
  {| active_jobs := ∅; completed_jobs := ∅; queue := []; metrics := []; logged := [];
     calls := 0 |}.

(** [time_s] is [int(time.time())], [hash] the builtin on strings. *)
Record Services : Type := {
  send_message : nat -> ErrorJob -> Coordinator.Exn + string;
  put_metric_data : nat -> string -> option Coordinator.Exn;
  time_s : nat -> Z;
  hash : string -> Z;
  now : nat -> string
}.

Definition log_line (line : string) (st : State) : State :=
  set_logged (fun l => l ++ [line]) st.

Section WithServices.
Variable services : Services.

(** Returns the exception it raises, if any. *)
Definition _send_metric (metric_name : string) (value : Z) (st : State)
  : option Coordinator.Exn * State :=
  let n := calls st in
  let st := set_calls S st in
  match put_metric_data services n metric_name with
  | None => (None, set_metrics (fun l => l ++ [(metric_name, value)]) st)
  | Some e =>
      if Coordinator.is_client_error e then
        (None, log_line ("Failed to send metric " +:+ metric_name +:+ ": "
                         +:+ Coordinator.exn_str e) st)
      else (Some e, st)
  end.

Definition _submit_error_job (job : ErrorJob) (st : State)
  : (Coordinator.Exn + string) * State :=
  let n := calls st in
  let st := set_calls S st in
  match send_message services n job with
  | inr message_id =>
      (inr message_id,
       set_active_jobs (fun m => <[id job := job]> m) (set_queue (fun q => q ++ [job]) st))
  | inl e =>
      (inl e,
       if Coordinator.is_client_error e then
         log_line ("Failed to submit error job " +:+ id job +:+ ": "
                   +:+ Coordinator.exn_str e) st
       else st)
  end.

Definition context_of_data (error_data : ErrorData) : ErrorContext :=
  {| file_path := default "" (data_file error_data);
     line_number := data_line error_data;
     column_number := data_column error_data;
     function_name := data_function error_data;
     class_name := data_class error_data;
     surrounding_code := data_code_context error_data |}.

(** [f"error-{int(time.time())}-{hash(error_data['message']) % 10000}"] *)
Definition job_id_of (n : nat) (error_message : string) : string :=
  "error-" +:+ pretty (time_s services n) +:+ "-"
  +:+ pretty (hash services error_message `mod` 10000)%Z.

(** The body of the loop of [distribute_errors]. Reading a message that
    is absent raises [KeyError('message')], whose text is ['message'] in
    quotes. *)
Definition distribute_one (error_data : ErrorData) (job_ids : list string) (st : State)
  : list string * State :=
  let context := context_of_data error_data in
  match data_message error_data with
  | None => (job_ids, log_line "Failed to distribute error: Unknown: 'message'" st)
  | Some error_message =>
      let routing := route_error error_message context in
      let job :=
        {| id := job_id_of (calls st) error_message;
           error_type := routed_type routing;
           severity := routed_severity routing;
           message := error_message;
           context := context;
           suggested_model := routed_model routing;
           priority_score := routed_priority routing;
           retry_count := 0;
           max_retries := 3;
           created_at := now services (S (calls st)) |} in
      match _submit_error_job job (set_calls (fun n => S (S n)) st) with
      | (inr job_id, st') => (job_ids ++ [job_id], st')
      | (inl e, st') =>
          (job_ids,
           log_line ("Failed to distribute error: " +:+ error_message +:+ ": "
                     +:+ Coordinator.exn_str e) st')
      end
  end.

Fixpoint distribute_loop (errors : list ErrorData) (job_ids : list string) (st : State)
  : list string * State :=
  match errors with
  | [] => (job_ids, st)
  | error_data :: rest =>
      let '(job_ids, st) := distribute_one error_data job_ids st in
      distribute_loop rest job_ids st
  end.

Definition distribute_errors (errors : list ErrorData) (st : State)
  : (Coordinator.Exn + list string) * State :=
  let '(job_ids, st) := distribute_loop errors [] st in
  match _send_metric "ErrorsDistributed" (Z.of_nat (length job_ids)) st with
  | (Some e, st') => (inl e, st')
  | (None, st') => (inr job_ids, st')
  end.

End WithServices.

(** [get_job_status] *)
Inductive JobStatus : Type :=
| completed (success : bool) (result : ErrorFixResult)
| processing (job : ErrorJob) (submitted_at : string)
| not_found (message : string).

Definition get_job_status (job_id : string) (st : State) : JobStatus :=
  match completed_jobs st !! job_id with
  | Some result => completed (success result) result
  | None =>
      match active_jobs st !! job_id with
      | Some job => processing job (created_at job)
      | None => not_found ("Job " +:+ job_id +:+ " not found")
      end
  end.

End Distribution.

(** ** [src/error_distributor.py]: [class ErrorAggregator]

    The averages and the rate are the exact quotients; the source forms
    them in binary floating point. *)

Module Aggregation.
Import ErrorDistributor.

(** A stored result, as [json.loads] returns it: the keys
    [aggregate_results] reads; [None] for a key that is absent. *)
Record ResultData : Type := {
  success : option bool;
  confidence_score : option Q;
  execution_time_ms : option Q;
  error_type : option string
}.

(** [get_object] followed by [json.loads], at call [n], for a key. *)
Definition Store : Type := nat -> string -> Coordinator.Exn + ResultData.

(** The loop over [job_ids], from call [n] on: the results retrieved and
    the warnings logged. *)
Fixpoint retrieve (store : Store) (n : nat) (job_ids : list string)
         (results : list ResultData) (warnings : list string)
  : Coordinator.Exn + (list ResultData * list string) :=
  match job_ids with
  | [] => inr (results, warnings)
  | job_id :: rest =>
      match store n ("error-fixes/" +:+ job_id +:+ ".json") with
      | inr result_data => retrieve store (S n) rest (results ++ [result_data]) warnings
      | inl e =>
          if Coordinator.is_client_error e then
            retrieve store (S n) rest results
              (warnings ++ [ "Could not retrieve result for job " +:+ job_id +:+ ": "
                             +:+ Coordinator.exn_str e ])
          else inl e
      end
  end.

(** [r.get('success', False)] *)
Definition succeeded (r : ResultData) : bool := default false (success r).

(** [sum(f(r) for r in results)] *)
Definition sum_of (f : ResultData -> Q) (results : list ResultData) : Q :=
  fold_left (fun acc r => acc + f r)%Q results 0%Q.

(** [sum(...) / len(results) if results else 0] *)
Definition average_of (f : ResultData -> Q) (results : list ResultData) : Q :=
  match results with
  | [] => 0%Q
  | _ => (sum_of f results / inject_Z (Z.of_nat (length results)))%Q
  end.

(** The loop that groups by error type: for every type the pair of
    ['total'] and ['successful']. *)
Definition error_type_stats (results : list ResultData) : gmap string (nat * nat) :=
  fold_left
    (fun stats result =>
       let error_type := default "unknown" (error_type result) in
       let '(total, successful) := default (0, 0)%nat (stats !! error_type) in
       <[error_type := (S total, if succeeded result then S successful else successful)]>
         stats)
    results ∅.

(** The dict [aggregate_results] returns. *)
Record Aggregate : Type := {
  total_jobs : Z;
  successful_fixes : Z;
  failed_fixes : Z;
  success_rate : Q;
  average_confidence : Q;
  average_execution_time_ms : Q;
  error_type_breakdown : gmap string (nat * nat);
  results : list ResultData
}.

Definition summarize (job_ids : list string) (results : list ResultData) : Aggregate :=
  let total_jobs := Z.of_nat (length job_ids) in
  let successful_fixes := Z.of_nat (length (List.filter succeeded results)) in
  let failed_fixes := (total_jobs - successful_fixes)%Z in
  let avg_confidence := average_of (fun r => default 0%Q (confidence_score r)) results in
  let avg_execution_time := average_of (fun r => default 0%Q (execution_time_ms r)) results in
  {| total_jobs := total_jobs;
     successful_fixes := successful_fixes;
     failed_fixes := failed_fixes;
     success_rate :=
       if (total_jobs >? 0)%Z
       then (inject_Z successful_fixes / inject_Z total_jobs * 100)%Q else 0%Q;
     average_confidence := round2 avg_confidence;
     average_execution_time_ms := round2 avg_execution_time;
     error_type_breakdown := error_type_stats results;
     results := results |}.

(** [aggregate_results], from call [n] on: the dict and the warnings, or
    the exception that is not caught. *)
Definition aggregate_results (store : Store) (n : nat) (job_ids : list string)
  : Coordinator.Exn + (Aggregate * list string) :=
  match retrieve store n job_ids [] [] with
  | inl e => inl e
  | inr (results, warnings) => inr (summarize job_ids results, warnings)
  end.

End Aggregation.

(** ** More vocabulary *)

Module Vocabulary.
Import ErrorDistributor Coordinator Executor Scenario ErrorRouting TestSuiteBuilder.

(** The size of a model, by its name: 1b, 1.3b, 6.7b, 33b; 0 for a name
    that is none of the four. *)
Definition model_rank (model : string) : nat :=
  if String.eqb model "llama3.2:1b" then 1
  else if String.eqb model "deepseek-coder:1.3b" then 2
  else if String.eqb model "deepseek-coder:6.7b" then 3
  else if String.eqb model "deepseek-coder:33b" then 4
  else 0.

(** Every result reported as completed was accepted by the store under its
    job id: it is in the log of the accepted writes. *)
Definition completed_were_written (st : State) : Prop :=
  forall job_id r,
    Coordinator.completed_jobs st !! job_id = Some r -> (job_id, r) ∈ bucket st.

(** The last of the [writes] made under [k]: what the store, which keeps
    one object per key, holds for the job under the key of that write (the
    key is made of the day of the write and the job id). *)
Fixpoint last_under (k : string) (writes : list (string * TestResult))
  : option TestResult :=
  match writes with
  | [] => None
  | (k', r) :: rest =>
      match last_under k rest with
      | Some r' => Some r'
      | None => if String.eqb k' k then Some r else None
      end
  end.

(** For every result reported as completed, the last write the store
    accepted under its job id is that result or a failed result. *)
Definition completed_or_failed_last (st : State) : Prop :=
  forall job_id r,
    Coordinator.completed_jobs st !! job_id = Some r ->
    exists r', last_under job_id (bucket st) = Some r'
               /\ (r' = r \/ success r' = false).

(** If [m] starts in a state that satisfies [P], its outcome and final
    state satisfy [Q]. *)
Definition hoare {A} (P : State -> Prop) (m : M A) (Q : Res A -> State -> Prop) : Prop :=
  forall st, P st -> Q (fst (m st)) (snd (m st)).

(** A builder world with two readable files and a fixed clock. *)
Definition two_files : World :=
  {| read_file := fun path =>
       if String.eqb path "a.js" then inr "function a() {}"
       else if String.eqb path "b.js" then inr "function b() {}"
       else inl (OtherError "No such file or directory");
     time_s := fun _ => 1700000000%Z;
     created := fun _ => "2025-01-01T00:00:00+00:00" |}.

(** The content of a file that can be read. *)
Definition readable (world : World) (file_path : string) : option string :=
  match read_file world file_path with
  | inr code => Some code
  | inl _ => None
  end.

(** The job is as the builder makes it for the given tier. *)
Definition built_for (p : Z) (language test_type : string) (job : TestJob) : Prop :=
  priority job = p /\ retry_count job = 0%Z /\ max_retries job = 3%Z
  /\ Coordinator.language job = language /\ Coordinator.test_type job = test_type.

(** A callback that raises on every call. *)
Definition raising_callback (e : Exn) : Callback := fun _ _ _ => Some e.

(** Every result recorded as completed reports success, under its own
    job id. *)
Definition completed_succeeded (st : State) : Prop :=
  forall k r,
    Coordinator.completed_jobs st !! k = Some r -> success r = true /\ job_id r = k.

(** The completed map holds successful results only, each of them accepted
    by the store and replaced there, if at all, by a failed result. *)
Definition records_sound (st : State) : Prop :=
  completed_were_written st /\ completed_succeeded st /\ completed_or_failed_last st.

(** The state in which [r] is recorded as the result of [k]. *)
Definition recorded (k : string) (r : TestResult) (st : State) : State :=
  set_completed_jobs (fun m => <[k := r]> m) st.

(** The result [_process_single_job] records for [job] when the delivery
    starts at service call [n]: the counts of [_generate_tests], stamped by
    its clock, with the time between the two readings of the clock. *)
Definition generated (env : Env) (job : TestJob) (n : nat) : TestResult :=
  {| job_id := id job; success := true; tests_generated := 2;
     tests_passed := 2; tests_failed := 0; coverage_percentage := 855 # 10;
     Coordinator.execution_time_ms := (clock_ms env (3 + n) - clock_ms env n)%Z;
     error_message := None; generated_tests := Some (mock_tests job);
     completed_at := now env (2 + n) |}.

(** The same as [quiet_env], with a queue that answers every request for
    its attributes with [e]. *)
Definition stats_outage_env (e : Exn) : Env :=
  {| send_message := send_message quiet_env;
     send_message_batch := send_message_batch quiet_env;
     delete_message := delete_message quiet_env;
     get_queue_attributes := fun _ => inl e;
     put_object := put_object quiet_env;
     put_metric_data := put_metric_data quiet_env;
     inference := inference quiet_env;
     clock_ms := clock_ms quiet_env;
     now := now quiet_env;
     completion_rank := completion_rank quiet_env;
     background := background quiet_env |}.

(** The same as [quiet_env], with a queue that refuses the deletion asked
    at service call [k]. *)
Definition delete_outage_env (k : nat) (e : Exn) : Env :=
  {| send_message := send_message quiet_env;
     send_message_batch := send_message_batch quiet_env;
     delete_message := fun n _ => if Nat.eqb n k then Some e else None;
     get_queue_attributes := get_queue_attributes quiet_env;
     put_object := put_object quiet_env;
     put_metric_data := put_metric_data quiet_env;
     inference := inference quiet_env;
     clock_ms := clock_ms quiet_env;
     now := now quiet_env;
     completion_rank := completion_rank quiet_env;
     background := background quiet_env |}.

(** The text of the timeout raised by the wait for [job_id]. *)
Definition timeout_text (job_id : string) (timeout : Z) : string :=
  "Job " +:+ job_id +:+ " did not complete within " +:+ pretty timeout +:+ " seconds".

(** The error has a message to classify. *)
Definition has_message (error_data : Distribution.ErrorData) : bool :=
  match Distribution.data_message error_data with Some _ => true | None => false end.

(** The text is an id the queue has given to a message. *)
Definition queue_message_id (services : Distribution.Services) (text : string) : Prop :=
  exists n job, Distribution.send_message services n job = inr text.

(** An error with the given message, in the given file. *)
Definition error_in (path error_message : string) : Distribution.ErrorData :=
  {| Distribution.data_message := Some error_message;
     Distribution.data_file := Some path;
     Distribution.data_line := None; Distribution.data_column := None;
     Distribution.data_function := None; Distribution.data_class := None;
     Distribution.data_code_context := None |}.

(** A queue that accepts every message and names it by the number of the
    call, a metrics sink that accepts, a clock that stands still. *)
Definition quiet_services : Distribution.Services :=
  {| Distribution.send_message := fun n _ => inr ("msg-" +:+ pretty n);
     Distribution.put_metric_data := fun _ _ => None;
     Distribution.time_s := fun _ => 1700000000%Z;
     Distribution.hash := fun s => Z.of_nat (String.length s);
     Distribution.now := fun _ => "2025-01-01T00:00:00+00:00" |}.

(** The stored result is filed under the error type [t]; a result
    without a type is filed under [unknown]. *)
Definition of_type (t : string) (r : Aggregation.ResultData) : bool :=
  String.eqb (default "unknown" (Aggregation.error_type r)) t.

(** A stored result with its success flag and its error type. *)
Definition fix_of (ok : bool) (t : string) : Aggregation.ResultData :=
  {| Aggregation.success := Some ok; Aggregation.confidence_score := Some (9 # 10);
     Aggregation.execution_time_ms := Some 1200%Q; Aggregation.error_type := Some t |}.

(** A store that holds a successful fix for [job-a] and nothing else. *)
Definition one_fix_store : Aggregation.Store :=
  fun _ key =>
    if String.eqb key "error-fixes/job-a.json" then inr (fix_of true "typescript")
    else inl (ClientError "NoSuchKey").

(** The same as [quiet_env], with a queue that answers every batch by
    listing one id as successful, [job-9], whatever it was sent. *)
Definition stray_id_env : Env :=
  {| send_message := send_message quiet_env;
     send_message_batch := fun _ _ =>
       inr {| Successful := [ ("job-9", "msg-9") ]; Failed := [] |};
     delete_message := delete_message quiet_env;
     get_queue_attributes := get_queue_attributes quiet_env;
     put_object := put_object quiet_env;
     put_metric_data := put_metric_data quiet_env;
     inference := inference quiet_env;
     clock_ms := clock_ms quiet_env;
     now := now quiet_env;
     completion_rank := completion_rank quiet_env;
     background := background quiet_env |}.

End Vocabulary.

(** * Properties *)

Import ErrorDistributor Coordinator Executor Scenario.
Import ErrorRouting TestSuiteBuilder Vocabulary.

(** ** The error classifier *)

Section Classifier.
Local Open Scope Q_scope.

Lemma round2_hundredths (z : Z) : round2 (z # 100) == z # 100.
Proof.
  unfold round2, round_half_even.
  assert (E : ((z # 100) * 100 == inject_Z z)%Q).
  { unfold Qeq, Qmult, inject_Z. simpl. lia. }
  assert (F : Qfloor ((z # 100) * 100) = z).
  { rewrite (Qfloor_comp _ _ E). apply Qfloor_Z. }
  rewrite F.
  assert (D : ((z # 100) * 100 - inject_Z z == 0)%Q) by (rewrite E; ring).
  destruct (Qcompare_spec ((z # 100) * 100 - inject_Z z) (1 # 2)) as [H|H|H].
  - rewrite D in H. discriminate H.
  - reflexivity.
  - rewrite D in H. discriminate H.
Qed.

Lemma priority_score_unfold (error_type : ErrorType) (severity : ErrorSeverity)
      (context : ErrorContext) :
  calculate_priority_score error_type severity context =
  round2 (if on_critical_path context
          then (10 - inject_Z (severity_value severity)) * type_multiplier error_type * (12 # 10)
          else (10 - inject_Z (severity_value severity)) * type_multiplier error_type).
Proof.
  unfold calculate_priority_score. destruct (on_critical_path context); reflexivity.
Qed.

(** C1, as the code has it: for every error type, severity and context the
    score is [(10 - severity_ordinal)] times the weight of the type
    (type-system 1.2, build 1.3, lint 0.8), times 1.2 when the file path is
    not empty and its lower-cased form contains a critical-path substring
    (times 1 otherwise), rounded to two decimals; the rounding changes
    nothing, and critical severity scores highest for a given type and
    context. *)
Theorem C1_priority_score_formula (error_type : ErrorType) (severity : ErrorSeverity)
        (context : ErrorContext) :
  let boost := if on_critical_path context then 12 # 10 else 1 in
  let exact := (10 - inject_Z (severity_value severity)) * type_multiplier error_type * boost in
  calculate_priority_score error_type severity context == round2 exact
  /\ calculate_priority_score error_type severity context == exact
  /\ (type_multiplier TYPESCRIPT == 12 # 10
      /\ type_multiplier BUILD == 13 # 10
      /\ type_multiplier LINT == 8 # 10)
  /\ calculate_priority_score error_type severity context
      <= calculate_priority_score error_type CRITICAL context.
Proof.
  cbv zeta. rewrite !priority_score_unfold.
  destruct (on_critical_path context), error_type, severity;
    (split; [ vm_compute; reflexivity
            | split; [ vm_compute; reflexivity
                     | split; [ repeat split; vm_compute; reflexivity
                              | vm_compute; discriminate ] ] ]).
Qed.

(** C1 as worded fails: for a critical type-system error in [src/app.ts]
    the code returns 12.96, the worded formula 5.76. *)
Lemma C1_worded_base_differs :
  calculate_priority_score TYPESCRIPT CRITICAL (context_of "src/app.ts") == 1296 # 100
  /\ worded_priority_score TYPESCRIPT CRITICAL (context_of "src/app.ts") == 576 # 100
  /\ ~ (calculate_priority_score TYPESCRIPT CRITICAL (context_of "src/app.ts")
        == worded_priority_score TYPESCRIPT CRITICAL (context_of "src/app.ts")).
Proof.
  split; [ vm_compute; reflexivity | split; [ vm_compute; reflexivity | ] ].
  vm_compute. discriminate.
Qed.

Lemma patterns_of_listed (t : ErrorType) (ps : list string) :
  In (t, ps) error_patterns -> patterns_of t = ps.
Proof.
  unfold error_patterns. simpl.
  intros H. repeat (destruct H as [H|H]; [ inversion H; subst; reflexivity | ]).
  destruct H.
Qed.

(** C4: for every message and context the type is decided by the ordered
    rules: a [ts] or [tsx] extension with a type-system match gives the
    type-system type whatever else matches; else a test or spec path with a
    test match gives the test type; else the first type, in the order of
    the table, whose patterns match; else general. *)
Theorem C4_classification_order (error_message : string) (context : ErrorContext) :
  _classify_error_type error_message context
  = first_match (worded_rules error_message context).
Proof.
  unfold _classify_error_type, worded_rules.
  cbn [first_match].
  destruct ((String.eqb (file_ext context) "ts" || String.eqb (file_ext context) "tsx")
            && any_search (patterns_of TYPESCRIPT) error_message); [ reflexivity | ].
  destruct ((PyStr.contains "test" (PyStr.lower (file_path context))
             || PyStr.contains "spec" (PyStr.lower (file_path context)))
            && any_search (patterns_of TEST) error_message); [ reflexivity | ].
  unfold error_patterns. cbn [scan_patterns].
  repeat match goal with
         | |- context [any_search ?ps error_message] =>
             match ps with
             | patterns_of _ => fail 1
             | _ => first
                 [ replace ps with (patterns_of TYPESCRIPT) by reflexivity
                 | replace ps with (patterns_of REACT) by reflexivity
                 | replace ps with (patterns_of TEST) by reflexivity
                 | replace ps with (patterns_of LINT) by reflexivity
                 | replace ps with (patterns_of BUILD) by reflexivity
                 | replace ps with (patterns_of RUNTIME) by reflexivity
                 | replace ps with (patterns_of DEPENDENCY) by reflexivity ]
             end
         end.
  repeat match goal with
         | |- context [any_search (patterns_of ?t) error_message] =>
             destruct (any_search (patterns_of t) error_message); try reflexivity
         end.
Qed.

(** The scenario of the specification: a [TS2345] message in [src/app.ts]
    is a critical type-system error; and the order decides: a message that
    matches test and runtime patterns is a type-system error in a [.ts]
    test file when it also matches a type-system pattern, a test error in a
    [.js] test file, and a test error still outside test files, where the
    table lists the test patterns before the runtime ones. *)
Example classify_ts_scenario :
  classify_error "TS2345: Argument of type 'string' is not assignable"
                 (context_of "src/app.ts")
  = (TYPESCRIPT, CRITICAL)
  /\ _classify_error_type "TS2304: Cannot find name 'expect'. ReferenceError: expect"
                          (context_of "src/app.test.ts") = TYPESCRIPT
  /\ _classify_error_type "ReferenceError: expect is not defined"
                          (context_of "src/app.test.js") = TEST
  /\ _classify_error_type "ReferenceError: expect is not defined"
                          (context_of "src/app.js") = TEST
  /\ _classify_error_type "TypeError: x is undefined" (context_of "src/app.js") = RUNTIME
  /\ _classify_error_type "nothing to see" (context_of "src/app.js") = GENERAL.
Proof. repeat split; vm_compute; reflexivity. Qed.

End Classifier.

(** ** Reasoning about coordinator code *)

Section Triples.
Local Open Scope coord_scope.
Context {A B : Type}.
Variable P : State -> Prop.

Lemma preserves_ret (a : A) : preserves P (ret a).
Proof. intros st H. exact H. Qed.

Lemma preserves_raise (e : Exn) : preserves P (@raise A e).
Proof. intros st H. exact H. Qed.

Lemma preserves_blocked : preserves P (@blocked A).
Proof. intros st H. exact H. Qed.

Lemma preserves_get : preserves P get.
Proof. intros st H. exact H. Qed.

Lemma preserves_call :
  (forall st, P st -> P (set_calls S st)) -> preserves P call.
Proof. intros Hf st H. apply Hf, H. Qed.

Lemma preserves_modify (f : State -> State) :
  (forall st, P st -> P (f st)) -> preserves P (modify f).
Proof. intros Hf st H. apply Hf, H. Qed.

Lemma preserves_bind (m : M A) (k : A -> M B) :
  preserves P m -> (forall a, preserves P (k a)) -> preserves P (bind m k).
Proof.
  intros Hm Hk st H. unfold bind.
  specialize (Hm st H). destruct (m st) as [[a|e|] st']; cbn in *; auto.
  apply Hk, Hm.
Qed.

Lemma preserves_try_except (m : M A) (h : Exn -> M A) :
  preserves P m -> (forall e, preserves P (h e)) -> preserves P (try_except m h).
Proof.
  intros Hm Hh st H. unfold try_except.
  specialize (Hm st H). destruct (m st) as [[a|e|] st']; cbn in *; auto.
  apply Hh, Hm.
Qed.

Lemma preserves_try_except_client (m : M A) (h : Exn -> M A) :
  preserves P m -> (forall e, preserves P (h e)) -> preserves P (try_except_client m h).
Proof.
  intros Hm Hh. apply preserves_try_except; [ exact Hm | ].
  intros e. destruct (is_client_error e); [ apply Hh | apply preserves_raise ].
Qed.

Lemma preserves_bind_yields (m : M A) (k : A -> M B) (post : A -> Prop) :
  preserves P m -> yields m post -> (forall a, post a -> preserves P (k a)) ->
  preserves P (bind m k).
Proof.
  intros Hm Hy Hk st H. unfold bind.
  specialize (Hm st H). specialize (Hy st).
  destruct (m st) as [[a|e|] st']; cbn in *; auto.
  apply Hk; [ apply Hy; reflexivity | exact Hm ].
Qed.

End Triples.

Lemma bind_ret {A B} (a : A) (k : A -> M B) : bind (ret a) k = k a.
Proof. reflexivity. Qed.

Lemma bind_raise {A B} (e : Exn) (k : A -> M B) : bind (raise e) k = raise e.
Proof. reflexivity. Qed.

Lemma bind_ok {A B} (m : M A) (k : A -> M B) (st st' : State) (a : A) :
  m st = (Ok a, st') -> bind m k st = k a st'.
Proof. intros H. unfold bind. rewrite H. reflexivity. Qed.

Lemma bind_raised {A B} (m : M A) (k : A -> M B) (st st' : State) (e : Exn) :
  m st = (Raise e, st') -> bind m k st = (Raise e, st').
Proof. intros H. unfold bind. rewrite H. reflexivity. Qed.

Lemma try_client_ok {A} (m : M A) (h : Exn -> M A) (st st' : State) (a : A) :
  m st = (Ok a, st') -> try_except_client m h st = (Ok a, st').
Proof. intros H. unfold try_except_client, try_except. rewrite H. reflexivity. Qed.

Lemma try_client_raised {A} (m : M A) (h : Exn -> M A) (st st' : State) (e : Exn) :
  m st = (Raise e, st') ->
  try_except_client m h st = (if is_client_error e then h e else raise e) st'.
Proof. intros H. unfold try_except_client, try_except. rewrite H. reflexivity. Qed.

Ltac frame_step :=
  match goal with
  | |- preserves _ (bind _ _) => apply preserves_bind; [ | intros ? ]
  | |- preserves _ (try_except_client _ _) => apply preserves_try_except_client; [ | intros ? ]
  | |- preserves _ (try_except _ _) => apply preserves_try_except; [ | intros ? ]
  | |- preserves _ (ret _) => apply preserves_ret
  | |- preserves _ (raise _) => apply preserves_raise
  | |- preserves _ blocked => apply preserves_blocked
  | |- preserves _ get => apply preserves_get
  | |- preserves _ call => apply preserves_call; intros ? ?
  | |- preserves _ (modify _) => apply preserves_modify; intros ? ?
  | |- preserves _ (log_line _) => apply preserves_modify; intros ? ?
  | |- preserves _ (match ?x with _ => _ end) => destruct x
  end.

Ltac frame := repeat frame_step.

(** Case analysis on the next answer of a service. *)
Ltac oracle_case :=
  match goal with
  | |- context [put_metric_data ?e ?n ?m] => destruct (put_metric_data e n m) as [[]|]
  | |- context [delete_message ?e ?n ?h] => destruct (delete_message e n h) as [[]|]
  | |- context [put_object ?e ?n ?k ?r] => destruct (put_object e n k r) as [[]|]
  | |- context [send_message ?e ?n ?j] => destruct (send_message e n j) as [[]|]
  | |- context [inference ?e ?n ?j] => destruct (inference e n j) as [[]|]
  end.

Ltac oracle_cases := repeat (cbn; oracle_case); cbn.

(** ** The coordinator *)

Section CoordinatorFacts.
Local Open Scope coord_scope.
Variable env : Env.

Lemma store_results_keeps_maps (st0 : State) (job_id : string) (r : TestResult) :
  preserves (maps_as_in st0) (_store_results env job_id r).
Proof. unfold _store_results, s3_put_object. frame; assumption. Qed.

Lemma send_metric_keeps_maps (st0 : State) (name : string) (v : Z) :
  preserves (maps_as_in st0) (_send_metric env name v).
Proof. unfold _send_metric. frame; assumption. Qed.

Lemma delete_message_keeps_maps (st0 : State) (h : nat) :
  preserves (maps_as_in st0) (sqs_delete_message env h).
Proof. unfold sqs_delete_message. frame; assumption. Qed.

Lemma failure_result_keeps_maps (st0 : State) (job_id : string) (e : Exn) :
  preserves (maps_as_in st0) (failure_result env job_id e).
Proof. unfold failure_result, timestamp. frame; assumption. Qed.

Lemma handle_retry_exhausted_maps (message : Message) (job : TestJob) (e : Exn) (st : State) :
  Body message = Some job -> exhausted job ->
  maps_as_in st (snd (handle_retry env message e st)).
Proof.
  intros HB Hex. unfold exhausted in Hex.
  assert (H : preserves (maps_as_in st) (handle_retry env message e)).
  { unfold handle_retry, parse_job. rewrite HB, bind_ret.
    destruct (Z.ltb_spec (retry_count job) (max_retries job)) as [Hlt|_]; [ lia | ].
    apply preserves_bind; [ | intros _; apply delete_message_keeps_maps ].
    apply preserves_bind; [ apply failure_result_keeps_maps | intros failure ].
    apply preserves_bind; [ apply store_results_keeps_maps | intros _ ].
    apply preserves_bind; [ frame; assumption | intros _ ].
    apply send_metric_keeps_maps. }
  apply H. split; reflexivity.
Qed.

Lemma handle_retry_exhausted_bucket (message : Message) (job : TestJob) (e : Exn) (st : State) :
  Body message = Some job -> exhausted job ->
  let failure := terminal_failure job e (now env (calls st)) in
  put_object env (S (calls st)) (id job) failure = None ->
  bucket (snd (handle_retry env message e st)) = bucket st ++ [(id job, failure)].
Proof.
  intros HB Hex failure Hput. unfold exhausted in Hex.
  unfold handle_retry, parse_job. rewrite HB, bind_ret.
  destruct (Z.ltb_spec (retry_count job) (max_retries job)) as [Hlt|_]; [ lia | ].
  cbv [bind ret raise get modify call log_line try_except try_except_client
       timestamp failure_result _store_results s3_put_object _send_metric
       sqs_delete_message is_client_error].
  unfold failure, terminal_failure in Hput. cbn [calls set_calls].
  rewrite Hput.
  oracle_cases; reflexivity.
Qed.

(** *** What the consumer adds to the queue *)

Section QueueGrowth.
Variable good : TestJob -> Prop.
Variable st0 : State.

Ltac queue_frame := frame; try (unfold queue_grows_by in *; cbn in *; assumption).

Lemma enqueue_grows (job : TestJob) :
  good job -> preserves (queue_grows_by good st0) (enqueue job).
Proof.
  intros Hg. unfold enqueue. frame.
  unfold queue_grows_by in *. cbn. intros m Hm.
  apply elem_of_app in Hm as [Hm|Hm]; [ auto | ].
  apply list_elem_of_singleton in Hm. subst m. right. exists job. auto.
Qed.

Lemma send_metric_queue (name : string) (v : Z) :
  preserves (queue_grows_by good st0) (_send_metric env name v).
Proof. unfold _send_metric. queue_frame. Qed.

Lemma submit_test_job_grows (job : TestJob) :
  good job -> preserves (queue_grows_by good st0) (submit_test_job env job).
Proof.
  intros Hg. unfold submit_test_job, sqs_send_message.
  apply preserves_try_except_client; [ | intros e; queue_frame ].
  apply preserves_bind; [ | intros mid ].
  - apply preserves_bind; [ queue_frame | intros n ].
    destruct (send_message env n job); [ queue_frame | ].
    apply preserves_bind; [ apply enqueue_grows, Hg | intros _; queue_frame ].
  - apply preserves_bind; [ queue_frame | intros _ ].
    apply preserves_bind; [ apply send_metric_queue | intros _; queue_frame ].
Qed.

Lemma delete_message_queue (h : nat) :
  preserves (queue_grows_by good st0) (sqs_delete_message env h).
Proof.
  unfold sqs_delete_message.
  apply preserves_bind; [ queue_frame | intros n ].
  destruct (delete_message env n h); [ queue_frame | ].
  apply preserves_modify. intros st H m Hm. cbn in Hm.
  apply list_elem_of_In, filter_In in Hm as [Hm _].
  apply H, list_elem_of_In, Hm.
Qed.

Lemma store_results_queue (job_id : string) (r : TestResult) :
  preserves (queue_grows_by good st0) (_store_results env job_id r).
Proof. unfold _store_results, s3_put_object. queue_frame. Qed.

Lemma failure_result_queue (job_id : string) (e : Exn) :
  preserves (queue_grows_by good st0) (failure_result env job_id e).
Proof. unfold failure_result, timestamp. queue_frame. Qed.

Lemma generate_tests_queue (job : TestJob) :
  preserves (queue_grows_by good st0) (_generate_tests env job).
Proof. unfold _generate_tests, timestamp. queue_frame. Qed.

Lemma process_body_queue (message : Message) :
  preserves (queue_grows_by good st0) (process_body env message).
Proof.
  unfold process_body, parse_job.
  apply preserves_bind; [ queue_frame | intros job ].
  apply preserves_bind; [ queue_frame | intros t0 ].
  apply preserves_bind; [ apply generate_tests_queue | intros r ].
  apply preserves_bind; [ queue_frame | intros t1 ].
  apply preserves_bind; [ apply store_results_queue | intros _ ].
  apply preserves_bind; [ queue_frame | intros _ ].
  apply preserves_bind; [ queue_frame | intros _ ].
  apply preserves_bind; [ apply delete_message_queue | intros _ ].
  apply preserves_bind; [ apply send_metric_queue | intros _ ].
  apply send_metric_queue.
Qed.

Lemma handle_retry_grows (message : Message) (e : Exn) :
  (forall job, Body message = Some job ->
               (retry_count job < max_retries job)%Z ->
               good (with_retry_count (retry_count job + 1) job)) ->
  preserves (queue_grows_by good st0) (handle_retry env message e).
Proof.
  intros Hg. unfold handle_retry, parse_job.
  destruct (Body message) as [job|];
    [ rewrite bind_ret | rewrite !bind_raise; apply preserves_raise ].
  apply preserves_bind; [ | intros _; apply delete_message_queue ].
  destruct (Z.ltb_spec (retry_count job) (max_retries job)) as [Hlt|_].
  - apply preserves_bind; [ | intros _; queue_frame ].
    apply submit_test_job_grows, Hg; [ reflexivity | exact Hlt ].
  - apply preserves_bind; [ apply failure_result_queue | intros failure ].
    apply preserves_bind; [ apply store_results_queue | intros _ ].
    apply preserves_bind; [ queue_frame | intros _ ].
    apply send_metric_queue.
Qed.

Lemma process_single_job_grows (message : Message) :
  (forall job, Body message = Some job ->
               (retry_count job < max_retries job)%Z ->
               good (with_retry_count (retry_count job + 1) job)) ->
  preserves (queue_grows_by good st0) (_process_single_job env message).
Proof.
  intros Hg. unfold _process_single_job.
  apply preserves_try_except; [ apply process_body_queue | intros e ].
  apply preserves_bind; [ queue_frame | intros _ ].
  apply preserves_try_except; [ apply handle_retry_grows, Hg | intros e'; queue_frame ].
Qed.

End QueueGrowth.

(** *** What the consumer adds to the bucket *)

Section BucketGrowth.
Variable st0 : State.

Ltac bucket_frame := frame; try (unfold bucket_grows_by in *; cbn in *; assumption).

Lemma store_results_grows (job_id : string) (r : TestResult) :
  accounted r -> preserves (bucket_grows_by accounted st0) (_store_results env job_id r).
Proof.
  intros Hg. unfold _store_results, s3_put_object.
  apply preserves_try_except_client; [ | intros e; bucket_frame ].
  apply preserves_bind; [ bucket_frame | intros n ].
  destruct (put_object env n job_id r); [ bucket_frame | ].
  apply preserves_modify. intros st H k r' Hm. cbn in Hm.
  apply elem_of_app in Hm as [Hm|Hm]; [ apply H, Hm | ].
  apply list_elem_of_singleton in Hm. inversion Hm; subst. right. exact Hg.
Qed.

Lemma send_metric_bucket (name : string) (v : Z) :
  preserves (bucket_grows_by accounted st0) (_send_metric env name v).
Proof. unfold _send_metric. bucket_frame. Qed.

Lemma delete_message_bucket (h : nat) :
  preserves (bucket_grows_by accounted st0) (sqs_delete_message env h).
Proof. unfold sqs_delete_message. bucket_frame. Qed.

Lemma enqueue_bucket (job : TestJob) :
  preserves (bucket_grows_by accounted st0) (enqueue job).
Proof. unfold enqueue. bucket_frame. Qed.

Lemma submit_test_job_bucket (job : TestJob) :
  preserves (bucket_grows_by accounted st0) (submit_test_job env job).
Proof.
  unfold submit_test_job, sqs_send_message.
  apply preserves_try_except_client; [ | intros e; bucket_frame ].
  apply preserves_bind; [ | intros mid ].
  - apply preserves_bind; [ bucket_frame | intros n ].
    destruct (send_message env n job); [ bucket_frame | ].
    apply preserves_bind; [ apply enqueue_bucket | intros _; bucket_frame ].
  - apply preserves_bind; [ bucket_frame | intros _ ].
    apply preserves_bind; [ apply send_metric_bucket | intros _; bucket_frame ].
Qed.

Lemma generate_tests_bucket (job : TestJob) :
  preserves (bucket_grows_by accounted st0) (_generate_tests env job).
Proof. unfold _generate_tests, timestamp. bucket_frame. Qed.

Lemma generate_tests_succeeds (job : TestJob) :
  yields (_generate_tests env job) (fun r => success r = true).
Proof.
  intros st r. unfold _generate_tests, timestamp, bind, call, ret, raise.
  destruct (inference env (calls st) job); cbn; intros H; inversion H; reflexivity.
Qed.

Lemma failure_result_bucket (job_id : string) (e : Exn) :
  preserves (bucket_grows_by accounted st0) (failure_result env job_id e).
Proof. unfold failure_result, timestamp. bucket_frame. Qed.

Lemma failure_result_says_why (job_id : string) (e : Exn) :
  yields (failure_result env job_id e)
         (fun r => success r = false /\ error_message r = Some (exn_str e)).
Proof. intros st r H. cbn in H. inversion H. split; reflexivity. Qed.

Lemma process_body_bucket (message : Message) :
  preserves (bucket_grows_by accounted st0) (process_body env message).
Proof.
  unfold process_body, parse_job.
  apply preserves_bind; [ bucket_frame | intros job ].
  apply preserves_bind; [ bucket_frame | intros t0 ].
  apply (preserves_bind_yields _ _ _ (fun r => success r = true));
    [ apply generate_tests_bucket | apply generate_tests_succeeds | intros r Hr ].
  apply preserves_bind; [ bucket_frame | intros t1 ].
  apply preserves_bind; [ apply store_results_grows; left; exact Hr | intros _ ].
  apply preserves_bind; [ bucket_frame | intros _ ].
  apply preserves_bind; [ bucket_frame | intros _ ].
  apply preserves_bind; [ apply delete_message_bucket | intros _ ].
  apply preserves_bind; [ apply send_metric_bucket | intros _ ].
  apply send_metric_bucket.
Qed.

Lemma handle_retry_bucket (message : Message) (e : Exn) :
  preserves (bucket_grows_by accounted st0) (handle_retry env message e).
Proof.
  unfold handle_retry, parse_job.
  destruct (Body message) as [job|];
    [ rewrite bind_ret | rewrite !bind_raise; apply preserves_raise ].
  apply preserves_bind; [ | intros _; apply delete_message_bucket ].
  destruct (retry_count job <? max_retries job)%Z.
  - apply preserves_bind; [ apply submit_test_job_bucket | intros _; bucket_frame ].
  - apply (preserves_bind_yields _ _ _
             (fun r => success r = false /\ error_message r = Some (exn_str e)));
      [ apply failure_result_bucket | apply failure_result_says_why | intros r [_ Hr] ].
    apply preserves_bind;
      [ apply store_results_grows; right; eexists; exact Hr | intros _ ].
    apply preserves_bind; [ bucket_frame | intros _ ].
    apply send_metric_bucket.
Qed.

Lemma process_single_job_bucket (message : Message) :
  preserves (bucket_grows_by accounted st0) (_process_single_job env message).
Proof.
  unfold _process_single_job.
  apply preserves_try_except; [ apply process_body_bucket | intros e ].
  apply preserves_bind; [ bucket_frame | intros _ ].
  apply preserves_try_except; [ apply handle_retry_bucket | intros e'; bucket_frame ].
Qed.

End BucketGrowth.

Lemma consume_preserves (P : State -> Prop) :
  (forall message, preserves P (_process_single_job env message)) ->
  forall schedule, preserves P (consume env schedule).
Proof.
  intros Hstep schedule. induction schedule as [|k rest IH]; cbn [consume].
  - apply preserves_ret.
  - apply preserves_bind; [ | intros _; exact IH ].
    unfold deliver. intros st H. unfold bind, get.
    destruct (queue st !! k); [ apply Hstep, H | exact H ].
Qed.

Lemma budget_after_retry (job : TestJob) :
  (retry_count job < max_retries job)%Z ->
  within_budget (with_retry_count (retry_count job + 1) job).
Proof. unfold within_budget. cbn. lia. Qed.

(** C3, as the code has it: the job a delivery puts back on the queue is
    the delivered job with [retry_count] one higher, still within
    [max_retries]; over every run of the consumer the messages it adds stay
    within budget, and every result it writes has [success = true] or an
    [error_message], the text of the exception, which can be empty. *)
Theorem C3_retry_budget_and_accounted_results :
  (forall (job : TestJob) (handle : nat) (st : State),
      queue_grows_by
        (fun j => j = with_retry_count (retry_count job + 1) job
                  /\ (retry_count job < retry_count j <= max_retries j)%Z)
        st
        (snd (_process_single_job env {| Body := Some job; ReceiptHandle := handle |} st)))
  /\ (forall (schedule : list nat) (st : State),
         queue_grows_by within_budget st (snd (consume env schedule st))
         /\ bucket_grows_by accounted st (snd (consume env schedule st))).
Proof.
  split.
  - intros job handle st. apply process_single_job_grows.
    + intros j Hj Hlt. cbn in Hj. inversion Hj; subst j.
      split; [ reflexivity | cbn; lia ].
    + intros m Hm. left. exact Hm.
  - intros schedule st. split.
    + apply consume_preserves.
      * intros message. apply process_single_job_grows.
        intros j _ Hlt. apply budget_after_retry, Hlt.
      * intros m Hm. left. exact Hm.
    + apply consume_preserves.
      * intros message. apply process_single_job_bucket.
      * intros k r Hm. left. exact Hm.
Qed.

(** *** A delivery that fails, whatever made it fail *)

Section FailingDeliveries.

Ltac unfold_coordinator :=
  cbv [_process_single_job process_body handle_retry submit_test_job
       sqs_send_message enqueue _generate_tests _store_results s3_put_object
       _send_metric sqs_delete_message failure_result timestamp parse_job
       bind ret raise blocked get modify call log_line try_except
       try_except_client is_client_error Body ReceiptHandle].

Lemma filter_twice {A} (f : A -> bool) (l : list A) :
  List.filter f (List.filter f l) = List.filter f l.
Proof.
  induction l as [|x l IH]; [ reflexivity | ].
  cbn [List.filter]. destruct (f x) eqn:E; cbn [List.filter]; rewrite ?E, IH; reflexivity.
Qed.

Lemma process_body_leaves (message : Message) (st : State) :
  left_by_try (ReceiptHandle message) st (snd (process_body env message st)).
Proof.
  assert (H : preserves (left_by_try (ReceiptHandle message) st) (process_body env message)).
  { unfold process_body, parse_job.
    apply preserves_bind; [ frame; assumption | intros job ].
    apply preserves_bind; [ frame; assumption | intros t0 ].
    apply (preserves_bind_yields _ _ _ (fun r => success r = true));
      [ unfold _generate_tests, timestamp; frame; assumption
      | apply generate_tests_succeeds | intros r Hr ].
    apply preserves_bind; [ frame; assumption | intros t1 ].
    apply preserves_bind; [ | intros _ ].
    { unfold _store_results, s3_put_object.
      apply preserves_try_except_client; [ | intros e; frame; assumption ].
      apply preserves_bind; [ frame; assumption | intros n ].
      destruct (put_object env n (id job) _); [ frame; assumption | ].
      apply preserves_modify. intros s (Hn & Hq & Hw).
      split; [ exact Hn | ]. split; [ exact Hq | ].
      unfold failed_writes in *. cbn [bucket set_bucket].
      rewrite List.filter_app, Hw. cbn [List.filter snd success with_execution_time].
      rewrite Hr. cbn [negb]. apply app_nil_r. }
    apply preserves_bind; [ frame; assumption | intros _ ].
    apply preserves_bind; [ frame; assumption | intros _ ].
    apply preserves_bind; [ | intros _ ].
    { unfold sqs_delete_message.
      apply preserves_bind; [ frame; assumption | intros n ].
      destruct (delete_message env n (ReceiptHandle message)); [ frame; assumption | ].
      apply preserves_modify. intros s (Hn & Hq & Hw).
      split; [ exact Hn | ]. split; [ | exact Hw ].
      cbn [queue set_queue]. rewrite filter_twice. exact Hq. }
    apply preserves_bind; [ unfold _send_metric; frame; assumption | intros _ ].
    unfold _send_metric. frame; assumption. }
  apply H. repeat split.
Qed.

Lemma submit_returned (job : TestJob) (st : State) (message_id : string) :
  fst (submit_test_job env job st) = Ok message_id ->
  let st' := snd (submit_test_job env job st) in
  queue st' = queue st ++ [ {| Body := Some job; ReceiptHandle := next_handle st |} ]
  /\ next_handle st' = S (next_handle st)
  /\ bucket st' = bucket st.
Proof.
  cbv zeta. unfold_coordinator. oracle_cases; intros H; try discriminate H; repeat split.
Qed.

(** The retry logic, when it runs to its end. *)
Lemma served_retry_requeues (job : TestJob) (handle : nat) (e : Exn) (st : State) :
  (retry_count job < max_retries job)%Z ->
  fst (handle_retry env {| Body := Some job; ReceiptHandle := handle |} e st) = Ok tt ->
  let st' := snd (handle_retry env {| Body := Some job; ReceiptHandle := handle |} e st) in
  queue st'
  = List.filter (fun m => negb (Nat.eqb (ReceiptHandle m) handle))
      (queue st ++ [ {| Body := Some (with_retry_count (retry_count job + 1) job);
                        ReceiptHandle := next_handle st |} ])
  /\ next_handle st' = S (next_handle st)
  /\ bucket st' = bucket st.
Proof.
  intros Hlt. apply Z.ltb_lt in Hlt. cbv zeta. unfold_coordinator. cbn. rewrite Hlt.
  oracle_cases; intros H; try discriminate H; repeat split.
Qed.

Lemma served_retry_terminal (job : TestJob) (handle : nat) (e : Exn) (st : State) :
  exhausted job ->
  fst (handle_retry env {| Body := Some job; ReceiptHandle := handle |} e st) = Ok tt ->
  let st' := snd (handle_retry env {| Body := Some job; ReceiptHandle := handle |} e st) in
  queue st' = List.filter (fun m => negb (Nat.eqb (ReceiptHandle m) handle)) (queue st)
  /\ next_handle st' = next_handle st
  /\ bucket st' = bucket st ++ [ (id job, terminal_failure job e (now env (calls st))) ].
Proof.
  intros Hex. apply Z.ltb_ge in Hex. cbv zeta. unfold_coordinator. cbn. rewrite Hex.
  oracle_cases; intros H; try discriminate H; repeat split.
Qed.

Lemma failing_delivery_state (message : Message) (e : Exn) (st st1 : State) :
  process_body env message st = (Raise e, st1) ->
  fst (handle_retry env message e
         (set_logged (fun l => l ++ ["Error processing job: " +:+ exn_str e]) st1)) = Ok tt ->
  _process_single_job env message st
  = (Ok tt,
     snd (handle_retry env message e
            (set_logged (fun l => l ++ ["Error processing job: " +:+ exn_str e]) st1))).
Proof.
  intros Hb Hok. unfold _process_single_job, try_except at 1. rewrite Hb.
  erewrite bind_ok; [ | reflexivity ].
  unfold try_except.
  destruct (handle_retry env message e
              (set_logged (fun l => l ++ ["Error processing job: " +:+ exn_str e]) st1))
    as [[[]|e'|] st2]; cbn in Hok; try discriminate Hok; reflexivity.
Qed.

Lemma failing_delivery_requeues (job : TestJob) (handle : nat) (st : State) :
  delivery_fails env {| Body := Some job; ReceiptHandle := handle |} st ->
  (retry_count job < max_retries job)%Z ->
  let out := _process_single_job env {| Body := Some job; ReceiptHandle := handle |} st in
  fst out = Ok tt
  /\ queue (snd out)
     = List.filter (fun m => negb (Nat.eqb (ReceiptHandle m) handle))
         (queue st ++ [ {| Body := Some (with_retry_count (retry_count job + 1) job);
                           ReceiptHandle := next_handle st |} ])
  /\ failed_writes (snd out) = failed_writes st
  /\ next_handle (snd out) = S (next_handle st).
Proof.
  intros (e & st1 & Hb & Hok) Hlt. cbv zeta.
  rewrite (failing_delivery_state _ e st st1 Hb Hok). cbn [fst snd].
  pose proof (process_body_leaves {| Body := Some job; ReceiptHandle := handle |} st) as L.
  rewrite Hb in L. cbn [snd ReceiptHandle] in L. destruct L as (Ln & Lq & Lw).
  destruct (served_retry_requeues job handle e _ Hlt Hok) as (Q & N & B).
  cbn [queue next_handle bucket set_logged] in Q, N, B.
  split; [ reflexivity | ]. split; [ | split ].
  - rewrite Q, Ln, !List.filter_app, Lq. reflexivity.
  - unfold failed_writes. rewrite B. exact Lw.
  - rewrite N, Ln. reflexivity.
Qed.

Lemma failing_delivery_terminal (job : TestJob) (handle : nat) (st : State) :
  delivery_fails env {| Body := Some job; ReceiptHandle := handle |} st ->
  exhausted job ->
  let out := _process_single_job env {| Body := Some job; ReceiptHandle := handle |} st in
  fst out = Ok tt
  /\ queue (snd out)
     = List.filter (fun m => negb (Nat.eqb (ReceiptHandle m) handle)) (queue st)
  /\ (exists e t,
         failed_writes (snd out) = failed_writes st ++ [ (id job, terminal_failure job e t) ])
  /\ next_handle (snd out) = next_handle st.
Proof.
  intros (e & st1 & Hb & Hok) Hex. cbv zeta.
  rewrite (failing_delivery_state _ e st st1 Hb Hok). cbn [fst snd].
  pose proof (process_body_leaves {| Body := Some job; ReceiptHandle := handle |} st) as L.
  rewrite Hb in L. cbn [snd ReceiptHandle] in L. destruct L as (Ln & Lq & Lw).
  destruct (served_retry_terminal job handle e _ Hex Hok) as (Q & N & B).
  cbn [queue next_handle bucket calls set_logged] in Q, N, B.
  split; [ reflexivity | ]. split; [ | split ].
  - rewrite Q. exact Lq.
  - exists e, (now env (calls st1)). unfold failed_writes. rewrite B, List.filter_app.
    fold (failed_writes st1). rewrite Lw. reflexivity.
  - rewrite N. exact Ln.
Qed.

Lemma consume_head (m : Message) (q : list Message) (rest : list nat) (st : State) :
  queue st = m :: q ->
  fst (_process_single_job env m st) = Ok tt ->
  consume env (0%nat :: rest) st = consume env rest (snd (_process_single_job env m st)).
Proof.
  intros Hq Hok. cbn [consume]. unfold bind at 1, deliver, bind at 1, get. rewrite Hq. cbn.
  destruct (_process_single_job env m st) as [[[]|e|] st']; cbn in *;
    try discriminate Hok; reflexivity.
Qed.

Lemma consume_idle (schedule : list nat) (st : State) :
  queue st = [] -> consume env schedule st = (Ok tt, st).
Proof.
  intros Hq. induction schedule as [|k rest IH]; [ reflexivity | ].
  cbn [consume]. unfold bind at 1, deliver, bind at 1, get. rewrite Hq.
  rewrite lookup_nil. cbn. exact IH.
Qed.

Lemma deliveries_fail_head (n : nat) (m : Message) (q : list Message) (st : State) :
  queue st = m :: q ->
  deliveries_fail env (S n) st ->
  delivery_fails env m st /\ deliveries_fail env n (snd (_process_single_job env m st)).
Proof. intros Hq H. cbn [deliveries_fail] in H. rewrite Hq in H. exact H. Qed.

(** C2, as the code has it: a job created with [retry_count = 0] and
    [max_retries = 3] is submitted to an empty queue by a fresh coordinator;
    the processing step raises at each of its first four deliveries, whatever
    the cause, and the retry logic that follows runs to its end (the resend,
    the write of the failed result and the deletion are accepted). Then the
    job is put back three times; after the third failure no failed result
    has been written and the job waits in the queue with [retry_count = 3];
    the fourth failure writes the one terminal failed result and empties the
    queue, and nothing the consumer does afterwards sends the job again: four
    sends in all. *)
Theorem C2_fourth_failure_is_terminal (job : TestJob) (message_id : string) :
  retry_count job = 0%Z ->
  max_retries job = 3%Z ->
  fst (submit_test_job env job init) = Ok message_id ->
  let st0 := snd (submit_test_job env job init) in
  deliveries_fail env 4 st0 ->
  let after n := snd (consume env (repeat 0%nat n) st0) in
  (failed_writes (after 3%nat) = []
   /\ List.map Body (queue (after 3%nat)) = [ Some (with_retry_count 3 job) ])
  /\ (exists e t,
         failed_writes (after 4%nat)
         = [ (id job, terminal_failure (with_retry_count 3 job) e t) ])
  /\ queue (after 4%nat) = []
  /\ (forall schedule,
         let st := snd (consume env schedule (after 4%nat)) in
         bucket st = bucket (after 4%nat) /\ queue st = [] /\ next_handle st = 4%nat).
Proof.
  intros Hrc Hmax Hsub st0 Hfail after.
  destruct job as [i c l t p rc mx ca]. cbn in Hrc, Hmax. subst rc mx.
  set (job := {| id := i; code := c; language := l; test_type := t; priority := p;
                 retry_count := 0; max_retries := 3; created_at := ca |}) in *.
  destruct (submit_returned job init message_id Hsub) as (Hq0 & Hn0 & Hb0).
  fold st0 in Hq0, Hn0, Hb0. cbn in Hq0, Hn0, Hb0.
  assert (Hw0 : failed_writes st0 = []) by (unfold failed_writes; rewrite Hb0; reflexivity).
  (* first failure *)
  destruct (deliveries_fail_head 3 _ _ st0 Hq0 Hfail) as [F1 Hfail1].
  destruct (failing_delivery_requeues job 0 st0 F1 ltac:(cbn; lia)) as (Ho1 & Hq1 & Hw1 & Hn1).
  set (st1 := snd (_process_single_job env {| Body := Some job; ReceiptHandle := 0 |} st0)) in *.
  rewrite Hq0, Hn0 in Hq1. rewrite Hw0 in Hw1. rewrite Hn0 in Hn1. cbn in Hq1.
  (* second failure *)
  set (job1 := with_retry_count (0 + 1) job) in *.
  destruct (deliveries_fail_head 2 _ _ st1 Hq1 Hfail1) as [F2 Hfail2].
  destruct (failing_delivery_requeues job1 1 st1 F2 ltac:(cbn; lia)) as (Ho2 & Hq2 & Hw2 & Hn2).
  set (st2 := snd (_process_single_job env {| Body := Some job1; ReceiptHandle := 1 |} st1)) in *.
  rewrite Hq1, Hn1 in Hq2. rewrite Hw1 in Hw2. rewrite Hn1 in Hn2. cbn in Hq2.
  (* third failure *)
  set (job2 := {| id := i; code := c; language := l; test_type := t; priority := p;
                  retry_count := 2; max_retries := 3; created_at := ca |}) in *.
  destruct (deliveries_fail_head 1 _ _ st2 Hq2 Hfail2) as [F3 Hfail3].
  destruct (failing_delivery_requeues job2 2 st2 F3 ltac:(cbn; lia)) as (Ho3 & Hq3 & Hw3 & Hn3).
  set (st3 := snd (_process_single_job env {| Body := Some job2; ReceiptHandle := 2 |} st2)) in *.
  rewrite Hq2, Hn2 in Hq3. rewrite Hw2 in Hw3. rewrite Hn2 in Hn3. cbn in Hq3.
  (* fourth failure *)
  set (job3 := {| id := i; code := c; language := l; test_type := t; priority := p;
                  retry_count := 3; max_retries := 3; created_at := ca |}) in *.
  destruct (deliveries_fail_head 0 _ _ st3 Hq3 Hfail3) as [F4 _].
  destruct (failing_delivery_terminal job3 3 st3 F4 ltac:(unfold exhausted; cbn; lia))
    as (Ho4 & Hq4 & (e4 & t4 & Hw4) & Hn4).
  set (st4 := snd (_process_single_job env {| Body := Some job3; ReceiptHandle := 3 |} st3)) in *.
  rewrite Hq3 in Hq4. rewrite Hw3 in Hw4. rewrite Hn3 in Hn4. cbn in Hq4, Hw4.
  (* the runs *)
  assert (E3 : after 3%nat = st3).
  { unfold after. cbn [repeat].
    rewrite (consume_head _ _ _ _ Hq0 Ho1). fold st1.
    rewrite (consume_head _ _ _ _ Hq1 Ho2). fold st2.
    rewrite (consume_head _ _ _ _ Hq2 Ho3). fold st3.
    reflexivity. }
  assert (E4 : after 4%nat = st4).
  { unfold after. cbn [repeat].
    rewrite (consume_head _ _ _ _ Hq0 Ho1). fold st1.
    rewrite (consume_head _ _ _ _ Hq1 Ho2). fold st2.
    rewrite (consume_head _ _ _ _ Hq2 Ho3). fold st3.
    rewrite (consume_head _ _ _ _ Hq3 Ho4). fold st4.
    reflexivity. }
  rewrite E3, E4.
  split; [ split; [ exact Hw3 | rewrite Hq3; reflexivity ] | ].
  split; [ exists e4, t4; exact Hw4 | ].
  split; [ exact Hq4 | ].
  intros schedule st. unfold st. rewrite (consume_idle schedule st4 Hq4). cbn [snd].
  repeat split; assumption.
Qed.

End FailingDeliveries.

(** *** Batch submission *)

Section Batches.
Hypothesis Hsane : answers_sane env.

Lemma enqueue_all_view (jobs : list TestJob) :
  forall st, exists st',
    enqueue_all jobs st = (Ok tt, st') /\ batch_view st' = batch_view st.
Proof.
  induction jobs as [|job rest IH]; intros st; cbn [enqueue_all].
  - exists st. split; reflexivity.
  - destruct (IH (snd (enqueue job st))) as (st' & E & V).
    exists st'. split; [ | rewrite V; reflexivity ].
    erewrite bind_ok; [ exact E | reflexivity ].
Qed.

Lemma track_successful_found (batch : list TestJob) (successful : list (string * string)) :
  (forall s, In s successful -> exists j, In j batch /\ id j = fst s) ->
  forall ids st, exists st',
    track_successful batch successful ids st = (Ok (ids ++ List.map snd successful), st')
    /\ batch_view st' = batch_view st.
Proof.
  induction successful as [|[job_id message_id] rest IH]; intros Hall ids st;
    cbn [track_successful].
  - exists st. rewrite app_nil_r. split; reflexivity.
  - destruct (List.find (fun j => String.eqb (id j) job_id) batch) as [job|] eqn:F.
    + destruct (IH (fun s Hs => Hall s (or_intror Hs)) (ids ++ [message_id])
                   (set_active_jobs (fun m => <[job_id := job]> m) st)) as (st' & E & V).
      exists st'. split; [ | rewrite V; reflexivity ].
      erewrite bind_ok; [ | reflexivity ].
      rewrite E. cbn [List.map]. rewrite <- app_assoc. reflexivity.
    + exfalso. destruct (Hall (job_id, message_id) (or_introl eq_refl)) as (j & Hj & Hid).
      pose proof (find_none _ _ F j Hj) as Hno. cbn in Hno, Hid.
      rewrite Hid, String.eqb_refl in Hno. discriminate Hno.
Qed.

Lemma log_failed_view (failed : list (string * string)) :
  forall st, exists st',
    log_failed failed st = (Ok tt, st')
    /\ batch_view st'
       = (sent_batches st, calls st, logged st ++ List.map failed_line failed).
Proof.
  induction failed as [|[job_id message] rest IH]; intros st; cbn [log_failed].
  - exists st. unfold batch_view. rewrite app_nil_r. split; reflexivity.
  - destruct (IH (snd (log_line (failed_line (job_id, message)) st))) as (st' & E & V).
    exists st'. split.
    + erewrite bind_ok; [ exact E | reflexivity ].
    + rewrite V. cbn. rewrite <- app_assoc. reflexivity.
Qed.

Lemma chunk_answered (jobs : list TestJob) (i : nat) (rest : list nat)
      (ids : list string) (st : State) (response : BatchResponse) :
  send_message_batch env (calls st) (chunk_entries jobs i) = inr response ->
  exists st1,
    submit_chunks env (i :: rest) jobs ids st
    = submit_chunks env rest jobs (ids ++ List.map snd (Successful response)) st1
    /\ batch_view st1
       = (sent_batches st ++ [chunk_entries jobs i], S (calls st),
          logged st ++ List.map failed_line (Failed response)).
Proof.
  intros Hans. unfold chunk_entries in *.
  set (batch := take Coordinator.batch_size (drop i jobs)) in *.
  set (st_a := set_sent_batches (fun l => l ++ [List.map entry_of batch]) (set_calls S st)).
  destruct (enqueue_all_view (accepted response (List.map entry_of batch)) st_a)
    as (st_b & Eb & Vb).
  assert (Hfound : forall s, In s (Successful response) ->
                             exists j, In j batch /\ id j = fst s).
  { intros s Hs. destruct (Hsane _ _ _ Hans s Hs) as (e & He & Hid).
    apply in_map_iff in He as (j & <- & Hj). exists j. split; [ exact Hj | exact Hid ]. }
  destruct (track_successful_found batch (Successful response) Hfound ids st_b)
    as (st_c & Ec & Vc).
  destruct (log_failed_view (Failed response) st_c) as (st_d & Ed & Vd).
  exists st_d. split.
  - cbn [submit_chunks]. fold batch.
    erewrite bind_ok; [ reflexivity | ].
    apply try_client_ok.
    erewrite bind_ok; [ | unfold sqs_send_message_batch;
                          erewrite bind_ok; [ | reflexivity ];
                          erewrite bind_ok; [ | reflexivity ];
                          cbn [calls set_calls set_sent_batches]; rewrite Hans;
                          erewrite bind_ok; [ reflexivity | exact Eb ] ].
    erewrite bind_ok; [ | exact Ec ].
    erewrite bind_ok; [ reflexivity | exact Ed ].
  - rewrite Vd. unfold batch_view in Vc, Vb.
    inversion Vc as [[Hs Hc Hl]]. inversion Vb as [[Hs' Hc' Hl']].
    rewrite Hs, Hs', Hc, Hc', Hl, Hl'. reflexivity.
Qed.

Lemma chunk_outage (jobs : list TestJob) (i : nat) (rest : list nat)
      (ids : list string) (st : State) (e : Exn) :
  send_message_batch env (calls st) (chunk_entries jobs i) = inl e ->
  exists st1,
    submit_chunks env (i :: rest) jobs ids st = (Raise e, st1)
    /\ batch_view st1
       = (sent_batches st ++ [chunk_entries jobs i], S (calls st),
          logged st ++ (if is_client_error e
                        then [ "Failed to submit job batch: " +:+ exn_str e ] else [])).
Proof.
  intros Hans. unfold chunk_entries in *.
  set (batch := take Coordinator.batch_size (drop i jobs)) in *.
  assert (E : submit_chunks env (i :: rest) jobs ids st
              = (if is_client_error e
                 then (log_line ("Failed to submit job batch: " +:+ exn_str e) ;; raise e)%coord
                 else raise e)
                  (set_sent_batches (fun l => l ++ [List.map entry_of batch]) (set_calls S st))).
  { cbn [submit_chunks]. fold batch.
    unfold bind at 1.
    erewrite try_client_raised;
      [ | erewrite bind_raised; [ reflexivity | ];
          unfold sqs_send_message_batch;
          erewrite bind_ok; [ | reflexivity ];
          erewrite bind_ok; [ | reflexivity ];
          cbn [calls set_calls set_sent_batches]; rewrite Hans; reflexivity ].
    destruct (is_client_error e); reflexivity. }
  rewrite E. destruct (is_client_error e); eexists; (split; [ reflexivity | ]).
  - reflexivity.
  - cbn. rewrite app_nil_r. reflexivity.
Qed.

Lemma submit_chunks_spec (jobs : list TestJob) (starts : list nat) :
  forall (ids : list string) (st : State),
    let out := submit_chunks env starts jobs ids st in
    match first_outage env jobs (calls st) starts with
    | Some (k, e) =>
        fst out = Raise e
        /\ sent_batches (snd out)
           = sent_batches st ++ List.map (chunk_entries jobs) (take (S k) starts)
    | None =>
        fst out = Ok (ids ++ accepted_ids env jobs (calls st) starts)
        /\ sent_batches (snd out)
           = sent_batches st ++ List.map (chunk_entries jobs) starts
    end
    /\ logged (snd out) = logged st ++ chunk_log env jobs (calls st) starts.
Proof.
  induction starts as [|i rest IH]; intros ids st; cbv zeta.
  - cbn. rewrite !app_nil_r. repeat split.
  - cbn [first_outage chunk_log accepted_ids].
    destruct (send_message_batch env (calls st) (chunk_entries jobs i)) as [e|response] eqn:Hans.
    + destruct (chunk_outage jobs i rest ids st e Hans) as (st1 & E & V).
      rewrite E. unfold batch_view in V. injection V as Hs Hc Hl.
      cbn [fst snd take List.map]. repeat split; assumption.
    + destruct (chunk_answered jobs i rest ids st response Hans) as (st1 & E & V).
      rewrite E. unfold batch_view in V. injection V as Hs Hc Hl.
      specialize (IH (ids ++ List.map snd (Successful response)) st1). cbv zeta in IH.
      rewrite Hc, Hs, Hl in IH. destruct IH as [IH1 IH2].
      split.
      * destruct (first_outage env jobs (S (calls st)) rest) as [[k e]|].
        -- destruct IH1 as [R S1]. split; [ exact R | ].
           rewrite S1. cbn [take List.map]. rewrite <- app_assoc. reflexivity.
        -- destruct IH1 as [R S1]. split.
           ++ rewrite R, <- app_assoc. reflexivity.
           ++ rewrite S1. cbn [List.map]. rewrite <- app_assoc. reflexivity.
      * rewrite IH2, <- app_assoc. reflexivity.
Qed.

Lemma send_metric_sent (X : list (list BatchEntry)) (name : string) (v : Z) :
  preserves (fun s => sent_batches s = X) (_send_metric env name v).
Proof. unfold _send_metric. frame; assumption. Qed.

Lemma send_metric_logged (line : string) (name : string) (v : Z) :
  preserves (fun s => In line (logged s)) (_send_metric env name v).
Proof.
  unfold _send_metric. frame; try assumption.
  cbn. apply in_or_app. left. assumption.
Qed.

Lemma batch_sent_as_chunks (jobs : list TestJob) (st : State) :
  sent_batches (snd (submit_batch_jobs env jobs st))
  = sent_batches
      (snd (submit_chunks env (range_step (length jobs) Coordinator.batch_size) jobs [] st)).
Proof.
  unfold submit_batch_jobs. unfold bind at 1.
  destruct (submit_chunks _ _ _ _ st) as [[ids|e|] st1]; cbn [snd]; try reflexivity.
  unfold bind at 1.
  pose proof (send_metric_sent (sent_batches st1) "BatchJobsSubmitted"
                (Z.of_nat (length ids)) st1 eq_refl) as H.
  destruct (_send_metric _ _ _ st1) as [[[]|e|] st2]; cbn in *; exact H.
Qed.

Lemma batch_logged_as_chunks (jobs : list TestJob) (st : State) (line : string) :
  In line (logged
             (snd (submit_chunks env (range_step (length jobs) Coordinator.batch_size)
                                 jobs [] st))) ->
  In line (logged (snd (submit_batch_jobs env jobs st))).
Proof.
  unfold submit_batch_jobs. unfold bind at 1.
  destruct (submit_chunks _ _ _ _ st) as [[ids|e|] st1]; cbn [snd]; try (intros H; exact H).
  intros H0. unfold bind at 1.
  pose proof (send_metric_logged line "BatchJobsSubmitted"
                (Z.of_nat (length ids)) st1 H0) as H.
  destruct (_send_metric _ _ _ st1) as [[[]|e|] st2]; cbn in *; exact H.
Qed.

Lemma send_metric_returns (name : string) (v : Z) (st : State) :
  (forall n, put_metric_data env n name = None
             \/ exists text, put_metric_data env n name = Some (ClientError text)) ->
  fst (_send_metric env name v st) = Ok tt.
Proof.
  intros H. unfold _send_metric, try_except_client, try_except, bind, call.
  destruct (H (calls st)) as [-> | [text ->]]; reflexivity.
Qed.



End Batches.

(** C6, as the code has it, for a queue that reports as successful only
    ids it was sent and a metrics sink that accepts the metric or refuses it
    with a client error: a chunk whose send raises ends the submission
    there: the exception is raised to the caller and the chunks after it
    are never sent, whatever the queue would have answered; the log then
    holds, after what it held, the entries that the answered chunks reported
    as failed and, last, the line of the outage when the exception is a
    client error, and nothing about it otherwise; entries that an answered
    chunk reports as failed are logged and stop nothing; when no send raises,
    every chunk is sent, in order, and the message ids of the accepted
    entries are returned. *)
Theorem C6_outage_ends_batch_submission (jobs : list TestJob) (st : State) :
  answers_sane env ->
  (forall n name, put_metric_data env n name = None
                  \/ exists text, put_metric_data env n name = Some (ClientError text)) ->
  let starts := range_step (length jobs) Coordinator.batch_size in
  let out := submit_batch_jobs env jobs st in
  match first_outage env jobs (calls st) starts with
  | Some (k, e) =>
      fst out = Raise e
      /\ sent_batches (snd out)
         = sent_batches st ++ List.map (chunk_entries jobs) (take (S k) starts)
      /\ logged (snd out) = logged st ++ chunk_log env jobs (calls st) starts
  | None =>
      fst out = Ok (accepted_ids env jobs (calls st) starts)
      /\ sent_batches (snd out)
         = sent_batches st ++ List.map (chunk_entries jobs) starts
  end
  /\ (forall line, In line (chunk_log env jobs (calls st) starts) ->
                   In line (logged (snd out))).
Proof.
  intros Hsane Hmetrics starts out.
  pose proof (submit_chunks_spec Hsane jobs starts [] st) as [H1 H2]. cbv zeta in H1, H2.
  split.
  - unfold out. rewrite (batch_sent_as_chunks jobs st). fold starts.
    destruct (first_outage env jobs (calls st) starts) as [[k e]|].
    + destruct H1 as [R S1].
      assert (E : submit_batch_jobs env jobs st
                  = (Raise e, snd (submit_chunks env starts jobs [] st))).
      { unfold submit_batch_jobs. fold starts. unfold bind at 1.
        destruct (submit_chunks env starts jobs [] st) as [r st1]. cbn in R. subst r.
        reflexivity. }
      rewrite E. cbn [fst snd]. repeat split; assumption.
    + destruct H1 as [R S1]. split; [ | exact S1 ].
      unfold submit_batch_jobs. fold starts. unfold bind at 1.
      destruct (submit_chunks env starts jobs [] st) as [r st1]. cbn in R. subst r.
      unfold bind at 1.
      pose proof (send_metric_returns "BatchJobsSubmitted"
                    (Z.of_nat (length ([] ++ accepted_ids env jobs (calls st) starts)))
                    st1 (fun n => Hmetrics n _)) as Hm.
      destruct (_send_metric _ _ _ st1) as [r st2]. cbn in Hm. subst r. reflexivity.
  - intros line Hline. apply batch_logged_as_chunks. fold starts.
    rewrite H2. apply in_or_app. right. exact Hline.
Qed.

Lemma job_status_maps (st0 st : State) (job_id : string) :
  maps_as_in st0 st -> job_status job_id st = job_status job_id st0.
Proof. intros [Hc Ha]. unfold job_status. rewrite Hc, Ha. reflexivity. Qed.

Lemma sleep_eq (st : State) :
  sleep env st
  = (Ok tt, set_calls (fun _ => S (calls st)) (background env (calls st) (set_calls S st))).
Proof. reflexivity. Qed.

(** *** The job maps across a delivery *)

Lemma handle_retry_keeps_completed (message : Message) (e : Exn)
      (c : gmap string TestResult) :
  preserves (fun st => Coordinator.completed_jobs st = c) (handle_retry env message e).
Proof.
  unfold handle_retry, parse_job, submit_test_job, sqs_send_message, enqueue, _send_metric,
    failure_result, timestamp, _store_results, s3_put_object, sqs_delete_message.
  frame; assumption.
Qed.

Lemma after_try_keeps_completed (message : Message) (e : Exn)
      (c : gmap string TestResult) :
  preserves (fun st => Coordinator.completed_jobs st = c)
    (log_line ("Error processing job: " +:+ exn_str e) ;;
     try_except (handle_retry env message e)
       (fun retry_error => log_line ("Error handling job retry: " +:+ exn_str retry_error))).
Proof.
  apply preserves_bind; [ frame; assumption | intros _ ].
  apply preserves_try_except; [ apply handle_retry_keeps_completed | intros e' ].
  frame; assumption.
Qed.

Lemma after_try_exhausted_maps (job : TestJob) (handle : nat) (e : Exn) (st : State) :
  exhausted job ->
  maps_as_in st
    (snd ((log_line ("Error processing job: " +:+ exn_str e) ;;
           try_except (handle_retry env {| Body := Some job; ReceiptHandle := handle |} e)
             (fun retry_error =>
                log_line ("Error handling job retry: " +:+ exn_str retry_error))) st)).
Proof.
  intros Hex. erewrite bind_ok; [ | reflexivity ].
  pose proof (handle_retry_exhausted_maps {| Body := Some job; ReceiptHandle := handle |} job e
                (set_logged (fun l => l ++ ["Error processing job: " +:+ exn_str e]) st)
                eq_refl Hex) as H.
  unfold try_except.
  destruct (handle_retry env {| Body := Some job; ReceiptHandle := handle |} e
              (set_logged (fun l => l ++ ["Error processing job: " +:+ exn_str e]) st))
    as [[[]|e'|] st2]; exact H.
Qed.

(** The try block raises before the result is recorded when the backend
    raises or the store refuses the result. *)
Lemma unrecorded_failure (job : TestJob) (handle : nat) (st : State) (e : Exn) :
  inference env (S (calls st)) job = Some e
  \/ (inference env (S (calls st)) job = None
      /\ put_object env (4 + calls st) (id job) (generated env job (calls st)) = Some e) ->
  exists st1,
    process_body env {| Body := Some job; ReceiptHandle := handle |} st = (Raise e, st1)
    /\ maps_as_in st st1.
Proof.
  intros [Hi | [Hi Hp]];
    cbv [process_body _generate_tests _store_results s3_put_object timestamp parse_job
         bind ret raise get modify call log_line try_except try_except_client Body];
    cbn [calls set_calls]; rewrite Hi; cbn.
  - eexists. split; [ reflexivity | split; reflexivity ].
  - match goal with
    | |- context [put_object env ?n ?k ?x] =>
        change (put_object env n k x)
          with (put_object env (4 + calls st) (id job) (generated env job (calls st)))
    end.
    rewrite Hp. cbn.
    destruct (is_client_error e); cbn; eexists; (split; [ reflexivity | split; reflexivity ]).
Qed.

(** Once the store has accepted the result, the try block records it and
    goes on with the deletion and the metrics. *)
Lemma recorded_then (job : TestJob) (handle : nat) (st : State) :
  inference env (S (calls st)) job = None ->
  put_object env (4 + calls st) (id job) (generated env job (calls st)) = None ->
  process_body env {| Body := Some job; ReceiptHandle := handle |} st
  = (sqs_delete_message env handle ;;
     _send_metric env "JobsCompleted" 1 ;;
     _send_metric env "TestsGenerated" 2)
      (set_active_jobs (fun m => delete (id job) m)
         (recorded (id job) (generated env job (calls st))
            (set_bucket (fun b => b ++ [ (id job, generated env job (calls st)) ])
               (set_calls (fun n => 5 + n)%nat st)))).
Proof.
  intros Hi Hp.
  cbv [process_body _generate_tests _store_results s3_put_object timestamp parse_job
       bind ret raise get modify call try_except try_except_client Body ReceiptHandle].
  cbn [calls set_calls]. rewrite Hi. cbn.
  match goal with
  | |- context [put_object env ?n ?k ?x] =>
      change (put_object env n k x)
        with (put_object env (4 + calls st) (id job) (generated env job (calls st)))
  end.
  rewrite Hp. reflexivity.
Qed.

Lemma recorded_delivery (job : TestJob) (handle : nat) (st : State) :
  inference env (S (calls st)) job = None ->
  put_object env (4 + calls st) (id job) (generated env job (calls st)) = None ->
  let out := _process_single_job env {| Body := Some job; ReceiptHandle := handle |} st in
  Coordinator.completed_jobs (snd out)
  = <[id job := generated env job (calls st)]> (Coordinator.completed_jobs st)
  /\ (exhausted job -> active_jobs (snd out) = delete (id job) (active_jobs st)).
Proof.
  intros Hi Hp. cbv zeta.
  set (rest := (sqs_delete_message env handle ;;
                _send_metric env "JobsCompleted" 1 ;;
                _send_metric env "TestsGenerated" 2)).
  set (st1 := set_active_jobs (fun m => delete (id job) m)
                (recorded (id job) (generated env job (calls st))
                   (set_bucket (fun b => b ++ [ (id job, generated env job (calls st)) ])
                      (set_calls (fun n => 5 + n)%nat st)))).
  assert (Hrest : forall P : State -> Prop,
             (forall s f, P s -> P (set_calls f s))
             -> (forall s f, P s -> P (set_queue f s))
             -> (forall s f, P s -> P (set_metrics f s))
             -> (forall s f, P s -> P (set_logged f s))
             -> preserves P rest).
  { intros P Hc Hq Hm Hl. unfold rest, sqs_delete_message, _send_metric, log_line.
    frame; auto. }
  split.
  - unfold _process_single_job, try_except at 1.
    rewrite (recorded_then job handle st Hi Hp). fold rest st1.
    pose proof (Hrest (fun s => Coordinator.completed_jobs s = Coordinator.completed_jobs st1)
                  ltac:(intros ? ? H; exact H) ltac:(intros ? ? H; exact H)
                  ltac:(intros ? ? H; exact H) ltac:(intros ? ? H; exact H) st1 eq_refl) as R.
    destruct (rest st1) as [[[]|e|] st2]; cbn [snd] in R; cbv beta iota.
    + exact R.
    + etransitivity; [ | exact R ].
      exact (after_try_keeps_completed _ e _ st2 eq_refl).
    + exact R.
  - intros Hex. unfold _process_single_job, try_except at 1.
    rewrite (recorded_then job handle st Hi Hp). fold rest st1.
    pose proof (Hrest (fun s => active_jobs s = active_jobs st1)
                  ltac:(intros ? ? H; exact H) ltac:(intros ? ? H; exact H)
                  ltac:(intros ? ? H; exact H) ltac:(intros ? ? H; exact H) st1 eq_refl) as R.
    destruct (rest st1) as [[[]|e|] st2]; cbn [snd] in R; cbv beta iota.
    + exact R.
    + destruct (after_try_exhausted_maps job handle e st2 Hex) as [_ Ha].
      etransitivity; [ exact Ha | exact R ].
    + exact R.
Qed.

(** *** A job that is off the queue and not completed stays so *)

Lemma process_body_keeps_other (k : string) (message : Message) :
  (forall job, Body message = Some job -> id job <> k) ->
  preserves (fun st => Coordinator.completed_jobs st !! k = None) (process_body env message).
Proof.
  intros Hk. unfold process_body, parse_job.
  destruct (Body message) as [job|] eqn:B;
    [ rewrite bind_ret | rewrite !bind_raise; apply preserves_raise ].
  specialize (Hk job eq_refl).
  unfold _generate_tests, timestamp, _store_results, s3_put_object, sqs_delete_message,
    _send_metric.
  frame; try assumption.
  cbn. rewrite lookup_insert_ne by exact Hk. assumption.
Qed.

Lemma delivery_keeps_other (k : string) (message : Message) :
  (forall job, Body message = Some job -> id job <> k) ->
  preserves (fun st => Coordinator.completed_jobs st !! k = None /\ off_queue k st)
            (_process_single_job env message).
Proof.
  intros Hk st [Hc Hq]. split.
  - assert (H : preserves (fun s => Coordinator.completed_jobs s !! k = None)
                          (_process_single_job env message)).
    { unfold _process_single_job.
      apply preserves_try_except; [ apply process_body_keeps_other, Hk | intros e ].
      intros s Hs. cbv beta.
      rewrite (after_try_keeps_completed message e (Coordinator.completed_jobs s) s eq_refl).
      exact Hs. }
    apply H, Hc.
  - pose proof (process_single_job_grows (fun j => id j <> k) st message) as G.
    intros m j Hm Hb.
    destruct (G ltac:(intros job HB _; cbn; apply Hk, HB) st
                ltac:(intros m' Hm'; left; exact Hm') m Hm) as [Hold | (j' & Hj' & Hgood)].
    + apply (Hq m j Hold Hb).
    + rewrite Hb in Hj'. injection Hj' as <-. exact Hgood.
Qed.

Lemma consume_keeps_other (k : string) (schedule : list nat) :
  preserves (fun st => Coordinator.completed_jobs st !! k = None /\ off_queue k st)
            (consume env schedule).
Proof.
  induction schedule as [|i rest IH]; cbn [consume]; [ apply preserves_ret | ].
  apply preserves_bind; [ | intros _; exact IH ].
  intros st H. unfold deliver, bind, get.
  destruct (queue st !! i) as [message|] eqn:L; [ | exact H ].
  apply delivery_keeps_other; [ | exact H ].
  intros job HB. destruct H as [_ Hq].
  apply (Hq message job); [ | exact HB ].
  apply list_elem_of_lookup. exists i. exact L.
Qed.

Lemma wait_loop_times_out (job_id : string) (timeout : Z) :
  consumer_in_background env ->
  forall (polls : nat) (st : State),
    Coordinator.completed_jobs st !! job_id = None ->
    off_queue job_id st ->
    exists st',
      wait_loop env polls job_id timeout st
      = (Raise (TimeoutError ("Job " +:+ job_id +:+ " did not complete within "
                              +:+ pretty timeout +:+ " seconds")), st').
Proof.
  intros Hbg polls. induction polls as [|n IH]; intros st Hc Hq.
  - exists st. reflexivity.
  - destruct (Hbg (calls st) (set_calls S st)) as [schedule Hs].
    pose proof (consume_keeps_other job_id schedule (set_calls S st) (conj Hc Hq)) as [Hc' Hq'].
    rewrite <- Hs in Hc', Hq'.
    destruct (IH (set_calls (fun _ => S (calls st))
                            (background env (calls st) (set_calls S st))) Hc' Hq')
      as (st' & Hw).
    exists st'.
    cbn [wait_loop]. unfold get_job_status, bind, get, ret, job_status.
    rewrite Hc.
    destruct (active_jobs st !! job_id); rewrite sleep_eq; exact Hw.
Qed.

(** C9, as the code has it: the retry-exhaustion path writes the failed
    result to the object store, when the store accepts it, and changes
    neither job map. What the status of the job is after the delivery
    depends on where the try block raised. When it raised before the result
    was recorded (the backend raised, or the store refused the successful
    result), both maps are as before the delivery and so is the status of
    every id: for a job that was not completed before, [processing] when it
    is in the active map and [not_found] otherwise; and once no message of
    the job is left on the queue, no later delivery of the consumer completes
    it, so a wait for it polls until it times out. When the store accepted
    the successful result, the job has been recorded as completed and taken
    out of the active map before anything else can raise: the status is
    [completed], with success, also when the deletion then raises and the
    exhaustion path writes the failed result. *)
Theorem C9_exhausted_job_status (config : ExecutionConfig)
        (job : TestJob) (handle : nat) (st : State) :
  exhausted job ->
  let message := {| Body := Some job; ReceiptHandle := handle |} in
  let r := generated env job (calls st) in
  let out := _process_single_job env message st in
  (forall e st1,
      let failure := terminal_failure job e (now env (calls st1)) in
      maps_as_in st1 (snd (handle_retry env message e st1))
      /\ (put_object env (S (calls st1)) (id job) failure = None ->
          bucket (snd (handle_retry env message e st1)) = bucket st1 ++ [(id job, failure)]))
  /\ (forall e,
         inference env (S (calls st)) job = Some e
         \/ (inference env (S (calls st)) job = None
             /\ put_object env (4 + calls st) (id job) r = Some e) ->
         maps_as_in st (snd out)
         /\ (forall job_id, job_status job_id (snd out) = job_status job_id st)
         /\ (Coordinator.completed_jobs st !! id job = None ->
             job_status (id job) (snd out)
             = match active_jobs st !! id job with
               | Some j => processing j (created_at j)
               | None => not_found ("Job " +:+ id job +:+ " not found")
               end
             /\ (consumer_in_background env ->
                 off_queue (id job) (snd out) ->
                 forall timeout : option Z,
                 exists st',
                   _wait_for_job_completion env config (id job) timeout (snd out)
                   = (Raise (TimeoutError
                               (timeout_text (id job)
                                  (default (timeout_seconds config) timeout))), st'))))
  /\ (inference env (S (calls st)) job = None ->
      put_object env (4 + calls st) (id job) r = None ->
      job_status (id job) (snd out) = completed true r
      /\ active_jobs (snd out) !! id job = None).
Proof.
  intros Hex. cbv zeta.
  split; [ | split ].
  - intros e st1. split.
    + apply (handle_retry_exhausted_maps {| Body := Some job; ReceiptHandle := handle |}
               job e st1 eq_refl Hex).
    + apply (handle_retry_exhausted_bucket {| Body := Some job; ReceiptHandle := handle |}
               job e st1 eq_refl Hex).
  - intros e Hcause.
    destruct (unrecorded_failure job handle st e Hcause) as (st1 & Hb & Hm1).
    assert (Hmaps : maps_as_in st
                      (snd (_process_single_job env
                              {| Body := Some job; ReceiptHandle := handle |} st))).
    { unfold _process_single_job, try_except at 1. rewrite Hb.
      pose proof (after_try_exhausted_maps job handle e st1 Hex) as [Hc Ha].
      destruct Hm1 as [Hc1 Ha1].
      split; [ etransitivity; [ exact Hc | exact Hc1 ]
             | etransitivity; [ exact Ha | exact Ha1 ] ]. }
    split; [ exact Hmaps | ].
    split; [ intros job_id; apply job_status_maps, Hmaps | ].
    intros Hc. split.
    + rewrite (job_status_maps st _ _ Hmaps). unfold job_status. rewrite Hc. reflexivity.
    + intros Hbg Hq timeout. unfold _wait_for_job_completion.
      apply wait_loop_times_out; [ exact Hbg | | exact Hq ].
      destruct Hmaps as [-> _]. exact Hc.
  - intros Hi Hp.
    destruct (recorded_delivery job handle st Hi Hp) as [Hc Ha].
    split.
    + unfold job_status. rewrite Hc, lookup_insert_eq. reflexivity.
    + rewrite (Ha Hex). apply lookup_delete_eq.
Qed.

End CoordinatorFacts.

(** An instance of C9: a job with [retry_count = max_retries = 3] is
    submitted and delivered once; the store refuses the successful result
    and then accepts the failed one. *)
Lemma C9_exhausted_job_instance :
  let env := store_outage_env [6%nat] (ClientError "SlowDown") in
  let job := job_of "job-1" 1 3 3 in
  let st := snd (submit_test_job env job init) in
  let out := _process_single_job env {| Body := Some job; ReceiptHandle := 0 |} st in
  job_status "job-1" (snd out) = processing job (created_at job)
  /\ (exists t,
         bucket (snd out) = [ ("job-1", terminal_failure job (ClientError "SlowDown") t) ])
  /\ fst (_wait_for_job_completion env (config_of SEQUENTIAL 300) "job-1" (Some 5%Z) (snd out))
     = Raise (TimeoutError "Job job-1 did not complete within 5 seconds").
Proof.
  intros env job st out.
  assert (Hex : exhausted job) by (unfold exhausted; cbn; lia).
  destruct (C9_exhausted_job_status env (config_of SEQUENTIAL 300) job 0 st Hex)
    as (_ & Before & _).
  destruct (Before (ClientError "SlowDown") ltac:(right; split; reflexivity))
    as (_ & _ & Hw).
  assert (Hnone : Coordinator.completed_jobs st !! id job = None) by (vm_compute; reflexivity).
  destruct (Hw Hnone) as [Hs Ht].
  split; [ etransitivity; [ exact Hs | vm_compute; reflexivity ] | ].
  split; [ eexists; vm_compute; reflexivity | ].
  assert (Hbg : consumer_in_background env).
  { intros n s. exists []. reflexivity. }
  assert (Hoff : off_queue (id job)
                   (snd (_process_single_job env {| Body := Some job; ReceiptHandle := 0 |} st))).
  { assert (Q : queue (snd (_process_single_job env
                              {| Body := Some job; ReceiptHandle := 0 |} st)) = [])
      by (vm_compute; reflexivity).
    intros m j Hm. rewrite Q in Hm. apply elem_of_nil in Hm. destruct Hm. }
  destruct (Ht Hbg Hoff (Some 5%Z)) as (st' & Hwait).
  etransitivity; [ exact (f_equal fst Hwait) | reflexivity ].
Defined.

(** C9 as worded fails: the queue refuses to delete the message of a job
    whose budget is spent, after the result was recorded; the exhaustion path
    runs and writes the failed result, but the job, which was [processing],
    is now [completed] and no longer in the active map. *)
Lemma C9_completed_on_exhaustion_path :
  let env := delete_outage_env 7 (ClientError "ReceiptHandleIsInvalid") in
  let job := job_of "job-1" 1 3 3 in
  let st := snd (submit_test_job env job init) in
  let st' := snd (_process_single_job env {| Body := Some job; ReceiptHandle := 0 |} st) in
  job_status "job-1" st = processing job (created_at job)
  /\ job_status "job-1" st' = completed true (generated env job 2)
  /\ active_jobs st !! "job-1" = Some job
  /\ active_jobs st' !! "job-1" = None
  /\ List.map (fun kr => success (snd kr)) (bucket st') = [ true; false ].
Proof. vm_compute. repeat split. Qed.

(** C3 as worded fails: a backend that raises an exception without text
    (a bare timeout) on a job whose budget is spent leaves a terminal result
    with [success = false] and the empty string as [error_message]. *)
Lemma C3_terminal_result_with_empty_message :
  let env := failing_backend_env (TimeoutError "") in
  let job := job_of "job-1" 1 3 3 in
  let st := snd (consume env [0%nat] (snd (submit_test_job env job init))) in
  exists r,
    bucket st = [("job-1", r)]
    /\ success r = false
    /\ error_message r = Some ""
    /\ ~ (success r = true \/ exists text, error_message r = Some text /\ text <> "").
Proof.
  eexists. split; [ vm_compute; reflexivity | ].
  split; [ reflexivity | ]. split; [ reflexivity | ].
  intros [H | (text & H & Hne)]; [ discriminate H | ].
  cbn in H. inversion H. apply Hne. symmetry. assumption.
Qed.

(** ** Calls that return *)

Section Flow.
Local Open Scope coord_scope.
Context {A B : Type}.

Lemma never_blocks_ret (a : A) : never_blocks (ret a).
Proof. intros st H. discriminate H. Qed.

Lemma never_blocks_raise (e : Exn) : never_blocks (@raise A e).
Proof. intros st H. discriminate H. Qed.

Lemma never_blocks_get : never_blocks get.
Proof. intros st H. discriminate H. Qed.

Lemma never_blocks_call : never_blocks call.
Proof. intros st H. discriminate H. Qed.

Lemma never_blocks_modify (f : State -> State) : never_blocks (modify f).
Proof. intros st H. discriminate H. Qed.

Lemma never_blocks_bind (m : M A) (k : A -> M B) :
  never_blocks m -> (forall a, never_blocks (k a)) -> never_blocks (bind m k).
Proof.
  intros Hm Hk st. unfold bind. specialize (Hm st).
  destruct (m st) as [[a|e|] st']; cbn in *;
    [ apply Hk | discriminate | exfalso; apply Hm; reflexivity ].
Qed.

Lemma never_blocks_try_except (m : M A) (h : Exn -> M A) :
  never_blocks m -> (forall e, never_blocks (h e)) -> never_blocks (try_except m h).
Proof.
  intros Hm Hh st. unfold try_except. specialize (Hm st).
  destruct (m st) as [[a|e|] st']; cbn in *; [ discriminate | apply Hh | exact Hm ].
Qed.

Lemma never_blocks_try_except_client (m : M A) (h : Exn -> M A) :
  never_blocks m -> (forall e, never_blocks (h e)) -> never_blocks (try_except_client m h).
Proof.
  intros Hm Hh. apply never_blocks_try_except; [ exact Hm | ].
  intros e. destruct (is_client_error e); [ apply Hh | apply never_blocks_raise ].
Qed.

End Flow.

Ltac flow_step :=
  match goal with
  | |- never_blocks (bind _ _) => apply never_blocks_bind; [ | intros ? ]
  | |- never_blocks (try_except_client _ _) => apply never_blocks_try_except_client; [ | intros ? ]
  | |- never_blocks (try_except _ _) => apply never_blocks_try_except; [ | intros ? ]
  | |- never_blocks (ret _) => apply never_blocks_ret
  | |- never_blocks (raise _) => apply never_blocks_raise
  | |- never_blocks get => apply never_blocks_get
  | |- never_blocks call => apply never_blocks_call
  | |- never_blocks (modify _) => apply never_blocks_modify
  | |- never_blocks (log_line _) => apply never_blocks_modify
  | |- never_blocks (match ?x with _ => _ end) => destruct x
  end.

Ltac flow := repeat flow_step.

(** ** The execution strategies *)

Section ExecutorFacts.
Local Open Scope coord_scope.
Variable env : Env.
Variable config : ExecutionConfig.

Lemma submit_never_blocks (job : TestJob) : never_blocks (submit_test_job env job).
Proof. unfold submit_test_job, sqs_send_message, enqueue, _send_metric. flow. Qed.

Lemma wait_loop_never_blocks (polls : nat) (job_id : string) (timeout : Z) :
  never_blocks (wait_loop env polls job_id timeout).
Proof.
  induction polls as [|n IH]; cbn [wait_loop]; [ flow | ].
  unfold get_job_status, sleep. flow; exact IH.
Qed.

Lemma wait_never_blocks (job_id : string) (timeout : option Z) :
  never_blocks (_wait_for_job_completion env config job_id timeout).
Proof. unfold _wait_for_job_completion. apply wait_loop_never_blocks. Qed.

Lemma attempt_eq {A} (m : M A) (st : State) :
  attempt m st
  = match m st with
    | (Ok a, st') => (Ok (inr a), st')
    | (Raise e, st') => (Ok (inl e), st')
    | (Blocked, st') => (Blocked, st')
    end.
Proof.
  unfold attempt, try_except, bind, ret.
  destruct (m st) as [[a|e|] st']; reflexivity.
Qed.

Lemma attempt_returns {A} (m : M A) :
  never_blocks m -> forall st, exists o st', attempt m st = (Ok o, st').
Proof.
  intros Hm st. rewrite attempt_eq. specialize (Hm st).
  destruct (m st) as [[a|e|] st']; cbn in Hm; [ eauto | eauto | congruence ].
Qed.

Lemma on_exception_eq (job : TestJob) (results : list TestResult) (e : Exn)
      (line : string) (st : State) :
  (log_line line ;;
   let* failure := failure_result env (id job) e in
   ret (results ++ [failure])) st
  = (Ok (results ++ [terminal_failure job e (now env (calls st))]),
     set_calls S (set_logged (fun l => l ++ [line]) st)).
Proof. reflexivity. Qed.

Lemma invoke_none (a b : nat) (c : CallbackArg) : invoke None a b c = ret tt.
Proof. reflexivity. Qed.

Lemma invoke_never_blocks (cb : option Callback) (a b : nat) (c : CallbackArg) :
  never_blocks (invoke cb a b c).
Proof. unfold invoke. flow. Qed.

(** The sequential strategy returns, whatever the services do, with at
    least one result for every job, and exactly one when no callback is
    given. *)
Lemma sequential_loop_returns (cb : option Callback) (total : nat) (jobs : list TestJob) :
  forall (i : nat) (results : list TestResult) (st : State),
  exists more st',
    sequential_loop env config i total jobs cb results st = (Ok (results ++ more), st')
    /\ (length jobs <= length more)%nat
    /\ (cb = None -> length more = length jobs).
Proof.
  induction jobs as [|job rest IH]; intros i results st; cbn [sequential_loop].
  - exists [], st. rewrite app_nil_r. repeat split; reflexivity.
  - destruct (attempt_returns (submit_test_job env job ;;
                               _wait_for_job_completion env config (id job) None)
                ltac:(apply never_blocks_bind;
                      [ apply submit_never_blocks | intros _; apply wait_never_blocks ]) st)
      as (o & st1 & E1).
    erewrite bind_ok; [ | exact E1 ].
    destruct o as [e|result].
    + erewrite bind_ok; [ | apply on_exception_eq ].
      destruct (IH (i + 1)%nat (results ++ [terminal_failure job e (now env (calls st1))])
                   (set_calls S (set_logged
                      (fun l => l ++ ["Failed to execute job " +:+ id job +:+ ": " +:+ exn_str e])
                      st1)))
        as (more & st' & E & L1 & L2).
      exists (terminal_failure job e (now env (calls st1)) :: more), st'.
      rewrite E, <- app_assoc. cbn. repeat split; [ lia | intros H; rewrite L2; auto ].
    + destruct (attempt_returns (invoke cb (i + 1) total (CbResult result))
                  (invoke_never_blocks _ _ _ _) st1) as (o2 & st2 & E2).
      destruct o2 as [e|[]].
      * erewrite bind_ok;
          [ | erewrite bind_ok; [ | exact E2 ]; apply on_exception_eq ].
        destruct (IH (i + 1)%nat
                     ((results ++ [result]) ++ [terminal_failure job e (now env (calls st2))])
                     (set_calls S (set_logged
                        (fun l => l ++ ["Failed to execute job " +:+ id job +:+ ": "
                                        +:+ exn_str e]) st2)))
          as (more & st' & E & L1 & L2).
        exists (result :: terminal_failure job e (now env (calls st2)) :: more), st'.
        rewrite E, <- !app_assoc. cbn. repeat split; [ lia | ].
        intros ->. rewrite invoke_none, attempt_eq in E2. discriminate E2.
      * erewrite bind_ok;
          [ | erewrite bind_ok; [ | exact E2 ]; reflexivity ].
        destruct (IH (i + 1)%nat (results ++ [result]) st2) as (more & st' & E & L1 & L2).
        exists (result :: more), st'.
        rewrite E, <- app_assoc. cbn. repeat split; [ lia | intros H; rewrite L2; auto ].
Qed.

(** C7, as the code has it: when the wait for a job expires under the
    sequential strategy, the timeout error is caught there and becomes the
    failed result of that job, with the text of the timeout as its
    [error_message]; the remaining jobs are executed and [execute] returns
    its [ExecutionResult]. *)
Theorem C7_timeout_becomes_failed_result (job : TestJob) (rest : list TestJob)
        (cb : option Callback) (st st1 st2 : State) (message_id text : string) :
  strategy config = SEQUENTIAL ->
  submit_test_job env job (set_calls S st) = (Ok message_id, st1) ->
  _wait_for_job_completion env config (id job) None st1 = (Raise (TimeoutError text), st2) ->
  exists er st' more,
    execute_test_suite env config (job :: rest) cb st = (Ok er, st')
    /\ results er = terminal_failure job (TimeoutError text) (now env (calls st2)) :: more
    /\ error_message (terminal_failure job (TimeoutError text) (now env (calls st2)))
       = Some text
    /\ (length rest <= length more)%nat
    /\ (1 <= failed_jobs er)%Z.
Proof.
  intros Hs Hsubmit Hwait.
  set (failure := terminal_failure job (TimeoutError text) (now env (calls st2))).
  set (line := "Failed to execute job " +:+ id job +:+ ": " +:+ exn_str (TimeoutError text)).
  destruct (sequential_loop_returns cb (length (job :: rest)) rest (0 + 1)%nat
              ([] ++ [failure]) (set_calls S (set_logged (fun l => l ++ [line]) st2)))
    as (more & st3 & E & L & _).
  assert (R : run_strategy env config (strategy config) (job :: rest) cb (set_calls S st)
              = (Ok (failure :: more), st3)).
  { rewrite Hs. unfold run_strategy, _execute_sequential. cbn [sequential_loop].
    erewrite bind_ok;
      [ | rewrite attempt_eq; erewrite bind_ok; [ | exact Hsubmit ];
          rewrite Hwait; reflexivity ].
    erewrite bind_ok; [ | apply on_exception_eq ].
    exact E. }
  eexists. exists (set_calls S st3), more.
  split; [ | split; [ | split; [ | split ] ] ].
  - unfold execute_test_suite.
    erewrite bind_ok; [ | reflexivity ].
    erewrite bind_ok; [ | exact R ].
    erewrite bind_ok; [ | reflexivity ].
    reflexivity.
  - reflexivity.
  - reflexivity.
  - exact L.
  - cbn. unfold count_failure. cbn. lia.
Qed.

Lemma queue_stats_answered (st : State) (attributes : QueueAttributes) :
  get_queue_attributes env (calls st) = inr attributes ->
  get_queue_stats env st
  = (Ok (Stats (default 0%Z (ApproximateNumberOfMessages attributes))
               (default 0%Z (ApproximateNumberOfMessagesNotVisible attributes))
               (default 0%Z (ApproximateNumberOfMessagesDelayed attributes))
               (Z.of_nat (size (active_jobs st)))
               (Z.of_nat (size (Coordinator.completed_jobs st)))),
     set_calls S st).
Proof.
  intros H. unfold get_queue_stats, try_except_client, try_except, bind, call, get, ret.
  rewrite H. reflexivity.
Qed.

Lemma queue_stats_refused (st : State) (text : string) :
  get_queue_attributes env (calls st) = inl (ClientError text) ->
  get_queue_stats env st
  = (Ok (StatsError text),
     set_logged (fun l => l ++ ["Failed to get queue stats: " +:+ text]) (set_calls S st)).
Proof.
  intros H. unfold get_queue_stats, try_except_client, try_except, bind, call, get, ret.
  rewrite H. reflexivity.
Qed.

(** C5: the backlog-adaptive strategy takes one snapshot of the queue
    statistics and hands the whole job list to one strategy: Sequential
    when more than 50 messages are available, else Bounded-parallel when
    fewer than 10 are in flight, else Batched-parallel; a count missing from
    the snapshot reads as 0. *)
Theorem C5_backlog_thresholds (jobs : list TestJob) (cb : option Callback)
        (st asked : State) (queue_stats : QueueStats) :
  get_queue_stats env st = (Ok queue_stats, asked) ->
  let available := stats_available queue_stats in
  let in_flight := stats_in_flight queue_stats in
  ((50 < available)%Z ->
   _execute_load_balanced env config jobs cb st
   = _execute_sequential env config jobs cb asked)
  /\ ((available <= 50)%Z -> (in_flight < 10)%Z ->
      _execute_load_balanced env config jobs cb st
      = _execute_parallel_functions env config jobs cb asked)
  /\ ((available <= 50)%Z -> (10 <= in_flight)%Z ->
      _execute_load_balanced env config jobs cb st
      = _execute_parallel_files env config jobs cb asked).
Proof.
  intros H available in_flight.
  assert (E : _execute_load_balanced env config jobs cb st
              = (if (available >? 50)%Z then _execute_sequential env config jobs cb
                 else if (in_flight <? 10)%Z
                      then _execute_parallel_functions env config jobs cb
                      else _execute_parallel_files env config jobs cb) asked).
  { unfold _execute_load_balanced.
    erewrite bind_ok; [ | exact H ].
    fold available in_flight.
    destruct (available >? 50)%Z; [ reflexivity | ].
    destruct (in_flight <? 10)%Z; reflexivity. }
  rewrite E. repeat split.
  - intros Ha. destruct (Z.gtb_spec available 50); [ reflexivity | lia ].
  - intros Ha Hf. destruct (Z.gtb_spec available 50); [ lia | ].
    destruct (Z.ltb_spec in_flight 10); [ reflexivity | lia ].
  - intros Ha Hf. destruct (Z.gtb_spec available 50); [ lia | ].
    destruct (Z.ltb_spec in_flight 10); [ lia | reflexivity ].
Qed.

(** *** The batched strategy returns one result per job *)

Lemma submit_all_returns (batch : list TestJob) :
  forall st, exists rs st', submit_all env batch st = (Ok rs, st').
Proof.
  induction batch as [|job rest IH]; intros st; cbn [submit_all].
  - eexists _, _. reflexivity.
  - destruct (attempt_returns (submit_test_job env job) (submit_never_blocks job) st)
      as (o & st1 & E1).
    destruct (IH st1) as (rs & st2 & E2).
    eexists _, _.
    erewrite bind_ok; [ | exact E1 ].
    erewrite bind_ok; [ | exact E2 ].
    reflexivity.
Qed.

Lemma wait_all_returns (batch : list TestJob) :
  forall st, exists rs st',
    wait_all env config batch st = (Ok rs, st') /\ length rs = length batch.
Proof.
  induction batch as [|job rest IH]; intros st; cbn [wait_all].
  - eexists _, _. split; reflexivity.
  - destruct (attempt_returns (_wait_for_job_completion env config (id job) None)
                (wait_never_blocks _ _) st) as (o & st1 & E1).
    destruct (IH st1) as (rs & st2 & E2 & L).
    exists (o :: rs), st2. split; [ | cbn; rewrite L; reflexivity ].
    erewrite bind_ok; [ | exact E1 ].
    erewrite bind_ok; [ | exact E2 ].
    reflexivity.
Qed.

Lemma process_results_returns (batch : list TestJob) :
  forall (batch_results : list (Exn + TestResult)) (results : list TestResult) (st : State),
    length batch_results = length batch ->
    exists more st',
      process_results env batch batch_results results st = (Ok (results ++ more), st')
      /\ length more = length batch.
Proof.
  induction batch as [|job rest IH]; intros brs results st L.
  - destruct brs; [ | discriminate L ].
    exists [], st. rewrite app_nil_r. split; reflexivity.
  - destruct brs as [|[e|r] brs]; [ discriminate L | | ]; cbn in L; injection L as L;
      cbn [process_results].
    + destruct (IH brs (results ++ [terminal_failure job e (now env (calls st))])
                   (set_calls S (set_logged
                      (fun l => l ++ ["Job " +:+ id job +:+ " failed: " +:+ exn_str e]) st)) L)
        as (more & st' & E & Lm).
      exists (terminal_failure job e (now env (calls st)) :: more), st'.
      split; [ | cbn; rewrite Lm; reflexivity ].
      erewrite bind_ok; [ | reflexivity ].
      erewrite bind_ok; [ | reflexivity ].
      rewrite <- app_assoc in E. exact E.
    + destruct (IH brs (results ++ [r]) st L) as (more & st' & E & Lm).
      exists (r :: more), st'.
      split; [ | cbn; rewrite Lm; reflexivity ].
      rewrite <- app_assoc in E. exact E.
Qed.

Lemma files_loop_returns (jobs : list TestJob) (starts : list nat) :
  forall (results : list TestResult) (st : State),
  exists more st',
    files_loop env config starts jobs None results st = (Ok (results ++ more), st')
    /\ length more
       = list_sum (List.map (fun s => length (take (Z.to_nat (batch_size config))
                                                   (drop s jobs))) starts).
Proof.
  induction starts as [|s rest IH]; intros results st; cbn [files_loop].
  - exists [], st. rewrite app_nil_r. split; reflexivity.
  - set (batch := take (Z.to_nat (batch_size config)) (drop s jobs)).
    destruct (submit_all_returns batch st) as (ms & st1 & E1).
    destruct (wait_all_returns batch st1) as (brs & st2 & E2 & L2).
    destruct (process_results_returns batch brs results st2 L2) as (new & st3 & E3 & L3).
    destruct (IH (results ++ new) st3) as (more & st4 & E4 & L4).
    exists (new ++ more), st4. split.
    + erewrite bind_ok; [ | exact E1 ].
      erewrite bind_ok; [ | exact E2 ].
      erewrite bind_ok; [ | exact E3 ].
      rewrite invoke_none, bind_ret, E4, <- app_assoc. reflexivity.
    + rewrite length_app, L3, L4. reflexivity.
Qed.

Lemma chunk_lengths_upto (n b m : nat) :
  list_sum (List.map (fun s => Nat.min b (n - s)) (List.map (fun k => k * b)%nat (seq 0 m)))
  = Nat.min n (m * b).
Proof.
  induction m as [|m IH]; [ cbn; lia | ].
  rewrite seq_S, !map_app, list_sum_app, IH. cbn [List.map list_sum plus].
  change (S m * b)%nat with (b + m * b)%nat.
  generalize (m * b)%nat. intros x. cbn. lia.
Qed.

Lemma chunks_cover (jobs : list TestJob) (b : nat) :
  (0 < b)%nat ->
  list_sum (List.map (fun s => length (take b (drop s jobs))) (range_step (length jobs) b))
  = length jobs.
Proof.
  intros Hb. unfold range_step.
  erewrite map_ext; [ | intros s; rewrite length_take, length_drop; reflexivity ].
  rewrite chunk_lengths_upto.
  assert (length jobs <= (length jobs + b - 1) / b * b)%nat; [ | lia ].
  pose proof (Nat.div_mod_eq (length jobs + b - 1) b) as D.
  pose proof (Nat.mod_upper_bound (length jobs + b - 1) b ltac:(lia)) as U.
  nia.
Qed.

Lemma parallel_files_returns (jobs : list TestJob) (st : State) :
  (0 < batch_size config)%Z ->
  exists rs st',
    _execute_parallel_files env config jobs None st = (Ok rs, st')
    /\ length rs = length jobs.
Proof.
  intros Hb. unfold _execute_parallel_files, py_range.
  destruct (Z.eqb_spec (batch_size config) 0) as [E0|_]; [ lia | ].
  destruct (Z.ltb_spec (batch_size config) 0) as [E1|_]; [ lia | ].
  rewrite bind_ret.
  destruct (files_loop_returns jobs (range_step (length jobs) (Z.to_nat (batch_size config)))
              [] st) as (more & st' & E & L).
  exists more, st'. split; [ exact E | ].
  rewrite L. apply chunks_cover. lia.
Qed.

(** *** The bounded strategy returns one result per job *)

Lemma execute_single_job_returns (job : TestJob) (st : State) :
  exists r st', execute_single_job env config job st = (Ok r, st').
Proof.
  unfold execute_single_job, try_except.
  pose proof (never_blocks_bind (submit_test_job env job)
                (fun _ => _wait_for_job_completion env config (id job) None)
                (submit_never_blocks job) (fun _ => wait_never_blocks _ _) st) as Hn.
  destruct ((submit_test_job env job ;; _wait_for_job_completion env config (id job) None) st)
    as [[r|e|] st1].
  - eexists _, _. reflexivity.
  - eexists _, _. reflexivity.
  - exfalso. apply Hn. reflexivity.
Qed.

Lemma run_tasks_returns (jobs : list TestJob) :
  forall st, exists rs st',
    run_tasks env config jobs st = (Ok rs, st') /\ length rs = length jobs.
Proof.
  induction jobs as [|job rest IH]; intros st; cbn [run_tasks].
  - eexists _, _. split; reflexivity.
  - destruct (execute_single_job_returns job st) as (r & st1 & E1).
    destruct (IH st1) as (rs & st2 & E2 & L).
    exists (r :: rs), st2. split; [ | cbn; rewrite L; reflexivity ].
    erewrite bind_ok; [ | exact E1 ].
    erewrite bind_ok; [ | exact E2 ].
    reflexivity.
Qed.

Lemma completion_loop_none (done : list TestResult) :
  forall (i total : nat) (results : list TestResult) (st : State),
    completion_loop i total done None results st = (Ok (results ++ done), st).
Proof.
  induction done as [|r rest IH]; intros i total results st; cbn [completion_loop].
  - rewrite app_nil_r. reflexivity.
  - rewrite invoke_none, bind_ret, IH, <- app_assoc. reflexivity.
Qed.

Lemma insert_by_rank_length {A} (x : nat * A) (l : list (nat * A)) :
  length (insert_by_rank x l) = S (length l).
Proof.
  induction l as [|y l IH]; cbn [insert_by_rank]; [ reflexivity | ].
  destruct (fst y <? fst x)%nat; cbn; [ rewrite IH | ]; reflexivity.
Qed.

Lemma as_completed_length {A} (rank : nat -> nat) (tasks : list A) :
  length (as_completed rank tasks) = length tasks.
Proof.
  unfold as_completed. rewrite length_map.
  assert (H : forall l : list (nat * A),
             length (fold_right insert_by_rank [] l) = length l).
  { induction l as [|x l IH]; cbn [fold_right]; [ reflexivity | ].
    rewrite insert_by_rank_length, IH. reflexivity. }
  rewrite H, length_map, length_imap. reflexivity.
Qed.

Lemma parallel_functions_returns (jobs : list TestJob) (st : State) :
  (0 < max_workers config)%Z ->
  exists rs st',
    _execute_parallel_functions env config jobs None st = (Ok rs, st')
    /\ length rs = length jobs.
Proof.
  intros Hw. unfold _execute_parallel_functions.
  destruct (Z.ltb_spec (max_workers config) 0) as [E0|_]; [ lia | ].
  destruct jobs as [|job rest]; [ eexists _, _; split; reflexivity | ].
  destruct (Z.eqb_spec (max_workers config) 0) as [E1|_]; [ lia | ].
  destruct (run_tasks_returns (job :: rest) st) as (rs & st1 & E & L).
  eexists _, _. split.
  - erewrite bind_ok; [ | exact E ].
    erewrite bind_ok; [ | reflexivity ].
    apply completion_loop_none.
  - cbn [app]. rewrite as_completed_length. exact L.
Qed.

(** *** The tiers of the hybrid strategy *)

Lemma group_fold_lookup (jobs : list TestJob) :
  forall (acc : gmap Z (list TestJob)) (p : Z),
    fold_left
      (fun groups job =>
         <[priority job := default [] (groups !! priority job) ++ [job]]> groups)
      jobs acc !! p
    = match tier p jobs with
      | [] => acc !! p
      | l => Some (default [] (acc !! p) ++ l)
      end.
Proof.
  induction jobs as [|job rest IH]; intros acc p; [ reflexivity | ].
  cbn [fold_left]. rewrite IH. unfold tier. cbn [List.filter].
  destruct (Z.eqb_spec (priority job) p) as [ -> | Hne ].
  - rewrite lookup_insert_eq. cbn [default from_option]. unfold Datatypes.id.
    destruct (List.filter _ rest); [ reflexivity | ].
    rewrite <- app_assoc. reflexivity.
  - rewrite lookup_insert_ne by exact Hne. reflexivity.
Qed.

Lemma group_lookup (jobs : list TestJob) (p : Z) :
  group_by_priority jobs !! p
  = match tier p jobs with [] => None | l => Some l end.
Proof.
  unfold group_by_priority. rewrite group_fold_lookup, lookup_empty.
  destruct (tier p jobs); reflexivity.
Qed.

Lemma tier_of_tiered (jobs : list TestJob) (p : Z) :
  p = 1%Z \/ p = 2%Z \/ p = 3%Z ->
  tier p (List.filter in_tier jobs) = tier p jobs.
Proof.
  intros Hp. unfold tier, in_tier.
  induction jobs as [|job rest IH]; [ reflexivity | ].
  cbn [List.filter].
  destruct (Z.eqb_spec (priority job) p) as [E|Hne].
  - assert (T : (priority job =? 1)%Z || (priority job =? 2)%Z || (priority job =? 3)%Z = true).
    { destruct Hp as [ -> | [ -> | -> ] ]; rewrite E; reflexivity. }
    rewrite T. cbn [List.filter].
    destruct (Z.eqb_spec (priority job) p); [ | contradiction ].
    rewrite IH. reflexivity.
  - destruct ((priority job =? 1)%Z || (priority job =? 2)%Z || (priority job =? 3)%Z);
      [ cbn [List.filter]; destruct (Z.eqb_spec (priority job) p); [ contradiction | ] | ];
      exact IH.
Qed.

Lemma tiered_length (jobs : list TestJob) :
  length (List.filter in_tier jobs)
  = (length (tier 1 jobs) + length (tier 2 jobs) + length (tier 3 jobs))%nat.
Proof.
  unfold tier, in_tier. induction jobs as [|job rest IH]; [ reflexivity | ].
  cbn [List.filter].
  destruct (Z.eqb_spec (priority job) 1) as [E1|N1];
    destruct (Z.eqb_spec (priority job) 2) as [E2|N2];
    destruct (Z.eqb_spec (priority job) 3) as [E3|N3];
    cbn [orb length]; try lia.
Qed.

Lemma run_tier_returns (jobs : list TestJob) (p : Z)
      (run : list TestJob -> option Callback -> M (list TestResult))
      (results : list TestResult) (st : State) :
  (forall l st, exists rs st', run l None st = (Ok rs, st') /\ length rs = length l) ->
  exists more st',
    run_tier (group_by_priority jobs) p run results st = (Ok (results ++ more), st')
    /\ length more = length (tier p jobs).
Proof.
  intros Hrun. unfold run_tier. rewrite group_lookup.
  destruct (tier p jobs) as [|job rest] eqn:T.
  - exists [], st. rewrite app_nil_r. split; reflexivity.
  - destruct (Hrun (job :: rest) st) as (rs & st' & E & L).
    exists rs, st'. split; [ | exact L ].
    erewrite bind_ok; [ | exact E ]. reflexivity.
Qed.

Lemma hybrid_returns (jobs : list TestJob) (cb : option Callback) (st : State) :
  (0 < batch_size config)%Z ->
  (0 < max_workers config)%Z ->
  exists rs st',
    _execute_hybrid env config jobs cb st = (Ok rs, st')
    /\ length rs = length (List.filter in_tier jobs).
Proof.
  intros Hb Hw. unfold _execute_hybrid.
  destruct (run_tier_returns jobs 1 (_execute_sequential env config) [] st)
    as (r1 & st1 & E1 & L1).
  { intros l s. unfold _execute_sequential.
    destruct (sequential_loop_returns None (length l) l 0%nat [] s) as (more & s' & E & _ & L).
    exists more, s'. split; [ exact E | apply L; reflexivity ]. }
  destruct (run_tier_returns jobs 2 (_execute_parallel_files env config) ([] ++ r1) st1)
    as (r2 & st2 & E2 & L2).
  { intros l s. apply parallel_files_returns, Hb. }
  destruct (run_tier_returns jobs 3 (_execute_parallel_functions env config)
              (([] ++ r1) ++ r2) st2) as (r3 & st3 & E3 & L3).
  { intros l s. apply parallel_functions_returns, Hw. }
  eexists _, _. split.
  - erewrite bind_ok; [ | exact E1 ].
    erewrite bind_ok; [ | exact E2 ].
    erewrite bind_ok; [ | exact E3 ].
    reflexivity.
  - rewrite !length_app, L1, L2, L3, tiered_length. cbn. lia.
Qed.

Lemma hybrid_ignores_other_priorities (jobs : list TestJob) (cb : option Callback) :
  _execute_hybrid env config jobs cb
  = _execute_hybrid env config (List.filter in_tier jobs) cb.
Proof.
  unfold _execute_hybrid, run_tier.
  rewrite !group_lookup, !tier_of_tiered by auto. reflexivity.
Qed.

Lemma counts_add_up (rs : list TestResult) :
  (count_success rs + count_failure rs)%nat = length rs.
Proof.
  unfold count_success, count_failure.
  induction rs as [|r rs IH]; [ reflexivity | ].
  cbn [List.filter]. destruct (success r); cbn [negb length]; lia.
Qed.

(** C10: under the hybrid strategy the jobs whose priority is not 1, 2 or 3
    are in none of the three tiers that are run; the call does exactly what
    it does without them; there is one result for every job of the three
    tiers and none besides, so [total_jobs] counts every job while
    [completed_jobs + failed_jobs] counts the tiered ones only, and the sum
    is smaller than [total_jobs] as soon as one job has another priority. *)
Theorem C10_hybrid_drops_other_priorities (jobs : list TestJob) (cb : option Callback)
        (st : State) :
  strategy config = HYBRID ->
  (0 < batch_size config)%Z ->
  (0 < max_workers config)%Z ->
  let tiered := List.filter in_tier jobs in
  (forall p, p = 1%Z \/ p = 2%Z \/ p = 3%Z ->
             group_by_priority jobs !! p
             = match tier p jobs with [] => None | l => Some l end)
  /\ _execute_hybrid env config jobs cb = _execute_hybrid env config tiered cb
  /\ exists er st',
      execute_test_suite env config jobs cb st = (Ok er, st')
      /\ total_jobs er = Z.of_nat (length jobs)
      /\ length (results er) = length tiered
      /\ (completed_jobs er + failed_jobs er)%Z = Z.of_nat (length tiered)
      /\ ((exists job, In job jobs /\ in_tier job = false) ->
          (completed_jobs er + failed_jobs er < total_jobs er)%Z).
Proof.
  intros Hs Hb Hw tiered.
  split; [ intros p _; apply group_lookup | ].
  split; [ apply hybrid_ignores_other_priorities | ].
  destruct (hybrid_returns jobs cb (set_calls S st) Hb Hw) as (rs & st1 & E & L).
  eexists. exists (set_calls S st1).
  split; [ | split; [ | split; [ | split ] ] ].
  - unfold execute_test_suite.
    erewrite bind_ok; [ | reflexivity ].
    erewrite bind_ok; [ | rewrite Hs; exact E ].
    erewrite bind_ok; [ | reflexivity ].
    reflexivity.
  - reflexivity.
  - exact L.
  - cbn [completed_jobs failed_jobs]. fold tiered in L. rewrite <- L, <- counts_add_up. lia.
  - intros (job & Hin & Hout). cbn [completed_jobs failed_jobs total_jobs].
    pose proof (counts_add_up rs) as C. fold tiered in L.
    assert (length tiered < length jobs)%nat; [ | lia ].
    unfold tiered. clear - Hin Hout.
    induction jobs as [|j rest IH]; [ destruct Hin | ].
    cbn [List.filter length]. destruct Hin as [->|Hin].
    + rewrite Hout. pose proof (filter_length_le in_tier rest). lia.
    + specialize (IH Hin). destruct (in_tier j); cbn [length]; lia.
Qed.

End ExecutorFacts.

(** An instance of C2: the store refuses the result of the processing step
    at each of the four deliveries and accepts the failed result. *)
Lemma C2_fourth_failure_instance :
  let env := store_outage_env [6; 14; 22; 30]%nat (ClientError "SlowDown") in
  let job := job_of "job-1" 1 0 3 in
  let st0 := snd (submit_test_job env job init) in
  let after n := snd (consume env (repeat 0%nat n) st0) in
  (failed_writes (after 3%nat) = []
   /\ List.map Body (queue (after 3%nat)) = [ Some (with_retry_count 3 job) ])
  /\ (exists e t,
         failed_writes (after 4%nat)
         = [ (id job, terminal_failure (with_retry_count 3 job) e t) ])
  /\ queue (after 4%nat) = []
  /\ (forall schedule,
         let st := snd (consume env schedule (after 4%nat)) in
         bucket st = bucket (after 4%nat) /\ queue st = [] /\ next_handle st = 4%nat).
Proof.
  intros env job.
  apply (C2_fourth_failure_is_terminal env job "msg-0").
  - reflexivity.
  - reflexivity.
  - vm_compute. reflexivity.
  - vm_compute. repeat split; eexists _, _; split; reflexivity.
Defined.

(** C2 as worded fails: after three failed deliveries of a job created with
    [retry_count = 0] and [max_retries = 3] no result has been written, and
    the job is on the queue for a fourth delivery. *)
Lemma C2_three_failures_leave_no_result :
  let env := store_outage_env [6; 14; 22; 30]%nat (ClientError "SlowDown") in
  let job := job_of "job-1" 1 0 3 in
  let st := snd (consume env [0; 0; 0]%nat (snd (submit_test_job env job init))) in
  List.filter (String.eqb "Error processing job: SlowDown") (logged st)
  = [ "Error processing job: SlowDown";
      "Error processing job: SlowDown";
      "Error processing job: SlowDown" ]
  /\ bucket st = []
  /\ List.map Body (queue st) = [ Some (job_of "job-1" 1 3 3) ].
Proof. vm_compute. repeat split. Qed.

Lemma batch_outage_answers_sane (k : nat) : answers_sane (batch_outage_env k).
Proof.
  intros n entries response H s Hs. cbn in H.
  destruct (Nat.eqb n k); [ discriminate H | ].
  injection H as <-. cbn in Hs. apply in_map_iff in Hs as (e & <- & He).
  exists e. split; [ exact He | reflexivity ].
Qed.


(** An instance of C6: 25 jobs, and a queue whose second call is refused. *)
Lemma C6_outage_instance :
  let env := batch_outage_env 1 in
  let jobs := numbered_jobs 25 in
  let out := submit_batch_jobs env jobs init in
  fst out = Raise (ClientError "ServiceUnavailable")
  /\ sent_batches (snd out) = [ chunk_entries jobs 0; chunk_entries jobs 10 ]
  /\ logged (snd out) = [ "Failed to submit job batch: ServiceUnavailable" ].
Proof.
  intros env jobs out.
  pose proof (C6_outage_ends_batch_submission env jobs init (batch_outage_answers_sane 1)
                (fun n name => or_introl eq_refl)) as H.
  cbv zeta in H.
  assert (F : first_outage env jobs (calls init)
                           (range_step (length jobs) Coordinator.batch_size)
              = Some (1%nat, ClientError "ServiceUnavailable")) by (vm_compute; reflexivity).
  rewrite F in H. destruct H as [(R & S1 & L) _].
  split; [ exact R | ]. split.
  - unfold out. rewrite S1. reflexivity.
  - unfold out. rewrite L. vm_compute. reflexivity.
Defined.

(** C6 as worded fails: with 25 jobs and a queue that refuses the second
    call only, the first chunk is accepted, the error is raised all the
    same, and the third chunk, which the queue would accept, is never
    sent. *)
Lemma C6_outage_aborts_later_chunks :
  let env := batch_outage_env 1 in
  let jobs := numbered_jobs 25 in
  let out := submit_batch_jobs env jobs init in
  fst out = Raise (ClientError "ServiceUnavailable")
  /\ length (sent_batches (snd out)) = 2%nat
  /\ size (active_jobs (snd out)) = 10%nat
  /\ (exists response, send_message_batch env 2 (chunk_entries jobs 20) = inr response).
Proof.
  cbv zeta. split; [ vm_compute; reflexivity | ].
  split; [ vm_compute; reflexivity | ].
  split; [ vm_compute; reflexivity | ].
  eexists. reflexivity.
Qed.


(** The scenarios of C5: 60 available; 5 available and 2 in flight; 20
    available and 15 in flight. *)
Lemma C5_backlog_scenarios :
  let config := config_of LOAD_BALANCED 1 in
  let jobs := numbered_jobs 2 in
  _execute_load_balanced (loaded_env 60 0) config jobs None init
  = _execute_sequential (loaded_env 60 0) config jobs None (set_calls S init)
  /\ _execute_load_balanced (loaded_env 5 2) config jobs None init
     = _execute_parallel_functions (loaded_env 5 2) config jobs None (set_calls S init)
  /\ _execute_load_balanced (loaded_env 20 15) config jobs None init
     = _execute_parallel_files (loaded_env 20 15) config jobs None (set_calls S init).
Proof.
  intros config jobs.
  pose proof (C5_backlog_thresholds (loaded_env 60 0) config jobs None init
                (set_calls S init) (Stats 60 0 0 0 0) eq_refl) as A.
  pose proof (C5_backlog_thresholds (loaded_env 5 2) config jobs None init
                (set_calls S init) (Stats 5 2 0 0 0) eq_refl) as B.
  pose proof (C5_backlog_thresholds (loaded_env 20 15) config jobs None init
                (set_calls S init) (Stats 20 15 0 0 0) eq_refl) as C.
  cbv zeta in A, B, C.
  destruct A as (A & _ & _). destruct B as (_ & B & _). destruct C as (_ & _ & C).
  split; [ apply A; cbn; lia | ].
  split; [ apply B; cbn; lia | apply C; cbn; lia ].
Defined.

(** C7 as worded fails: under the sequential strategy a job that nobody
    processes within the two seconds of the timeout does not make [execute]
    raise; [execute] returns, and the timeout is the [error_message] of the
    failed result of that job. *)
Lemma C7_timeout_is_not_raised :
  let out := execute_test_suite quiet_env (config_of SEQUENTIAL 2)
                                [job_of "job-1" 1 0 3] None init in
  exists er,
    fst out = Ok er
    /\ List.map (fun r => (job_id r, success r, error_message r)) (results er)
       = [ ("job-1", false, Some "Job job-1 did not complete within 2 seconds") ]
    /\ failed_jobs er = 1%Z.
Proof.
  cbv zeta. eexists. split; [ vm_compute; reflexivity | ].
  split; vm_compute; reflexivity.
Qed.

(** An instance of C7: the same job and timeout. *)
Lemma C7_timeout_instance :
  let config := config_of SEQUENTIAL 2 in
  let job := job_of "job-1" 1 0 3 in
  let st1 := snd (submit_test_job quiet_env job (set_calls S init)) in
  let st2 := snd (_wait_for_job_completion quiet_env config (id job) None st1) in
  let text := "Job job-1 did not complete within 2 seconds" in
  exists er st' more,
    execute_test_suite quiet_env config [job] None init = (Ok er, st')
    /\ results er = terminal_failure job (TimeoutError text) (now quiet_env (calls st2)) :: more
    /\ error_message (terminal_failure job (TimeoutError text) (now quiet_env (calls st2)))
       = Some text
    /\ (length (@nil TestJob) <= length more)%nat
    /\ (1 <= failed_jobs er)%Z.
Proof.
  intros config job st1 st2 text.
  apply (C7_timeout_becomes_failed_result quiet_env config job [] None init st1 st2
           "msg-1" text).
  - reflexivity.
  - vm_compute. reflexivity.
  - vm_compute. reflexivity.
Defined.

(** An instance of C10: five jobs, the third of priority 5 and the last of
    priority 0, so three results for five jobs. *)
Lemma C10_hybrid_instance :
  let config := {| strategy := HYBRID; max_workers := 4; timeout_seconds := 1;
                   retry_attempts := 3; batch_size := 10;
                   priority_levels := [1; 2; 3]%Z |} in
  let jobs := [ job_of "a" 1 0 3; job_of "b" 2 0 3; job_of "c" 5 0 3;
                job_of "d" 3 0 3; job_of "e" 0 0 3 ] in
  exists er st',
    execute_test_suite quiet_env config jobs None init = (Ok er, st')
    /\ total_jobs er = 5%Z
    /\ length (results er) = 3%nat
    /\ (completed_jobs er + failed_jobs er)%Z = 3%Z
    /\ (completed_jobs er + failed_jobs er < total_jobs er)%Z.
Proof.
  intros config jobs.
  destruct (C10_hybrid_drops_other_priorities quiet_env config jobs None init
              eq_refl ltac:(cbn; lia) ltac:(cbn; lia))
    as (_ & _ & er & st' & E & T & L & C & D).
  exists er, st'. split; [ exact E | ].
  split; [ exact T | ]. split; [ exact L | ]. split; [ exact C | ].
  apply D. exists (job_of "c" 5 0 3). split; [ cbn; auto | reflexivity ].
Defined.

(** * Further properties *)

(** ** Letter case in the routing of an error *)

Section LetterCase.

Lemma lower_ascii_idempotent (c : ascii) :
  PyStr.lower_ascii (PyStr.lower_ascii c) = PyStr.lower_ascii c.
Proof. destruct c as [[] [] [] [] [] [] [] []]; reflexivity. Qed.

Lemma newline_lower (c : ascii) :
  Ascii.eqb (PyStr.lower_ascii c) (ascii_of_nat 10) = Ascii.eqb c (ascii_of_nat 10).
Proof. destruct c as [[] [] [] [] [] [] [] []]; reflexivity. Qed.

Lemma is_digit_lower (c : ascii) : Re.is_digit (PyStr.lower_ascii c) = Re.is_digit c.
Proof. destruct c as [[] [] [] [] [] [] [] []]; reflexivity. Qed.

Lemma deriv_lower (c : ascii) (r : Re.regex) :
  Re.deriv (PyStr.lower_ascii c) r = Re.deriv c r.
Proof.
  induction r as [ | | a | | | r1 IH1 r2 IH2 | r1 IH1 r2 IH2 | r1 IH1 ]; cbn [Re.deriv].
  - reflexivity.
  - reflexivity.
  - rewrite lower_ascii_idempotent. reflexivity.
  - rewrite newline_lower. reflexivity.
  - rewrite is_digit_lower. reflexivity.
  - rewrite IH1, IH2. reflexivity.
  - rewrite IH1, IH2. reflexivity.
  - rewrite IH1. reflexivity.
Qed.

Lemma match_here_lower (s : list ascii) :
  forall r, Re.match_here r (List.map PyStr.lower_ascii s) = Re.match_here r s.
Proof.
  induction s as [|c s IH]; intros r; cbn [Re.match_here List.map]; [ reflexivity | ].
  rewrite deriv_lower, IH. reflexivity.
Qed.

Lemma search_from_lower (r : Re.regex) (s : list ascii) :
  Re.search_from r (List.map PyStr.lower_ascii s) = Re.search_from r s.
Proof.
  induction s as [|c s IH]; [ reflexivity | ].
  cbn [Re.search_from List.map].
  change (PyStr.lower_ascii c :: List.map PyStr.lower_ascii s)
    with (List.map PyStr.lower_ascii (c :: s)).
  rewrite match_here_lower, IH. reflexivity.
Qed.

Lemma chars_of_lower (s : string) :
  list_ascii_of_string (PyStr.lower s) = List.map PyStr.lower_ascii (list_ascii_of_string s).
Proof. induction s as [|c s IH]; cbn; [ reflexivity | rewrite IH; reflexivity ]. Qed.

Lemma search_lower (pattern text : string) :
  Re.search pattern (PyStr.lower text) = Re.search pattern text.
Proof.
  unfold Re.search. destruct (Re.compile pattern); [ | reflexivity ].
  rewrite chars_of_lower. apply search_from_lower.
Qed.

Lemma length_lower (s : string) : String.length (PyStr.lower s) = String.length s.
Proof. induction s as [|c s IH]; cbn; [ reflexivity | rewrite IH; reflexivity ]. Qed.

Lemma any_search_same_letters (patterns : list string) (m1 m2 : string) :
  PyStr.lower m1 = PyStr.lower m2 -> any_search patterns m1 = any_search patterns m2.
Proof.
  intros H. unfold any_search.
  induction patterns as [|p rest IH]; cbn [existsb]; [ reflexivity | ].
  rewrite <- (search_lower p m1), <- (search_lower p m2), H, IH. reflexivity.
Qed.

Lemma scan_patterns_same_letters (items : list (ErrorType * list string)) (m1 m2 : string) :
  PyStr.lower m1 = PyStr.lower m2 -> scan_patterns items m1 = scan_patterns items m2.
Proof.
  intros H. induction items as [|[t ps] rest IH]; cbn [scan_patterns]; [ reflexivity | ].
  rewrite (any_search_same_letters ps m1 m2 H), IH. reflexivity.
Qed.

Lemma scan_severity_same_letters (items : list (ErrorSeverity * list string)) (m1 m2 : string) :
  PyStr.lower m1 = PyStr.lower m2 -> scan_severity items m1 = scan_severity items m2.
Proof.
  intros H. induction items as [|[t ps] rest IH]; cbn [scan_severity]; [ reflexivity | ].
  rewrite (any_search_same_letters ps m1 m2 H), IH. reflexivity.
Qed.

(** X1: two messages that differ only in the case of their letters are
    routed alike: same type, severity, complexity, model and priority. *)
Theorem routing_ignores_letter_case (m1 m2 : string) (context : ErrorContext) :
  PyStr.lower m1 = PyStr.lower m2 ->
  route_error m1 context = route_error m2 context.
Proof.
  intros H.
  assert (T : _classify_error_type m1 context = _classify_error_type m2 context).
  { unfold _classify_error_type.
    rewrite (any_search_same_letters (patterns_of TYPESCRIPT) m1 m2 H),
            (any_search_same_letters (patterns_of TEST) m1 m2 H),
            (scan_patterns_same_letters error_patterns m1 m2 H).
    reflexivity. }
  assert (S : _classify_severity m1 context = _classify_severity m2 context).
  { unfold _classify_severity.
    rewrite (scan_severity_same_letters severity_patterns m1 m2 H). reflexivity. }
  assert (C : _determine_complexity m1 context = _determine_complexity m2 context).
  { unfold _determine_complexity. rewrite H.
    rewrite <- (length_lower m1), <- (length_lower m2), H. reflexivity. }
  unfold route_error, classify_error. rewrite T, S, C. reflexivity.
Qed.

Lemma routing_ignores_letter_case_instance :
  route_error "ts2345: argument of TYPE 'string' is NOT assignable" (context_of "src/app.ts")
  = route_error "TS2345: Argument of type 'string' is not assignable" (context_of "src/app.ts").
Proof. apply routing_ignores_letter_case. reflexivity. Defined.

End LetterCase.

(** ** Compiler codes, scores and models *)

Section Routing.
Local Open Scope Q_scope.

(** X2: a message that carries a compiler code ([TS] and digits, then a
    colon) is always critical; its type is type-system in a [ts] or [tsx]
    file, and elsewhere type-system or, for a test file with a test match,
    test. *)
Theorem compiler_code_is_critical (error_message : string) (context : ErrorContext) :
  Re.search "TS\d+:" error_message = true ->
  _classify_severity error_message context = CRITICAL
  /\ (file_ext context = "ts"%string \/ file_ext context = "tsx"%string ->
      classify_error error_message context = (TYPESCRIPT, CRITICAL))
  /\ (_classify_error_type error_message context = TYPESCRIPT
      \/ _classify_error_type error_message context = TEST).
Proof.
  intros H.
  assert (S : _classify_severity error_message context = CRITICAL).
  { unfold _classify_severity, severity_patterns. cbn [scan_severity].
    unfold any_search at 1. cbn [existsb]. rewrite H, !orb_true_r. reflexivity. }
  assert (T : any_search (patterns_of TYPESCRIPT) error_message = true).
  { unfold any_search. change (patterns_of TYPESCRIPT)
      with ("TS\d+:"%string :: List.tail (patterns_of TYPESCRIPT)).
    cbn [existsb]. rewrite H. reflexivity. }
  split; [ exact S | ]. split.
  - intros E. unfold classify_error. rewrite S. f_equal.
    unfold _classify_error_type. rewrite T.
    destruct E as [-> | ->]; reflexivity.
  - unfold _classify_error_type. rewrite T, andb_true_r.
    destruct (String.eqb (file_ext context) "ts" || String.eqb (file_ext context) "tsx");
      [ left; reflexivity | ].
    destruct ((PyStr.contains "test" (PyStr.lower (file_path context))
               || PyStr.contains "spec" (PyStr.lower (file_path context)))
              && any_search (patterns_of TEST) error_message);
      [ right; reflexivity | ].
    left. unfold error_patterns. cbn [scan_patterns].
    change (any_search _ error_message) with (any_search (patterns_of TYPESCRIPT) error_message)
      at 1.
    rewrite T. reflexivity.
Qed.

Lemma compiler_code_is_critical_instance :
  classify_error "src/a.tsx(3,1): error TS7006: Parameter 'x' implicitly has an 'any' type."
                 (context_of "src/a.tsx")
  = (TYPESCRIPT, CRITICAL).
Proof.
  apply (compiler_code_is_critical _ (context_of "src/a.tsx")).
  - vm_compute. reflexivity.
  - right. vm_compute. reflexivity.
Defined.

(** X3: for a given type and context the score falls strictly as the
    severity ordinal rises, and every score lies between 4.8 (a low lint
    error) and 14.04 (a critical build error on a critical path). *)
Theorem score_falls_with_severity (error_type : ErrorType) (s1 s2 : ErrorSeverity)
        (context : ErrorContext) :
  (severity_value s1 < severity_value s2)%Z ->
  calculate_priority_score error_type s2 context
  < calculate_priority_score error_type s1 context
  /\ 48 # 10 <= calculate_priority_score error_type s2 context
  /\ calculate_priority_score error_type s1 context <= 1404 # 100.
Proof.
  intros H. rewrite !priority_score_unfold.
  destruct (on_critical_path context), error_type, s1, s2;
    cbn in H; try lia;
    (split; [ vm_compute; reflexivity
            | split; vm_compute; discriminate ]).
Qed.

Lemma score_falls_with_severity_instance :
  calculate_priority_score LINT LOW (context_of "lib/a.js")
  < calculate_priority_score LINT CRITICAL (context_of "lib/a.js")
  /\ 48 # 10 <= calculate_priority_score LINT LOW (context_of "lib/a.js")
  /\ calculate_priority_score LINT CRITICAL (context_of "lib/a.js") <= 1404 # 100.
Proof.
  apply (score_falls_with_severity LINT CRITICAL LOW (context_of "lib/a.js")).
  cbn. lia.
Defined.

Lemma complexity_is_a_key (error_message : string) (context : ErrorContext) :
  _determine_complexity error_message context = "simple"%string
  \/ _determine_complexity error_message context = "complex"%string
  \/ _determine_complexity error_message context = "advanced"%string.
Proof.
  unfold _determine_complexity.
  destruct (any_indicator advanced_indicators _); [ auto | ].
  destruct (any_indicator complex_indicators _); [ auto | ].
  destruct (any_indicator simple_indicators _); [ auto | ].
  destruct (_ || _); auto.
Qed.

(** X4: the model suggested for an error is always read from the table,
    under the type and one of the three complexities; the fallback of
    [recommend_model] serves only a complexity that is none of the three,
    and for every type the models do not shrink from simple to complex to
    advanced. *)
Theorem routed_model_is_tabled (error_message : string) (context : ErrorContext)
        (error_type : ErrorType) (complexity : string) :
  let r := route_error error_message context in
  (exists by_complexity,
      In (routed_type r, by_complexity) model_recommendations
      /\ In (routed_complexity r, routed_model r) by_complexity)
  /\ (1 <= model_rank (recommend_model error_type "simple")
      <= model_rank (recommend_model error_type "complex"))%nat
  /\ (model_rank (recommend_model error_type "complex")
      <= model_rank (recommend_model error_type "advanced"))%nat
  /\ (complexity <> "simple"%string -> complexity <> "complex"%string ->
      complexity <> "advanced"%string ->
      recommend_model error_type complexity = "deepseek-coder:1.3b"%string).
Proof.
  cbv zeta. split; [ | split; [ | split ] ].
  - unfold route_error, classify_error. cbn [routed_type routed_complexity routed_model].
    destruct (complexity_is_a_key error_message context) as [-> | [-> | ->]];
      destruct (_classify_error_type error_message context);
      (eexists; split; [ unfold model_recommendations; cbn; eauto 10
                       | vm_compute; eauto 10 ]).
  - destruct error_type; vm_compute; lia.
  - destruct error_type; vm_compute; lia.
  - intros H1 H2 H3. apply String.eqb_neq in H1, H2, H3.
    rewrite String.eqb_sym in H1, H2, H3.
    destruct error_type; unfold recommend_model, dict_get; cbn [List.find model_recommendations
      ErrorType_eqb fst snd]; rewrite H1, H2, H3; reflexivity.
Qed.

End Routing.

Lemma routed_model_is_tabled_instance :
  recommend_model LINT "unknown" = "deepseek-coder:1.3b".
Proof.
  apply (routed_model_is_tabled "Missing semicolon" (context_of "a.js") LINT "unknown");
    discriminate.
Defined.

(** ** The suite builder *)

Section Builder.
Variable world : World.

Lemma file_loop_spec (language test_type : string) (file_paths : list string) :
  forall i,
    let out := file_loop world i file_paths language test_type in
    List.map code (fst out) = omap (readable world) file_paths
    /\ Forall (built_for 1 language test_type) (fst out)
    /\ (length (fst out) + length (snd out))%nat = length file_paths
    /\ (forall k file_path content,
           file_paths !! k = Some file_path ->
           read_file world file_path = inr content ->
           In (job_at world "file-" (i + k) content language test_type 1) (fst out)).
Proof.
  induction file_paths as [|file_path rest IH]; intros i; cbv zeta.
  - cbn. repeat split; [ constructor | intros k p c H; discriminate H ].
  - cbn [file_loop]. specialize (IH (S i)). cbv zeta in IH.
    destruct (file_loop world (S i) rest language test_type) as [jobs warnings].
    cbn [fst snd] in IH. destruct IH as (C & F & L & I).
    cbn [omap list_omap]. unfold readable at 1.
    destruct (read_file world file_path) as [e|content] eqn:R; cbn [fst snd].
    + split; [ exact C | ]. split; [ exact F | ]. split; [ cbn; lia | ].
      intros [|k] p c Hk Hr; cbn in Hk.
      * injection Hk as <-. rewrite R in Hr. discriminate Hr.
      * replace (i + S k)%nat with (S i + k)%nat by lia. eapply I; eassumption.
    + split; [ cbn; rewrite C; reflexivity | ].
      split; [ constructor; [ repeat split | exact F ] | ].
      split; [ cbn; lia | ].
      intros [|k] p c Hk Hr; cbn in Hk.
      * injection Hk as <-. rewrite R in Hr. injection Hr as <-.
        left. rewrite Nat.add_0_r. reflexivity.
      * right. replace (i + S k)%nat with (S i + k)%nat by lia. eapply I; eassumption.
Qed.

(** X5: [from_file_list] makes one job for every file it can read, in the
    order of the paths, with the content of the file as its code, priority 1
    and a fresh retry budget; a file that cannot be read is skipped with a
    warning, and the job of the path at position [k] carries [k] in its id
    whatever was skipped before it. *)
Theorem file_jobs_follow_readable_files (file_paths : list string)
        (language test_type : string) :
  let jobs := from_file_list world file_paths language test_type in
  let warnings := snd (file_loop world 0 file_paths language test_type) in
  List.map code jobs = omap (readable world) file_paths
  /\ Forall (built_for 1 language test_type) jobs
  /\ (length jobs + length warnings)%nat = length file_paths
  /\ (forall k file_path content,
         file_paths !! k = Some file_path ->
         read_file world file_path = inr content ->
         In (job_at world "file-" k content language test_type 1) jobs).
Proof. apply (file_loop_spec language test_type file_paths 0). Qed.

Lemma append_empty (s : string) : s +:+ EmptyString = s.
Proof.
  induction s as [|c s IH]; [ reflexivity | ].
  change (String c (s +:+ EmptyString) = String c s). f_equal. exact IH.
Qed.

Lemma append_char (a : string) (c : ascii) (s : string) :
  (a +:+ String c EmptyString) +:+ s = a +:+ String c s.
Proof.
  induction a as [|x a IH]; [ reflexivity | ].
  change (String x ((a +:+ String c EmptyString) +:+ s) = String x (a +:+ String c s)).
  f_equal. exact IH.
Qed.

Lemma split_without_separator (sep s : string) :
  PyStr.contains sep s = false ->
  forall cur, split_go sep 0 cur s = [cur +:+ s].
Proof.
  induction s as [|c s IH]; intros H cur.
  - cbn. rewrite append_empty. reflexivity.
  - cbn [PyStr.contains] in H. apply orb_false_iff in H as [H1 H2].
    cbn [split_go]. rewrite H1, (IH H2), append_char. reflexivity.
Qed.

Lemma diff_loop_spec (language test_type : string) (files : list string) :
  forall i,
    Forall (built_for 2 language test_type) (diff_loop world i files language test_type)
    /\ (length (diff_loop world i files language test_type) <= length files)%nat.
Proof.
  induction files as [|file_diff rest IH]; intros i; cbn [diff_loop].
  - split; [ constructor | reflexivity ].
  - destruct (IH (S i)) as [F L].
    destruct (is_blank file_diff); [ split; [ exact F | cbn; lia ] | ].
    destruct (added_lines file_diff); [ split; [ exact F | cbn; lia ] | ].
    split; [ constructor; [ repeat split | exact F ] | cbn; lia ].
Qed.

(** X6: [from_git_diff] makes at most one job for each section that
    follows a [diff --git] header, each with priority 2 and a fresh retry
    budget; a text without such a header gives no job at all, whatever
    lines it adds. *)
Theorem diff_jobs_need_headers (diff_content language test_type : string) :
  let jobs := from_git_diff world diff_content language test_type in
  Forall (built_for 2 language test_type) jobs
  /\ (length jobs <= length (split "diff --git" diff_content) - 1)%nat
  /\ (PyStr.contains "diff --git" diff_content = false -> jobs = []).
Proof.
  cbv zeta. unfold from_git_diff.
  destruct (diff_loop_spec language test_type (List.tail (split "diff --git" diff_content)) 0)
    as [F L].
  split; [ exact F | ]. split.
  - destruct (split "diff --git" diff_content); cbn in *; lia.
  - intros H. unfold split. rewrite (split_without_separator _ _ H). reflexivity.
Qed.

End Builder.

Lemma diff_jobs_need_headers_instance :
  from_git_diff two_files "+++ b/file.js
+const x = 1;" "javascript" "unit" = [].
Proof.
  apply (diff_jobs_need_headers two_files "+++ b/file.js
+const x = 1;" "javascript" "unit").
  vm_compute. reflexivity.
Defined.


Lemma file_jobs_follow_readable_files_instance :
  In (job_at two_files "file-" 2 "function b() {}" "javascript" "unit" 1)
     (from_file_list two_files ["a.js"; "missing.js"; "b.js"] "javascript" "unit").
Proof.
  apply (file_jobs_follow_readable_files two_files ["a.js"; "missing.js"; "b.js"]
           "javascript" "unit") with (file_path := "b.js"); reflexivity.
Defined.

(** ** Built suites under the hybrid strategy *)

Section BuiltSuites.
Local Open Scope coord_scope.
Variable env : Env.
Variable config : ExecutionConfig.

Lemma tier_of_uniform (p q : Z) (jobs : list TestJob) :
  Forall (fun job => priority job = p) jobs ->
  tier q jobs = if Z.eqb p q then jobs else [].
Proof.
  intros H. unfold tier. induction H as [|job rest Hj _ IH]; cbn [List.filter].
  - destruct (Z.eqb p q); reflexivity.
  - rewrite Hj, IH. destruct (Z.eqb p q); reflexivity.
Qed.

Lemma bind_ret_r {A} (m : M A) (st : State) : bind m (fun a => ret a) st = m st.
Proof. unfold bind, ret. destruct (m st) as [[a|e|] st']; reflexivity. Qed.

Lemma hybrid_of_uniform (p : Z) (jobs : list TestJob) (cb : option Callback) (st : State) :
  Forall (fun job => priority job = p) jobs ->
  jobs <> [] ->
  _execute_hybrid env config jobs cb st
  = (if Z.eqb p 1 then _execute_sequential env config jobs None
     else if Z.eqb p 2 then _execute_parallel_files env config jobs None
     else if Z.eqb p 3 then _execute_parallel_functions env config jobs None
     else ret []) st.
Proof.
  intros H Hne. unfold _execute_hybrid, run_tier.
  rewrite !group_lookup, !(tier_of_uniform p _ jobs H).
  destruct jobs as [|job rest]; [ contradiction | ].
  destruct (Z.eqb_spec p 1) as [-> | N1];
    [ unfold bind, ret; cbn [Z.eqb Pos.eqb];
      destruct (_execute_sequential env config (job :: rest) None st) as [[r|e|] st'];
      reflexivity | ].
  destruct (Z.eqb_spec p 2) as [-> | N2];
    [ unfold bind, ret; cbn [Z.eqb Pos.eqb];
      destruct (_execute_parallel_files env config (job :: rest) None st) as [[r|e|] st'];
      reflexivity | ].
  destruct (Z.eqb_spec p 3) as [-> | N3];
    [ unfold bind, ret; cbn [Z.eqb Pos.eqb];
      destruct (_execute_parallel_functions env config (job :: rest) None st)
        as [[r|e|] st'];
      reflexivity | ].
  reflexivity.
Qed.

(** X7: under the hybrid strategy a suite built from files is run by the
    sequential strategy alone and a suite built from a diff by the batched
    strategy alone, in both cases without the caller's progress callback;
    a suite whose jobs all have a priority other than 1, 2 and 3 is not run
    at all and gives no result. *)
Theorem built_suites_run_in_one_tier (world : World) (file_paths : list string)
        (diff_content language test_type : string) (cb : option Callback) (st : State) :
  let file_jobs := from_file_list world file_paths language test_type in
  let diff_jobs := from_git_diff world diff_content language test_type in
  (file_jobs <> [] ->
   _execute_hybrid env config file_jobs cb st
   = _execute_sequential env config file_jobs None st)
  /\ (diff_jobs <> [] ->
      _execute_hybrid env config diff_jobs cb st
      = _execute_parallel_files env config diff_jobs None st)
  /\ (forall p jobs,
         Forall (fun job => priority job = p) jobs ->
         p <> 1%Z -> p <> 2%Z -> p <> 3%Z ->
         _execute_hybrid env config jobs cb st = (Ok [], st)).
Proof.
  cbv zeta. split; [ | split ].
  - intros Hne. rewrite (hybrid_of_uniform 1); [ reflexivity | | exact Hne ].
    eapply Forall_impl;
      [ apply (file_loop_spec world language test_type file_paths 0) | ].
    intros job H. apply H.
  - intros Hne. rewrite (hybrid_of_uniform 2); [ reflexivity | | exact Hne ].
    eapply Forall_impl;
      [ apply (diff_loop_spec world language test_type
                 (List.tail (split "diff --git" diff_content)) 0) | ].
    intros job H. apply H.
  - intros p jobs H N1 N2 N3. destruct jobs as [|job rest].
    + reflexivity.
    + rewrite (hybrid_of_uniform p); [ | exact H | discriminate ].
      destruct (Z.eqb_spec p 1); [ contradiction | ].
      destruct (Z.eqb_spec p 2); [ contradiction | ].
      destruct (Z.eqb_spec p 3); [ contradiction | ].
      reflexivity.
Qed.

End BuiltSuites.

Lemma built_suites_run_in_one_tier_instance :
  let jobs := from_file_list two_files ["a.js"; "b.js"] "javascript" "unit" in
  _execute_hybrid quiet_env (config_of HYBRID 1) jobs None init
  = _execute_sequential quiet_env (config_of HYBRID 1) jobs None init.
Proof.
  intros jobs.
  apply (built_suites_run_in_one_tier quiet_env (config_of HYBRID 1) two_files
           ["a.js"; "b.js"] "" "javascript" "unit" None init).
  discriminate.
Defined.

(** ** Edges of the strategies *)

Section StrategyEdges.
Local Open Scope coord_scope.
Variable env : Env.
Variable config : ExecutionConfig.

Lemma wait_loop_outcome (polls : nat) (job_id : string) (timeout : Z) :
  forall st,
    match wait_loop env polls job_id timeout st with
    | (Ok r, st') => Coordinator.completed_jobs st' !! job_id = Some r
    | (Raise e, _) => e = TimeoutError (timeout_text job_id timeout)
    | (Blocked, _) => False
    end.
Proof.
  induction polls as [|n IH]; intros st; cbn [wait_loop]; [ reflexivity | ].
  unfold get_job_status, job_status, bind at 1, bind at 1, get, ret.
  destruct (Coordinator.completed_jobs st !! job_id) as [r|] eqn:C; [ exact C | ].
  assert (E : forall m : M TestResult,
             (sleep env ;; m) st
             = m (set_calls (fun _ => S (calls st)) (background env (calls st) (set_calls S st)))).
  { intros m. reflexivity. }
  destruct (active_jobs st !! job_id); rewrite E; apply IH.
Qed.

(** X8: the wait for a job returns only a result that is recorded as
    completed under the job id at that moment, raises nothing but the
    timeout error, and never hangs; with a limit of zero seconds or less it
    raises the timeout at once, even for a job that is already completed;
    with a positive limit a job that is already completed is returned
    without a sleep. *)
Theorem wait_returns_recorded_result (job_id : string) (timeout : option Z) (st : State) :
  let limit := default (timeout_seconds config) timeout in
  let out := _wait_for_job_completion env config job_id timeout st in
  (forall r, fst out = Ok r -> Coordinator.completed_jobs (snd out) !! job_id = Some r)
  /\ (forall e, fst out = Raise e -> e = TimeoutError (timeout_text job_id limit))
  /\ fst out <> Blocked
  /\ ((limit <= 0)%Z -> out = (Raise (TimeoutError (timeout_text job_id limit)), st))
  /\ ((0 < limit)%Z ->
      forall r, Coordinator.completed_jobs st !! job_id = Some r -> out = (Ok r, st)).
Proof.
  cbv zeta. unfold _wait_for_job_completion.
  set (limit := default (timeout_seconds config) timeout).
  pose proof (wait_loop_outcome (Z.to_nat limit) job_id limit st) as H.
  split; [ | split; [ | split; [ | split ] ] ].
  - intros r E. destruct (wait_loop env (Z.to_nat limit) job_id limit st) as [[a|e|] st'];
      cbn in E; try discriminate E. injection E as ->. exact H.
  - intros e E. destruct (wait_loop env (Z.to_nat limit) job_id limit st) as [[a|x|] st'];
      cbn in E; try discriminate E. injection E as ->. exact H.
  - intros E. destruct (wait_loop env (Z.to_nat limit) job_id limit st) as [[a|x|] st'];
      cbn in E; try discriminate E. exact H.
  - intros L. replace (Z.to_nat limit) with 0%nat by lia. reflexivity.
  - intros L r C. destruct (Z.to_nat limit) as [|n] eqn:N; [ lia | ].
    cbn [wait_loop]. unfold get_job_status, job_status, bind, get, ret. rewrite C. reflexivity.
Qed.

(** X9: the batched strategy covers the jobs only for a positive batch
    size: with a batch size of zero it raises a value error before any job
    is submitted, with a negative one it returns no result at all and submits
    nothing, and with a positive one it returns one result for every job. *)
Theorem batch_size_decides_coverage (jobs : list TestJob) (cb : option Callback) (st : State) :
  (batch_size config = 0%Z ->
   _execute_parallel_files env config jobs cb st
   = (Raise (ValueError "range() arg 3 must not be zero"), st))
  /\ ((batch_size config < 0)%Z ->
      _execute_parallel_files env config jobs cb st = (Ok [], st))
  /\ ((0 < batch_size config)%Z ->
      exists rs st',
        _execute_parallel_files env config jobs None st = (Ok rs, st')
        /\ length rs = length jobs).
Proof.
  split; [ | split ].
  - intros E. unfold _execute_parallel_files, py_range. rewrite E. reflexivity.
  - intros L. unfold _execute_parallel_files, py_range.
    destruct (Z.eqb_spec (batch_size config) 0) as [E0|_]; [ lia | ].
    destruct (Z.ltb_spec (batch_size config) 0) as [_|E1]; [ reflexivity | lia ].
  - intros L. apply parallel_files_returns, L.
Qed.

Lemma insert_by_rank_permutation {A} (x : nat * A) (l : list (nat * A)) :
  Permutation (insert_by_rank x l) (x :: l).
Proof.
  induction l as [|y l IH]; cbn [insert_by_rank]; [ reflexivity | ].
  destruct (fst y <? fst x)%nat; [ | reflexivity ].
  rewrite IH. apply perm_swap.
Qed.

Lemma ranked_tasks {A} (rank : nat -> nat) (tasks : list A) :
  forall g : nat -> nat,
    List.map snd (List.map (fun it => (rank (fst it), snd it))
                           (imap (fun i a => (g i, a)) tasks)) = tasks.
Proof.
  induction tasks as [|a tasks IH]; intros g; [ reflexivity | ].
  cbn. f_equal. apply (IH (fun i => g (S i))).
Qed.

Lemma as_completed_permutation {A} (rank : nat -> nat) (tasks : list A) :
  Permutation (as_completed rank tasks) tasks.
Proof.
  unfold as_completed.
  rewrite <- (ranked_tasks rank tasks (fun i => i)) at 2.
  apply Permutation_map.
  generalize (List.map (fun it : nat * A => (rank (fst it), snd it))
                       (imap (fun i a => (i, a)) tasks)).
  induction l as [|x l IH]; cbn [fold_right]; [ reflexivity | ].
  rewrite insert_by_rank_permutation, IH. reflexivity.
Qed.

(** X10: the bounded strategy raises a value error for a negative number
    of workers, before any job is submitted; with no worker and at least one
    job it never returns; with at least one worker it returns the results of
    the single tasks, each once, in the order the tasks finish. *)
Theorem workers_decide_progress (jobs : list TestJob) (cb : option Callback) (st : State) :
  ((max_workers config < 0)%Z ->
   _execute_parallel_functions env config jobs cb st
   = (Raise (ValueError "Semaphore initial value must be >= 0"), st))
  /\ (max_workers config = 0%Z -> jobs <> [] ->
      fst (_execute_parallel_functions env config jobs cb st) = Blocked)
  /\ ((0 < max_workers config)%Z ->
      exists finished rs st1 st',
        run_tasks env config jobs st = (Ok finished, st1)
        /\ _execute_parallel_functions env config jobs None st = (Ok rs, st')
        /\ Permutation rs finished
        /\ length rs = length jobs).
Proof.
  split; [ | split ].
  - intros L. unfold _execute_parallel_functions.
    destruct (Z.ltb_spec (max_workers config) 0) as [_|E]; [ reflexivity | lia ].
  - intros E Hne. unfold _execute_parallel_functions. rewrite E.
    destruct jobs as [|job rest]; [ contradiction | reflexivity ].
  - intros L. unfold _execute_parallel_functions.
    destruct (Z.ltb_spec (max_workers config) 0) as [E0|_]; [ lia | ].
    destruct jobs as [|job rest].
    + exists [], [], st, st. repeat split; reflexivity.
    + destruct (Z.eqb_spec (max_workers config) 0) as [E1|_]; [ lia | ].
      destruct (run_tasks_returns env config (job :: rest) st) as (finished & st1 & E & Len).
      exists finished, (as_completed (completion_rank env (calls st1)) finished),
             st1, (set_calls S st1).
      split; [ exact E | ]. split; [ | split ].
      * erewrite bind_ok; [ | exact E ].
        erewrite bind_ok; [ | reflexivity ].
        apply completion_loop_none.
      * apply as_completed_permutation.
      * rewrite as_completed_length. exact Len.
Qed.

(** X11: under the sequential strategy a progress callback that raises
    for a completed job makes the job count twice: its result stays in the
    list and a failed result with the text of the exception follows it, so
    there are more results than jobs. *)
Theorem raising_callback_doubles_result (job : TestJob) (rest : list TestJob)
        (cb : Callback) (st st1 : State) (r : TestResult) (e : Exn) :
  (submit_test_job env job ;; _wait_for_job_completion env config (id job) None) st
  = (Ok r, st1) ->
  cb 1%nat (S (length rest)) (CbResult r) = Some e ->
  exists more st',
    _execute_sequential env config (job :: rest) (Some cb) st
    = (Ok (r :: terminal_failure job e (now env (calls st1)) :: more), st')
    /\ (length rest <= length more)%nat
    /\ (length (job :: rest) < length (r :: terminal_failure job e (now env (calls st1)) :: more))%nat.
Proof.
  intros Hrun Hcb.
  set (failure := terminal_failure job e (now env (calls st1))).
  set (line := "Failed to execute job " +:+ id job +:+ ": " +:+ exn_str e).
  destruct (sequential_loop_returns env config (Some cb) (length (job :: rest)) rest (0 + 1)%nat
              (([] ++ [r]) ++ [failure])
              (set_calls S (set_logged (fun l => l ++ [line]) st1)))
    as (more & st' & E & L & _).
  exists more, st'. split; [ | split; [ exact L | cbn; lia ] ].
  unfold _execute_sequential. cbn [sequential_loop].
  erewrite bind_ok; [ | rewrite attempt_eq, Hrun; reflexivity ].
  erewrite bind_ok;
    [ | erewrite bind_ok;
        [ | rewrite attempt_eq; unfold invoke; cbn [length Nat.add]; rewrite Hcb; reflexivity ];
        apply on_exception_eq ].
  exact E.
Qed.

(** X12: when the queue refuses the request for its attributes with a
    client error, the backlog-adaptive strategy logs the refusal and runs the
    bounded strategy, as for an idle queue; any other error of that request
    ends the call before a job is submitted. *)
Theorem stats_outage_runs_bounded (jobs : list TestJob) (cb : option Callback) (st : State) :
  (forall text,
      get_queue_attributes env (calls st) = inl (ClientError text) ->
      _execute_load_balanced env config jobs cb st
      = _execute_parallel_functions env config jobs cb
          (set_logged (fun l => l ++ ["Failed to get queue stats: " +:+ text])
                      (set_calls S st)))
  /\ (forall e,
         get_queue_attributes env (calls st) = inl e ->
         is_client_error e = false ->
         _execute_load_balanced env config jobs cb st = (Raise e, set_calls S st)).
Proof.
  split.
  - intros text H. unfold _execute_load_balanced.
    erewrite bind_ok; [ | apply queue_stats_refused, H ]. reflexivity.
  - intros e H N. unfold _execute_load_balanced.
    erewrite bind_raised; [ reflexivity | ].
    unfold get_queue_stats, try_except_client, try_except, bind, call, get, ret.
    rewrite H. cbn. rewrite N. reflexivity.
Qed.

End StrategyEdges.

Lemma wait_returns_recorded_result_instance :
  let st := recorded "job-1" (generated quiet_env (job_of "job-1" 1 0 3) 0) init in
  _wait_for_job_completion quiet_env (config_of SEQUENTIAL 0) "job-1" None st
  = (Raise (TimeoutError (timeout_text "job-1" 0)), st).
Proof.
  intros st.
  pose proof (wait_returns_recorded_result quiet_env (config_of SEQUENTIAL 0) "job-1" None st)
    as H.
  cbv zeta in H. apply H. cbn. lia.
Defined.

Lemma batch_size_decides_coverage_instance :
  let config := {| strategy := PARALLEL_FILES; max_workers := 4; timeout_seconds := 5;
                   retry_attempts := 3; batch_size := -1; priority_levels := [1; 2; 3]%Z |} in
  _execute_parallel_files quiet_env config (numbered_jobs 3) None init = (Ok [], init).
Proof.
  intros config.
  apply (batch_size_decides_coverage quiet_env config (numbered_jobs 3) None init).
  cbn. lia.
Defined.

Lemma workers_decide_progress_instance :
  let config := {| strategy := PARALLEL_FUNCTIONS; max_workers := 0; timeout_seconds := 5;
                   retry_attempts := 3; batch_size := 10; priority_levels := [1; 2; 3]%Z |} in
  fst (_execute_parallel_functions quiet_env config (numbered_jobs 3) None init) = Blocked.
Proof.
  intros config.
  apply (workers_decide_progress quiet_env config (numbered_jobs 3) None init).
  - reflexivity.
  - discriminate.
Defined.

Lemma raising_callback_doubles_result_instance :
  let job := job_of "job-1" 1 0 3 in
  let r := generated quiet_env job 0 in
  exists more st',
    _execute_sequential quiet_env (config_of SEQUENTIAL 5) [job]
      (Some (raising_callback (OtherError "display closed"))) (recorded "job-1" r init)
    = (Ok (r :: terminal_failure job (OtherError "display closed") "t2" :: more), st').
Proof.
  intros job r.
  destruct (raising_callback_doubles_result quiet_env (config_of SEQUENTIAL 5) job []
              (raising_callback (OtherError "display closed"))
              (recorded "job-1" r init)
              (snd (submit_test_job quiet_env job (recorded "job-1" r init)))
              r (OtherError "display closed"))
    as (more & st' & E & _).
  - vm_compute. reflexivity.
  - reflexivity.
  - exists more, st'. exact E.
Defined.

Lemma stats_outage_runs_bounded_instance :
  let env := stats_outage_env (ClientError "AccessDenied") in
  let config := config_of LOAD_BALANCED 1 in
  let out := _execute_load_balanced env config (numbered_jobs 2) None init in
  out
  = _execute_parallel_functions env config (numbered_jobs 2) None
      (set_logged (fun l => l ++ ["Failed to get queue stats: AccessDenied"])
                  (set_calls S init))
  /\ (exists rs, fst out = Ok rs /\ List.map success rs = [false; false])
  /\ In "Failed to get queue stats: AccessDenied" (logged (snd out))
  /\ length (queue (snd out)) = 2%nat.
Proof.
  intros env config out.
  assert (E : out
              = _execute_parallel_functions env config (numbered_jobs 2) None
                  (set_logged (fun l => l ++ ["Failed to get queue stats: AccessDenied"])
                              (set_calls S init))).
  { apply (stats_outage_runs_bounded env config (numbered_jobs 2) None init).
    reflexivity. }
  split; [ exact E | ].
  rewrite E. split; [ eexists; split; vm_compute; reflexivity | ].
  split; [ vm_compute; left; reflexivity | vm_compute; reflexivity ].
Defined.

(** ** The metrics of a run *)

Section SuiteMetrics.
Local Open Scope coord_scope.
Variable env : Env.
Variable config : ExecutionConfig.

Lemma count_failure_le (rs : list TestResult) : (count_failure rs <= length rs)%nat.
Proof. pose proof (counts_add_up rs). lia. Qed.

Lemma rate_bounds (f n : nat) :
  (f <= n)%nat -> (0 < n)%nat ->
  (0 <= inject_Z (Z.of_nat f) / inject_Z (Z.of_nat n) * 100
   /\ inject_Z (Z.of_nat f) / inject_Z (Z.of_nat n) * 100 <= 100)%Q.
Proof.
  intros Hle Hpos.
  assert (N : (0 < inject_Z (Z.of_nat n))%Q).
  { change 0%Q with (inject_Z 0). rewrite <- Zlt_Qlt. lia. }
  assert (F : (0 <= inject_Z (Z.of_nat f))%Q).
  { change 0%Q with (inject_Z 0). rewrite <- Zle_Qle. lia. }
  assert (FN : (inject_Z (Z.of_nat f) <= inject_Z (Z.of_nat n))%Q).
  { rewrite <- Zle_Qle. lia. }
  split.
  - apply Qmult_le_0_compat; [ | discriminate ].
    apply Qle_shift_div_l; [ exact N | ]. rewrite Qmult_0_l. exact F.
  - apply Qle_trans with (1 * 100)%Q; [ | discriminate ].
    apply Qmult_le_compat_r; [ | discriminate ].
    apply Qle_shift_div_r; [ exact N | ]. rewrite Qmult_1_l. exact FN.
Qed.

(** X13: whenever [execute_test_suite] returns, [total_jobs] is the number
    of jobs it was given, [completed_jobs + failed_jobs] is the number of
    results, the error rate lies between 0 and 100 and the throughput is not
    negative; with no result the average, the error rate and the throughput
    are 0, and with a clock that did not advance the throughput is 0: no
    division by zero is met. *)
Theorem suite_metrics_are_consistent (jobs : list TestJob) (cb : option Callback)
        (st st' : State) (er : ExecutionResult) :
  execute_test_suite env config jobs cb st = (Ok er, st') ->
  total_jobs er = Z.of_nat (length jobs)
  /\ (completed_jobs er + failed_jobs er)%Z = Z.of_nat (length (results er))
  /\ (0 <= error_rate_percentage er /\ error_rate_percentage er <= 100)%Q
  /\ (0 <= throughput_jobs_per_second er)%Q
  /\ (results er = [] ->
      (average_job_time_ms er == 0 /\ error_rate_percentage er == 0
       /\ throughput_jobs_per_second er == 0)%Q)
  /\ ((execution_time_ms er <= 0)%Z -> (throughput_jobs_per_second er == 0)%Q).
Proof.
  intros H. unfold execute_test_suite in H.
  erewrite bind_ok in H; [ | reflexivity ].
  unfold bind at 1 in H.
  destruct (run_strategy env config (strategy config) jobs cb (set_calls S st))
    as [[rs|e|] st1]; try discriminate H.
  erewrite bind_ok in H; [ | reflexivity ].
  unfold ret in H. injection H as <- _.
  cbn [total_jobs completed_jobs failed_jobs results error_rate_percentage
       throughput_jobs_per_second average_job_time_ms execution_time_ms].
  set (elapsed := (clock_ms env (calls st1) - clock_ms env (calls st))%Z).
  split; [ reflexivity | ].
  split; [ rewrite <- (counts_add_up rs); lia | ].
  split; [ | split; [ | split ] ].
  - destruct rs as [|r rs]; [ split; discriminate | ].
    apply rate_bounds; [ apply count_failure_le | cbn; lia ].
  - destruct (Z.gtb_spec elapsed 0) as [P|_]; [ | discriminate ].
    apply Qle_shift_div_l.
    + apply Qlt_shift_div_l; [ reflexivity | ]. rewrite Qmult_0_l.
      change 0%Q with (inject_Z 0). rewrite <- Zlt_Qlt. exact P.
    + rewrite Qmult_0_l. change 0%Q with (inject_Z 0). rewrite <- Zle_Qle. lia.
  - intros ->. split; [ reflexivity | ]. split; [ reflexivity | ].
    destruct (elapsed >? 0)%Z; [ | reflexivity ].
    cbn [length Z.of_nat]. unfold Qdiv. rewrite Qmult_0_l. reflexivity.
  - intros L. destruct (Z.gtb_spec elapsed 0) as [P|_]; [ lia | reflexivity ].
Qed.

End SuiteMetrics.

Lemma suite_metrics_are_consistent_instance :
  let st := recorded "job-0" (generated quiet_env (job_of "job-0" 1 0 3) 0) init in
  exists er st',
    execute_test_suite quiet_env (config_of SEQUENTIAL 1) (numbered_jobs 2) None st
    = (Ok er, st')
    /\ List.map success (results er) = [ true; false ]
    /\ (total_jobs er = 2
        /\ completed_jobs er + failed_jobs er = Z.of_nat (length (results er)))%Z
    /\ (0 <= error_rate_percentage er /\ error_rate_percentage er <= 100)%Q
    /\ (0 <= throughput_jobs_per_second er)%Q
    /\ (error_rate_percentage er == 50)%Q.
Proof.
  intros st. eexists _, _.
  split; [ vm_compute; reflexivity | ].
  split; [ reflexivity | ].
  match goal with
  | |- context [ total_jobs ?er ] =>
      destruct (suite_metrics_are_consistent quiet_env (config_of SEQUENTIAL 1)
                  (numbered_jobs 2) None st _ er ltac:(vm_compute; reflexivity))
        as (T & C & R & P & _)
  end.
  split; [ split; [ exact T | exact C ] | ].
  split; [ exact R | ].
  split; [ exact P | reflexivity ].
Defined.

(** ** One delivery, whatever the message *)

Section Deliveries.
Local Open Scope coord_scope.
Variable env : Env.

Lemma malformed_delivery (handle : nat) (st : State) :
  _process_single_job env {| Body := None; ReceiptHandle := handle |} st
  = (Ok tt,
     set_logged (fun l => l ++ ["Error handling job retry: malformed message body"])
       (set_logged (fun l => l ++ ["Error processing job: malformed message body"]) st)).
Proof. reflexivity. Qed.

Lemma malformed_redelivered (handle k : nat) (n : nat) :
  forall st,
    queue st !! k = Some {| Body := None; ReceiptHandle := handle |} ->
    let out := consume env (repeat k n) st in
    fst out = Ok tt
    /\ queue (snd out) = queue st
    /\ length (logged (snd out)) = (length (logged st) + 2 * n)%nat.
Proof.
  induction n as [|n IH]; intros st Hq; cbv zeta.
  - cbn. repeat split. lia.
  - cbn [repeat consume].
    assert (E : deliver env k st
                = _process_single_job env {| Body := None; ReceiptHandle := handle |} st).
    { unfold deliver, bind, get. rewrite Hq. reflexivity. }
    erewrite bind_ok; [ | rewrite E; apply malformed_delivery ].
    match goal with |- context [consume env (repeat k n) ?s] => specialize (IH s Hq) end.
    cbv zeta in IH. destruct IH as (O & Q & L).
    split; [ exact O | ]. split; [ exact Q | ].
    rewrite L. cbn. rewrite !length_app. cbn. lia.
Qed.

(** X14: a message whose body is not a job is never taken off the queue:
    its delivery returns, writes two lines to the log and changes nothing
    else, no job map, no object, no metric, no service call; delivered again
    and again it is still in the queue, with two more lines each time. *)
Theorem malformed_message_stays_queued (handle : nat) (st : State) :
  let message := {| Body := None; ReceiptHandle := handle |} in
  let out := _process_single_job env message st in
  fst out = Ok tt
  /\ queue (snd out) = queue st
  /\ maps_as_in st (snd out)
  /\ bucket (snd out) = bucket st
  /\ metrics (snd out) = metrics st
  /\ calls (snd out) = calls st
  /\ length (logged (snd out)) = (length (logged st) + 2)%nat
  /\ (forall k n,
         queue st !! k = Some message ->
         fst (consume env (repeat k n) st) = Ok tt
         /\ queue (snd (consume env (repeat k n) st)) = queue st
         /\ length (logged (snd (consume env (repeat k n) st)))
            = (length (logged st) + 2 * n)%nat).
Proof.
  cbv zeta. rewrite malformed_delivery. cbn.
  repeat (split; [ reflexivity | ]).
  split; [ split; reflexivity | ].
  repeat (split; [ reflexivity | ]).
  split; [ rewrite !length_app; cbn; lia | ].
  intros k n Hq. apply (malformed_redelivered handle k n st Hq).
Qed.

(** X17: [submit_test_job] returns a message id only when the queue
    accepted the message, and then the job is tracked as active and the
    message is in the queue; when the queue refuses, the exception is raised
    again and neither the job maps nor the queue change; a raised exception
    that is not the queue's is an error of the metrics sink that is no client
    error, and then the message was sent and the job is tracked all the
    same. *)
Theorem submission_tracks_what_was_sent (job : TestJob) (st : State) :
  let out := submit_test_job env job st in
  let sent := queue st ++ [ {| Body := Some job; ReceiptHandle := next_handle st |} ] in
  (forall message_id,
      fst out = Ok message_id ->
      send_message env (calls st) job = inr message_id
      /\ active_jobs (snd out) = <[id job := job]> (active_jobs st)
      /\ queue (snd out) = sent)
  /\ (forall e,
         send_message env (calls st) job = inl e ->
         fst out = Raise e
         /\ active_jobs (snd out) = active_jobs st
         /\ queue (snd out) = queue st)
  /\ (forall e,
         fst out = Raise e ->
         send_message env (calls st) job = inl e
         \/ (is_client_error e = false
             /\ put_metric_data env (S (calls st)) "JobsSubmitted" = Some e
             /\ active_jobs (snd out) = <[id job := job]> (active_jobs st)
             /\ queue (snd out) = sent))
  /\ fst out <> Blocked.
Proof.
  cbv zeta.
  cbv [submit_test_job sqs_send_message enqueue _send_metric bind ret raise get modify
       call log_line try_except try_except_client].
  cbn [calls set_calls].
  destruct (send_message env (calls st) job) as [e0|mid] eqn:S0; cbn.
  - destruct (is_client_error e0) eqn:C0; cbn;
      (split; [ intros ? H; discriminate H | ]);
      (split; [ intros e H; injection H as <-; repeat split | ]);
      (split; [ intros e H; injection H as <-; left; reflexivity | discriminate ]).
  - destruct (put_metric_data env (S (calls st)) "JobsSubmitted") as [e1|] eqn:S1; cbn;
      [ destruct (is_client_error e1) eqn:C1; cbn | ].
    + split; [ intros ? H; injection H as <-; repeat split | ].
      split; [ intros e H; discriminate H | ].
      split; [ intros e H; discriminate H | discriminate ].
    + rewrite C1. cbn.
      split; [ intros ? H; discriminate H | ].
      split; [ intros e H; discriminate H | ].
      split; [ | discriminate ].
      intros e H. injection H as <-. right. repeat split; assumption.
    + split; [ intros ? H; injection H as <-; repeat split | ].
      split; [ intros e H; discriminate H | ].
      split; [ intros e H; discriminate H | discriminate ].
Qed.

Section WorkingServices.
Hypothesis Hsend : forall n job, exists message_id, send_message env n job = inr message_id.
Hypothesis Hput : forall n key r, put_object env n key r = None.
Hypothesis Hmetric : forall n name,
    put_metric_data env n name = None
    \/ exists text, put_metric_data env n name = Some (ClientError text).

Ltac serve :=
  match goal with
  | |- context [send_message env ?n ?j] =>
      let mid := fresh "message_id" in destruct (Hsend n j) as [mid ->]
  | |- context [put_object env ?n ?k ?r] => rewrite (Hput n k r)
  | |- context [put_metric_data env ?n ?m] => destruct (Hmetric n m) as [-> | [? ->]]
  end.

Ltac unfold_delivery :=
  cbv [_process_single_job process_body handle_retry submit_test_job
       sqs_send_message enqueue _generate_tests _store_results s3_put_object
       _send_metric sqs_delete_message failure_result timestamp parse_job
       bind ret raise blocked get modify call log_line try_except
       try_except_client is_client_error Body ReceiptHandle].

(** X15: when the store accepts every object and the metrics sink accepts
    or refuses with a client error, the delivery of a job that the backend
    serves and whose message the queue agrees to delete records the generated
    result as completed under the job id, takes the job out of the active
    map, stores the result and removes the message from the queue; from then
    on the status of the job is completed, with the recorded result. *)
Theorem served_delivery_completes_job (job : TestJob) (handle : nat) (st : State) :
  inference env (S (calls st)) job = None ->
  delete_message env (5 + calls st) handle = None ->
  let r := generated env job (calls st) in
  let out := _process_single_job env {| Body := Some job; ReceiptHandle := handle |} st in
  fst out = Ok tt
  /\ Coordinator.completed_jobs (snd out) = <[id job := r]> (Coordinator.completed_jobs st)
  /\ active_jobs (snd out) = delete (id job) (active_jobs st)
  /\ bucket (snd out) = bucket st ++ [ (id job, r) ]
  /\ queue (snd out)
     = List.filter (fun m => negb (Nat.eqb (ReceiptHandle m) handle)) (queue st)
  /\ job_status (id job) (snd out) = completed true r.
Proof.
  intros Hinf Hdel. cbv zeta. cbn [Nat.add] in Hdel.
  unfold job_status.
  unfold_delivery. cbn. rewrite Hinf. cbn.
  repeat (cbn; serve); cbn; rewrite Hdel; cbn;
    repeat (cbn; serve); cbn; rewrite ?lookup_insert_eq;
    repeat split.
Qed.


End WorkingServices.

End Deliveries.

Lemma malformed_message_stays_queued_instance :
  let st := set_queue (fun _ => [ {| Body := None; ReceiptHandle := 0 |} ]) init in
  queue (snd (consume quiet_env (repeat 0%nat 3) st)) = queue st.
Proof.
  intros st.
  apply (malformed_message_stays_queued quiet_env 0 st).
  reflexivity.
Defined.

Lemma submission_tracks_what_was_sent_instance :
  let job := job_of "job-1" 1 0 3 in
  active_jobs (snd (submit_test_job quiet_env job init)) = <[ "job-1" := job ]> ∅.
Proof.
  intros job.
  apply (submission_tracks_what_was_sent quiet_env job init) with (message_id := "msg-0").
  reflexivity.
Defined.

Lemma served_delivery_completes_job_instance :
  let job := job_of "job-1" 1 0 3 in
  let st := snd (submit_test_job quiet_env job init) in
  job_status "job-1"
    (snd (_process_single_job quiet_env {| Body := Some job; ReceiptHandle := 0 |} st))
  = completed true (generated quiet_env job 2).
Proof.
  intros job st.
  apply (served_delivery_completes_job quiet_env
           ltac:(intros; reflexivity)
           ltac:(intros; left; reflexivity)
           job 0 st).
  - reflexivity.
  - reflexivity.
Defined.


(** ** What the completed map holds *)

Section Records.
Local Open Scope coord_scope.
Variable env : Env.

Lemma last_under_app (k k' : string) (r : TestResult) (writes : list (string * TestResult)) :
  last_under k (writes ++ [(k', r)])
  = if String.eqb k' k then Some r else last_under k writes.
Proof.
  induction writes as [|[k0 r0] rest IH]; cbn [app last_under].
  - reflexivity.
  - rewrite IH. destruct (String.eqb k' k); [ reflexivity | ].
    destruct (last_under k rest); reflexivity.
Qed.

Lemma sound_frame (st st' : State) :
  Coordinator.completed_jobs st' = Coordinator.completed_jobs st ->
  bucket st' = bucket st ->
  records_sound st -> records_sound st'.
Proof.
  intros Hc Hb (S1 & S2 & S3). split; [ | split ].
  - intros k r H. rewrite Hc in H. rewrite Hb. apply S1, H.
  - intros k r H. rewrite Hc in H. apply S2, H.
  - intros k r H. rewrite Hc in H. rewrite Hb. apply S3, H.
Qed.

Ltac sound_step :=
  match goal with
  | H : records_sound ?s |- records_sound ?t =>
      apply (sound_frame s t); [ reflexivity | reflexivity | exact H ]
  end.

Ltac sound := frame; try sound_step.

Lemma failed_write_sound (k : string) (r : TestResult) (st st' : State) :
  Coordinator.completed_jobs st' = Coordinator.completed_jobs st ->
  bucket st' = bucket st ++ [(k, r)] ->
  success r = false ->
  records_sound st -> records_sound st'.
Proof.
  intros Hc Hb Hf (S1 & S2 & S3). split; [ | split ].
  - intros k' r' H. rewrite Hc in H. rewrite Hb. apply elem_of_app. left. apply S1, H.
  - intros k' r' H. rewrite Hc in H. apply S2, H.
  - intros k' r' H. rewrite Hc in H. rewrite Hb, last_under_app.
    destruct (String.eqb k k').
    + exists r. split; [ reflexivity | right; exact Hf ].
    + apply S3, H.
Qed.

Lemma record_sound (k : string) (r : TestResult) (st st' : State) :
  Coordinator.completed_jobs st' = Coordinator.completed_jobs st ->
  bucket st' = bucket st ++ [(k, r)] ->
  success r = true -> job_id r = k ->
  records_sound st ->
  records_sound (set_completed_jobs (fun m => <[k := r]> m) st').
Proof.
  intros Hc Hb Hs Hj (S1 & S2 & S3). split; [ | split ]; intros k' r' H; cbn in H |- *.
  - rewrite Hb. apply elem_of_app. destruct (decide (k' = k)) as [->|N].
    + rewrite lookup_insert_eq in H. injection H as <-.
      right. apply list_elem_of_singleton. reflexivity.
    + rewrite lookup_insert_ne in H by congruence. rewrite Hc in H. left. apply S1, H.
  - destruct (decide (k' = k)) as [->|N].
    + rewrite lookup_insert_eq in H. injection H as <-. split; assumption.
    + rewrite lookup_insert_ne in H by congruence. rewrite Hc in H. apply S2, H.
  - rewrite Hb, last_under_app. destruct (decide (k' = k)) as [->|N].
    + rewrite lookup_insert_eq in H. injection H as <-.
      rewrite String.eqb_refl. exists r. split; [ reflexivity | left; reflexivity ].
    + rewrite lookup_insert_ne in H by congruence. rewrite Hc in H.
      destruct (String.eqb_spec k k') as [E|_]; [ congruence | ]. apply S3, H.
Qed.

Lemma store_results_view (k : string) (r : TestResult) (st : State) :
  let out := _store_results env k r st in
  Coordinator.completed_jobs (snd out) = Coordinator.completed_jobs st
  /\ (fst out = Ok tt -> bucket (snd out) = bucket st ++ [(k, r)])
  /\ (fst out <> Ok tt -> bucket (snd out) = bucket st).
Proof.
  cbv zeta.
  unfold _store_results, s3_put_object, try_except_client, try_except, bind, call, modify,
    raise, log_line.
  destruct (put_object env (calls st) k r) as [e|]; cbn.
  - destruct (is_client_error e); cbn; repeat split; try reflexivity; discriminate.
  - repeat split; try reflexivity. intros H. destruct H. reflexivity.
Qed.

Lemma store_failed_sound (k : string) (r : TestResult) :
  success r = false -> preserves records_sound (_store_results env k r).
Proof.
  intros Hf st H. destruct (store_results_view k r st) as (Hc & Hok & Hno).
  destruct (fst (_store_results env k r st)) as [[]|e|] eqn:E.
  - apply (failed_write_sound k r st); [ exact Hc | apply Hok; reflexivity | exact Hf | exact H ].
  - apply (sound_frame st); [ exact Hc | apply Hno; discriminate | exact H ].
  - apply (sound_frame st); [ exact Hc | apply Hno; discriminate | exact H ].
Qed.

Lemma send_metric_sound (name : string) (v : Z) :
  preserves records_sound (_send_metric env name v).
Proof. unfold _send_metric. sound. Qed.

Lemma delete_message_sound (h : nat) :
  preserves records_sound (sqs_delete_message env h).
Proof. unfold sqs_delete_message. sound. Qed.

Lemma submit_test_job_sound (job : TestJob) :
  preserves records_sound (submit_test_job env job).
Proof. unfold submit_test_job, sqs_send_message, enqueue, _send_metric. sound. Qed.

Lemma generate_tests_sound (job : TestJob) :
  preserves records_sound (_generate_tests env job).
Proof. unfold _generate_tests, timestamp. sound. Qed.

Lemma generate_tests_names_job (job : TestJob) :
  yields (_generate_tests env job) (fun r => success r = true /\ job_id r = id job).
Proof.
  intros st r. unfold _generate_tests, timestamp, bind, call, ret, raise.
  destruct (inference env (calls st) job); cbn; intros H; inversion H; split; reflexivity.
Qed.

Lemma process_body_sound (message : Message) :
  preserves records_sound (process_body env message).
Proof.
  unfold process_body, parse_job.
  apply preserves_bind; [ sound | intros job ].
  apply preserves_bind; [ sound | intros t0 ].
  apply (preserves_bind_yields _ _ _ (fun r => success r = true /\ job_id r = id job));
    [ apply generate_tests_sound | apply generate_tests_names_job | intros r [Hs Hj] ].
  apply preserves_bind; [ sound | intros t1 ].
  set (result := with_execution_time (clock_ms env t1 - clock_ms env t0) r).
  intros st H. unfold bind at 1.
  destruct (store_results_view (id job) result st) as (Hc & Hok & Hno).
  destruct (_store_results env (id job) result st) as [[[]|e|] st1]; cbn [fst snd] in *;
    [ | apply (sound_frame st); [ exact Hc | apply Hno; discriminate | exact H ]
      | apply (sound_frame st); [ exact Hc | apply Hno; discriminate | exact H ] ].
  unfold bind at 1, modify at 1.
  assert (Rest : preserves records_sound
                   (modify (set_active_jobs (fun m => delete (id job) m)) ;;
                    sqs_delete_message env (ReceiptHandle message) ;;
                    _send_metric env "JobsCompleted" 1 ;;
                    _send_metric env "TestsGenerated" (tests_generated result))).
  { apply preserves_bind; [ sound | intros _ ].
    apply preserves_bind; [ apply delete_message_sound | intros _ ].
    apply preserves_bind; [ apply send_metric_sound | intros _ ].
    apply send_metric_sound. }
  apply Rest.
  apply (record_sound (id job) result st st1);
    [ exact Hc | apply Hok; reflexivity | exact Hs | exact Hj | exact H ].
Qed.

Lemma failure_result_failed (job_id : string) (e : Exn) :
  yields (failure_result env job_id e) (fun r => success r = false).
Proof.
  intros st r. unfold failure_result, timestamp, bind, call, ret. cbn.
  intros H. inversion H. reflexivity.
Qed.

Lemma handle_retry_sound (message : Message) (e : Exn) :
  preserves records_sound (handle_retry env message e).
Proof.
  unfold handle_retry, parse_job.
  destruct (Body message) as [job|];
    [ rewrite bind_ret | rewrite !bind_raise; apply preserves_raise ].
  apply preserves_bind; [ | intros _; apply delete_message_sound ].
  destruct (retry_count job <? max_retries job)%Z.
  - apply preserves_bind; [ apply submit_test_job_sound | intros _; sound ].
  - apply (preserves_bind_yields _ _ _ (fun r => success r = false));
      [ unfold failure_result, timestamp; sound | apply failure_result_failed
      | intros failure Hf ].
    apply preserves_bind; [ apply store_failed_sound, Hf | intros _ ].
    apply preserves_bind; [ sound | intros _ ].
    apply send_metric_sound.
Qed.

Lemma process_single_job_sound (message : Message) :
  preserves records_sound (_process_single_job env message).
Proof.
  unfold _process_single_job.
  apply preserves_try_except; [ apply process_body_sound | intros e ].
  apply preserves_bind; [ sound | intros _ ].
  apply preserves_try_except; [ apply handle_retry_sound | intros e'; sound ].
Qed.

Lemma enqueue_all_sound (jobs : list TestJob) :
  preserves records_sound (enqueue_all jobs).
Proof.
  induction jobs as [|job rest IH]; cbn [enqueue_all]; [ sound | ].
  apply preserves_bind; [ unfold enqueue; sound | intros _; exact IH ].
Qed.

Lemma track_successful_sound (batch : list TestJob) (successful : list (string * string)) :
  forall message_ids, preserves records_sound (track_successful batch successful message_ids).
Proof.
  induction successful as [|[job_id message_id] rest IH]; intros message_ids;
    cbn [track_successful]; [ sound | ].
  destruct (List.find _ batch); [ | sound ].
  apply preserves_bind; [ sound | intros _; apply IH ].
Qed.

Lemma log_failed_sound (failed : list (string * string)) :
  preserves records_sound (log_failed failed).
Proof.
  induction failed as [|[job_id message] rest IH]; cbn [log_failed]; [ sound | ].
  apply preserves_bind; [ sound | intros _; exact IH ].
Qed.

Lemma submit_chunks_sound (jobs : list TestJob) (starts : list nat) :
  forall message_ids, preserves records_sound (submit_chunks env starts jobs message_ids).
Proof.
  induction starts as [|i rest IH]; intros message_ids; cbn [submit_chunks]; [ sound | ].
  apply preserves_bind; [ | intros ids; apply IH ].
  apply preserves_try_except_client; [ | intros e; sound ].
  apply preserves_bind; [ | intros response ].
  - unfold sqs_send_message_batch.
    apply preserves_bind; [ sound | intros n ].
    apply preserves_bind; [ sound | intros _ ].
    destruct (send_message_batch env n _); [ sound | ].
    apply preserves_bind; [ apply enqueue_all_sound | intros _; sound ].
  - apply preserves_bind; [ apply track_successful_sound | intros ids ].
    apply preserves_bind; [ apply log_failed_sound | intros _; sound ].
Qed.

(** X18: the coordinator records a result as completed only after the
    store has accepted the write of it, and only a successful result, under
    the id of its job; and the last write the store accepted under that id
    is the recorded result or a failed result: this holds when the
    coordinator starts and is kept by every submission, every batch
    submission and every run of the consumer, whatever the services answer.
    A status that reads completed therefore reports success and a result
    that the store accepted; the store may by then hold, under the same id,
    the failed result of the job whose retries are spent, which is never
    recorded as completed. *)
Theorem completed_results_were_written :
  records_sound init
  /\ (forall job, preserves records_sound (submit_test_job env job))
  /\ (forall jobs, preserves records_sound (submit_batch_jobs env jobs))
  /\ (forall schedule, preserves records_sound (consume env schedule))
  /\ (forall st job_id ok r,
         records_sound st ->
         job_status job_id st = completed ok r ->
         ok = true /\ Coordinator.job_id r = job_id /\ (job_id, r) ∈ bucket st
         /\ exists r', last_under job_id (bucket st) = Some r'
                       /\ (r' = r \/ success r' = false)).
Proof.
  split; [ | split; [ | split; [ | split ] ] ].
  - split; [ | split ]; intros k r H; cbn in H; rewrite lookup_empty in H; discriminate H.
  - apply submit_test_job_sound.
  - intros jobs. unfold submit_batch_jobs.
    apply preserves_bind; [ apply submit_chunks_sound | intros ids ].
    apply preserves_bind; [ apply send_metric_sound | intros _; sound ].
  - apply consume_preserves. apply process_single_job_sound.
  - intros st job_id ok r (S1 & S2 & S3) H. unfold job_status in H.
    destruct (Coordinator.completed_jobs st !! job_id) as [r'|] eqn:C.
    + injection H as <- <-. destruct (S2 _ _ C) as [Hs Hj].
      split; [ exact Hs | ]. split; [ exact Hj | ].
      split; [ apply S1, C | apply S3, C ].
    + destruct (active_jobs st !! job_id); discriminate H.
Qed.

End Records.

Lemma completed_results_were_written_instance :
  let env := delete_outage_env 7 (ClientError "ReceiptHandleIsInvalid") in
  let job := job_of "job-1" 1 3 3 in
  let st := snd (consume env [0%nat] (snd (submit_test_job env job init))) in
  ("job-1", generated env job 2) ∈ bucket st
  /\ exists r', last_under "job-1" (bucket st) = Some r'
                /\ (r' = generated env job 2 \/ success r' = false).
Proof.
  intros env job st.
  apply (completed_results_were_written env) with (ok := true).
  - apply (completed_results_were_written env).
    apply (completed_results_were_written env).
    apply (completed_results_were_written env).
  - reflexivity.
Defined.

(** ** The error distributor *)

Section DistributionFacts.
Import Distribution.
Variable services : Services.

Lemma job_id_prefixed (n : nat) (error_message : string) :
  PyStr.startswith "error-" (job_id_of services n error_message) = true.
Proof. reflexivity. Qed.

Lemma distribute_one_spec (error_data : ErrorData) (ids : list string) (st : State) :
  let out := distribute_one services error_data ids st in
  exists new jobs,
    fst out = ids ++ new
    /\ queue (snd out) = queue st ++ jobs
    /\ length new = length jobs
    /\ (length new <= if has_message error_data then 1 else 0)%nat
    /\ Forall (queue_message_id services) new
    /\ completed_jobs (snd out) = completed_jobs st
    /\ (forall k, PyStr.startswith "error-" k = false ->
                  active_jobs (snd out) !! k = active_jobs st !! k).
Proof.
  cbv zeta. unfold distribute_one, has_message.
  destruct (data_message error_data) as [m|].
  - unfold _submit_error_job. cbn [calls set_calls].
    match goal with
    | |- context [send_message services ?n ?j] =>
        destruct (send_message services n j) as [e|mid] eqn:E
    end.
    + exists [], []. destruct (Coordinator.is_client_error e); cbn;
        rewrite ?app_nil_r; repeat split; auto.
    + eexists [mid], [_]. cbn. repeat split; auto.
      * constructor; [ eexists _, _; exact E | constructor ].
      * intros k Hk. apply lookup_insert_ne. intros <-.
        cbn in Hk. discriminate Hk.
  - exists [], []. cbn. rewrite !app_nil_r. repeat split; auto.
Qed.

Lemma distribute_loop_spec (errors : list ErrorData) :
  forall (ids : list string) (st : State),
    let out := distribute_loop services errors ids st in
    exists new jobs,
      fst out = ids ++ new
      /\ queue (snd out) = queue st ++ jobs
      /\ length new = length jobs
      /\ (length new <= length (List.filter has_message errors))%nat
      /\ Forall (queue_message_id services) new
      /\ completed_jobs (snd out) = completed_jobs st
      /\ (forall k, PyStr.startswith "error-" k = false ->
                    active_jobs (snd out) !! k = active_jobs st !! k).
Proof.
  induction errors as [|d rest IH]; intros ids st; cbv zeta.
  - exists [], []. cbn. rewrite !app_nil_r. repeat split; auto.
  - cbn [distribute_loop].
    destruct (distribute_one_spec d ids st) as (n1 & j1 & E1 & Q1 & L1 & B1 & F1 & C1 & A1).
    destruct (distribute_one services d ids st) as [ids1 st1]. cbn [fst snd] in *.
    destruct (IH ids1 st1) as (n2 & j2 & E2 & Q2 & L2 & B2 & F2 & C2 & A2).
    exists (n1 ++ n2), (j1 ++ j2).
    split; [ rewrite E2, E1, <- app_assoc; reflexivity | ].
    split; [ rewrite Q2, Q1, <- app_assoc; reflexivity | ].
    split; [ rewrite !length_app; lia | ].
    split; [ rewrite length_app; cbn [List.filter];
             destruct (has_message d); cbn [length]; lia | ].
    split; [ apply Forall_app; split; assumption | ].
    split; [ congruence | ].
    intros k Hk. rewrite A2, A1 by exact Hk. reflexivity.
Qed.

Lemma send_metric_frame (name : string) (v : Z) (st : State) :
  let out := _send_metric services name v st in
  queue (snd out) = queue st
  /\ active_jobs (snd out) = active_jobs st
  /\ completed_jobs (snd out) = completed_jobs st
  /\ (forall e, fst out = Some e -> Coordinator.is_client_error e = false).
Proof.
  cbv zeta. unfold _send_metric.
  destruct (put_metric_data services (calls st) name) as [e|]; cbn.
  - destruct (Coordinator.is_client_error e) eqn:C; cbn; repeat split; auto.
    + intros ? H. discriminate H.
    + intros ? H. injection H as <-. exact C.
  - repeat split; auto. intros ? H. discriminate H.
Qed.

(** X19: [distribute_errors] returns the ids the queue gave to the
    messages it accepted, one for every job it sent and at most one for every
    error that has a message; an error without a message and an error the
    queue refuses are logged and skipped, and the call raises only when the
    metrics sink fails with something else than a client error. The ids it
    returns are not the ids under which the jobs are tracked: when the queue
    never hands out an id that starts with [error-], the status of every
    returned id in a fresh distributor is not found. Nothing records an
    error job as completed. *)
Theorem distribution_returns_message_ids (errors : list ErrorData) (st : State) :
  let out := distribute_errors services errors st in
  (forall ids,
      fst out = inr ids ->
      exists jobs,
        queue (snd out) = queue st ++ jobs
        /\ length ids = length jobs
        /\ (length ids <= length (List.filter has_message errors))%nat
        /\ Forall (queue_message_id services) ids)
  /\ (forall e, fst out = inl e -> Coordinator.is_client_error e = false)
  /\ completed_jobs (snd out) = completed_jobs st
  /\ ((forall text, queue_message_id services text ->
                    PyStr.startswith "error-" text = false) ->
      active_jobs st = ∅ -> completed_jobs st = ∅ ->
      forall ids,
        fst out = inr ids ->
        Forall (fun job_id =>
                  get_job_status job_id (snd out)
                  = not_found ("Job " +:+ job_id +:+ " not found")) ids).
Proof.
  cbv zeta. unfold distribute_errors.
  destruct (distribute_loop_spec errors [] st) as (new & jobs & E & Q & L & B & F & C & A).
  destruct (distribute_loop services errors [] st) as [ids1 st1]. cbn [fst snd app] in *.
  subst ids1.
  destruct (send_metric_frame "ErrorsDistributed" (Z.of_nat (length new)) st1)
    as (Q' & A' & C' & R').
  destruct (_send_metric services "ErrorsDistributed" (Z.of_nat (length new)) st1)
    as [[e|] st2]; cbn [fst snd] in *.
  - split; [ intros ? H; discriminate H | ].
    split; [ intros ? H; injection H as <-; apply R'; reflexivity | ].
    split; [ congruence | ].
    intros _ _ _ ? H. discriminate H.
  - split.
    { intros ids H. injection H as <-. exists jobs.
      split; [ congruence | ]. repeat split; assumption. }
    split; [ intros ? H; discriminate H | ].
    split; [ congruence | ].
    intros Hids Ha Hc ids H. injection H as <-.
    eapply Forall_impl; [ exact F | ].
    intros job_id Hq. cbn beta. unfold get_job_status.
    rewrite C', C, Hc, lookup_empty.
    rewrite A', (A job_id (Hids job_id Hq)), Ha, lookup_empty. reflexivity.
Qed.

Lemma same_second_loop (c : Z) (error_message : string) (errors : list ErrorData) :
  (forall n, time_s services n = c) ->
  (forall n job, exists message_id, send_message services n job = inr message_id) ->
  Forall (fun d => data_message d = Some error_message) errors ->
  forall (ids : list string) (st : State),
    (active_jobs st = ∅
     \/ exists job, active_jobs st = {[ job_id_of services 0 error_message := job ]}) ->
    let out := distribute_loop services errors ids st in
    length (fst out) = (length ids + length errors)%nat
    /\ (errors = [] /\ active_jobs (snd out) = active_jobs st
        \/ exists job, active_jobs (snd out) = {[ job_id_of services 0 error_message := job ]}).
Proof.
  intros Htime Hsend Hall. induction Hall as [|d rest Hd _ IH]; intros ids st Hst; cbv zeta.
  - cbn. split; [ lia | left; split; reflexivity ].
  - cbn [distribute_loop]. unfold distribute_one. rewrite Hd.
    unfold _submit_error_job. cbn [calls set_calls].
    match goal with
    | |- context [send_message services ?n ?j] =>
        destruct (Hsend n j) as [mid ->]; set (job := j)
    end.
    assert (K : id job = job_id_of services 0 error_message).
    { unfold job. cbn [id]. unfold job_id_of. rewrite !Htime. reflexivity. }
    match goal with
    | |- context [distribute_loop services rest ?i ?s] => specialize (IH i s)
    end.
    cbv zeta in IH. cbn [active_jobs set_active_jobs set_queue set_calls] in IH.
    destruct IH as [L R].
    { right. exists job. rewrite K.
      destruct Hst as [-> | [j ->]];
        [ apply insert_empty | rewrite <- !insert_empty; apply insert_insert_eq ]. }
    split.
    + rewrite L, length_app. cbn. lia.
    + right. destruct R as [[-> R] | R]; [ | exact R ].
      exists job. rewrite R. cbn [active_jobs set_active_jobs set_queue set_calls]. rewrite K.
      destruct Hst as [-> | [j ->]];
        [ apply insert_empty | rewrite <- !insert_empty; apply insert_insert_eq ].
Qed.

(** X20: the id of an error job is made of the second of the clock and of
    the hash of the message, so errors with the same message that are
    distributed within the same second share one id: the queue gets one
    message for each of them and one id is returned for each, but the active
    map of a fresh distributor ends with a single entry. *)
Theorem same_message_shares_job_id (c : Z) (error_message : string)
        (errors : list ErrorData) :
  (forall n, time_s services n = c) ->
  (forall n job, exists message_id, send_message services n job = inr message_id) ->
  Forall (fun d => data_message d = Some error_message) errors ->
  errors <> [] ->
  let out := distribute_errors services errors init in
  (forall ids, fst out = inr ids -> length ids = length errors)
  /\ length (queue (snd out)) = length errors
  /\ size (active_jobs (snd out)) = 1%nat.
Proof.
  intros Htime Hsend Hall Hne. cbv zeta. unfold distribute_errors.
  destruct (same_second_loop c error_message errors Htime Hsend Hall [] init
              ltac:(left; reflexivity)) as [L R].
  destruct (distribute_loop_spec errors [] init) as (new & jobs & E & Q & Lj & _).
  destruct (distribute_loop services errors [] init) as [ids1 st1]. cbn [fst snd app] in *.
  subst ids1. cbn [length Nat.add] in L. cbn [queue init app] in Q.
  destruct (send_metric_frame "ErrorsDistributed" (Z.of_nat (length new)) st1)
    as (Q' & A' & _).
  destruct (_send_metric services "ErrorsDistributed" (Z.of_nat (length new)) st1)
    as [[e|] st2]; cbn [fst snd] in *;
    (split; [ intros ids H; try discriminate H; try (injection H as <-; exact L) | ]);
    (split; [ rewrite Q', Q; lia | ]);
    rewrite A';
    (destruct R as [[-> _] | [job ->]]; [ contradiction | apply map_size_singleton ]).
Qed.

End DistributionFacts.

Lemma distribution_returns_message_ids_instance :
  let errors := [ error_in "src/app.ts" "TS2322: Type is not assignable" ] in
  let out := Distribution.distribute_errors quiet_services errors Distribution.init in
  fst out = inr [ "msg-2" ]
  /\ Distribution.get_job_status "msg-2" (snd out)
     = Distribution.not_found "Job msg-2 not found".
Proof.
  intros errors out.
  assert (E : fst out = inr [ "msg-2" ]) by (vm_compute; reflexivity).
  split; [ exact E | ].
  pose proof (distribution_returns_message_ids quiet_services errors Distribution.init) as H.
  cbv zeta in H. destruct H as (_ & _ & _ & H).
  specialize (H ltac:(intros text (n & job & Q); injection Q as <-; reflexivity)
                ltac:(reflexivity) ltac:(reflexivity) [ "msg-2" ] E).
  apply (Forall_inv H).
Defined.

Lemma same_message_shares_job_id_instance :
  let errors := [ error_in "src/a.ts" "TS2304: Cannot find name 'x'";
                  error_in "src/b.ts" "TS2304: Cannot find name 'x'" ] in
  let out := Distribution.distribute_errors quiet_services errors Distribution.init in
  length (Distribution.queue (snd out)) = 2%nat
  /\ size (Distribution.active_jobs (snd out)) = 1%nat.
Proof.
  intros errors out.
  apply (same_message_shares_job_id quiet_services 1700000000 "TS2304: Cannot find name 'x'"
           errors).
  - intros n. reflexivity.
  - intros n job. eexists. reflexivity.
  - repeat constructor.
  - discriminate.
Defined.

(** ** The aggregator *)

Section AggregationFacts.
Import Aggregation.
Variable store : Store.

Lemma retrieve_spec (job_ids : list string) :
  forall (n : nat) (results : list ResultData) (warnings : list string),
    match retrieve store n job_ids results warnings with
    | inr (rs, ws) =>
        exists new_results new_warnings,
          rs = results ++ new_results /\ ws = warnings ++ new_warnings
          /\ (length new_results + length new_warnings)%nat = length job_ids
    | inl e => Coordinator.is_client_error e = false
    end.
Proof.
  induction job_ids as [|job_id rest IH]; intros n results warnings; cbn [retrieve].
  - exists [], []. rewrite !app_nil_r. repeat split.
  - destruct (store n ("error-fixes/" +:+ job_id +:+ ".json")) as [e|data].
    + destruct (Coordinator.is_client_error e) eqn:C; [ | exact C ].
      match goal with
      | |- context [retrieve store (S n) rest results ?w] => specialize (IH (S n) results w)
      end.
      destruct (retrieve store (S n) rest results _) as [e'|[rs ws]]; [ exact IH | ].
      destruct IH as (nr & nw & -> & -> & L).
      eexists nr, (_ :: nw). rewrite <- app_assoc. cbn. repeat split. lia.
    + specialize (IH (S n) (results ++ [data]) warnings).
      destruct (retrieve store (S n) rest (results ++ [data]) warnings) as [e'|[rs ws]];
        [ exact IH | ].
      destruct IH as (nr & nw & -> & -> & L).
      exists (data :: nr), nw. rewrite <- app_assoc. cbn. repeat split. lia.
Qed.

Lemma succeeded_split (rs : list ResultData) :
  (length (List.filter succeeded rs)
   + length (List.filter (fun r => negb (succeeded r)) rs))%nat = length rs.
Proof.
  induction rs as [|r rs IH]; [ reflexivity | ].
  cbn [List.filter]. destruct (succeeded r); cbn [negb length]; lia.
Qed.

(** X21: [aggregate_results] never raises a client error: a result the
    store refuses with one is logged and left out. When it returns,
    [total_jobs] is the number of job ids, every job id gave a result or a
    warning, and [failed_fixes] counts the results that did not succeed
    together with the job ids whose result could not be retrieved; the
    success rate lies between 0 and 100, and with no result retrieved the
    rate and the two averages are 0. *)
Theorem unretrieved_results_count_as_failed (n : nat) (job_ids : list string) :
  match aggregate_results store n job_ids with
  | inl e => Coordinator.is_client_error e = false
  | inr (agg, warnings) =>
      total_jobs agg = Z.of_nat (length job_ids)
      /\ (length (results agg) + length warnings)%nat = length job_ids
      /\ (successful_fixes agg + failed_fixes agg)%Z = total_jobs agg
      /\ failed_fixes agg
         = (Z.of_nat (length (List.filter (fun r => negb (succeeded r)) (results agg)))
            + Z.of_nat (length warnings))%Z
      /\ (0 <= success_rate agg /\ success_rate agg <= 100)%Q
      /\ (results agg = [] ->
          (success_rate agg == 0 /\ average_confidence agg == 0
           /\ average_execution_time_ms agg == 0)%Q)
  end.
Proof.
  unfold aggregate_results.
  pose proof (retrieve_spec job_ids n [] []) as H.
  destruct (retrieve store n job_ids [] []) as [e|[rs ws]]; [ exact H | ].
  destruct H as (nr & nw & -> & -> & L). cbn [app].
  unfold summarize.
  cbn [total_jobs results successful_fixes failed_fixes success_rate average_confidence
       average_execution_time_ms].
  pose proof (succeeded_split nr) as S.
  split; [ reflexivity | ].
  split; [ exact L | ].
  split; [ lia | ].
  split; [ lia | ].
  split.
  - destruct (Z.gtb_spec (Z.of_nat (length job_ids)) 0) as [P|_]; [ | split; discriminate ].
    apply rate_bounds; lia.
  - intros ->. cbn [List.filter length Z.of_nat average_of].
    split; [ | split; reflexivity ].
    destruct (Z.of_nat (length job_ids) >? 0)%Z; [ | reflexivity ].
    unfold Qdiv. rewrite !Qmult_0_l. reflexivity.
Qed.

Lemma stats_fold_lookup (rs : list ResultData) :
  forall (acc : gmap string (nat * nat)) (t : string),
    fold_left
      (fun stats result =>
         let error_type := default "unknown" (error_type result) in
         let '(total, successful) := default (0, 0)%nat (stats !! error_type) in
         <[error_type := (S total, if succeeded result then S successful else successful)]>
           stats)
      rs acc !! t
    = match List.filter (of_type t) rs with
      | [] => acc !! t
      | l =>
          Some ((fst (default (0, 0) (acc !! t)) + length l)%nat,
                (snd (default (0, 0) (acc !! t)) + length (List.filter succeeded l))%nat)
      end.
Proof.
  induction rs as [|r rest IH]; intros acc t; [ reflexivity | ].
  cbn [fold_left List.filter]. rewrite IH. unfold of_type at 2.
  destruct (String.eqb_spec (default "unknown" (error_type r)) t) as [E|N].
  - rewrite E.
    destruct (default (0, 0)%nat (acc !! t)) as [total ok] eqn:D.
    rewrite lookup_insert_eq. cbn [default from_option fst snd]. unfold Datatypes.id.
    destruct (List.filter (of_type t) rest) as [|x l];
      cbn [List.filter length]; destruct (succeeded r); cbn [length fst snd];
      f_equal; f_equal; lia.
  - destruct (default (0, 0)%nat (acc !! default "unknown" (error_type r))) as [total ok].
    rewrite lookup_insert_ne by exact N. reflexivity.
Qed.

(** X22: the breakdown by error type has an entry exactly for the types
    of the retrieved results, a result without a type being filed under
    [unknown]; the entry of a type holds the number of results of the type
    and the number of those that succeeded. *)
Theorem breakdown_counts_by_type (job_ids : list string) (rs : list ResultData)
        (t : string) :
  error_type_breakdown (summarize job_ids rs) !! t
  = match List.filter (of_type t) rs with
    | [] => None
    | l => Some (length l, length (List.filter succeeded l))
    end.
Proof.
  unfold summarize. cbn [error_type_breakdown]. unfold error_type_stats.
  rewrite stats_fold_lookup, lookup_empty. reflexivity.
Qed.

End AggregationFacts.

Lemma unretrieved_results_count_as_failed_instance :
  let agg := Aggregation.summarize [ "job-a"; "job-b" ] [ fix_of true "typescript" ] in
  Aggregation.failed_fixes agg
  = (Z.of_nat (length (List.filter (fun r => negb (Aggregation.succeeded r))
                                   (Aggregation.results agg)))
     + Z.of_nat (length [ "Could not retrieve result for job job-b: NoSuchKey" ]))%Z.
Proof.
  intros agg.
  pose proof (unretrieved_results_count_as_failed one_fix_store 0 [ "job-a"; "job-b" ]) as H.
  assert (E : Aggregation.aggregate_results one_fix_store 0 [ "job-a"; "job-b" ]
              = inr (agg, [ "Could not retrieve result for job job-b: NoSuchKey" ]))
    by reflexivity.
  rewrite E in H. apply H.
Defined.

(** ** Exceptions no handler catches *)

Section Uncaught.
Local Open Scope coord_scope.
Variable env : Env.
Variable config : ExecutionConfig.

Lemma range_step_starts_at_zero (stop step : nat) :
  (0 < stop)%nat -> (0 < step)%nat ->
  exists rest, range_step stop step = 0%nat :: rest.
Proof.
  intros Hstop Hstep. unfold range_step.
  assert (H : (1 <= (stop + step - 1) / step)%nat).
  { apply Nat.div_le_lower_bound; lia. }
  destruct ((stop + step - 1) / step)%nat as [|m]; [ lia | ].
  cbn [seq List.map]. eexists. reflexivity.
Qed.

(** X23: unlike the sequential strategy, the batched and the bounded
    strategy do not catch what the progress callback raises: with a callback
    that raises on every call and at least one job, the batched strategy with
    a positive batch size and the bounded strategy with at least one worker
    end with the exception of the callback and return no result, after the
    jobs of the first batch, or all jobs, have been submitted and waited
    for. *)
Theorem raising_callback_ends_parallel_runs (jobs : list TestJob) (cb : Callback)
        (e : Exn) (st : State) :
  (forall a b c, cb a b c = Some e) ->
  jobs <> [] ->
  ((0 < batch_size config)%Z ->
   fst (_execute_parallel_files env config jobs (Some cb) st) = Raise e)
  /\ ((0 < max_workers config)%Z ->
      fst (_execute_parallel_functions env config jobs (Some cb) st) = Raise e).
Proof.
  intros Hcb Hne. split.
  - intros Hb. unfold _execute_parallel_files, py_range.
    destruct (Z.eqb_spec (batch_size config) 0) as [E0|_]; [ lia | ].
    destruct (Z.ltb_spec (batch_size config) 0) as [E1|_]; [ lia | ].
    rewrite bind_ret.
    destruct (range_step_starts_at_zero (length jobs) (Z.to_nat (batch_size config)))
      as [rest ->]; [ destruct jobs; [ contradiction | cbn; lia ] | lia | ].
    cbn [files_loop].
    set (batch := take (Z.to_nat (batch_size config)) (drop 0 jobs)).
    destruct (submit_all_returns env batch st) as (ms & st1 & E1).
    destruct (wait_all_returns env config batch st1) as (rs & st2 & E2 & L2).
    destruct (process_results_returns env batch rs [] st2 L2) as (more & st3 & E3 & _).
    erewrite bind_ok; [ | exact E1 ].
    erewrite bind_ok; [ | exact E2 ].
    erewrite bind_ok; [ | exact E3 ].
    erewrite bind_raised; [ reflexivity | ].
    unfold invoke. rewrite Hcb. reflexivity.
  - intros Hw. unfold _execute_parallel_functions.
    destruct (Z.ltb_spec (max_workers config) 0) as [E0|_]; [ lia | ].
    destruct jobs as [|job rest]; [ contradiction | ].
    destruct (Z.eqb_spec (max_workers config) 0) as [E1|_]; [ lia | ].
    destruct (run_tasks_returns env config (job :: rest) st) as (finished & st1 & E & L).
    erewrite bind_ok; [ | exact E ].
    erewrite bind_ok; [ | reflexivity ].
    pose proof (as_completed_length (completion_rank env (calls st1)) finished) as La.
    destruct (as_completed (completion_rank env (calls st1)) finished) as [|r done];
      [ cbn in La, L; lia | ].
    cbn [completion_loop].
    erewrite bind_raised; [ reflexivity | ].
    unfold invoke. rewrite Hcb. reflexivity.
Qed.

Lemma enqueue_all_keeps (jobs : list TestJob) :
  forall st,
    let out := enqueue_all jobs st in
    fst out = Ok tt
    /\ active_jobs (snd out) = active_jobs st
    /\ Coordinator.completed_jobs (snd out) = Coordinator.completed_jobs st
    /\ logged (snd out) = logged st
    /\ metrics (snd out) = metrics st
    /\ sent_batches (snd out) = sent_batches st
    /\ calls (snd out) = calls st.
Proof.
  induction jobs as [|job rest IH]; intros st; cbv zeta; cbn [enqueue_all].
  - repeat split.
  - erewrite bind_ok; [ | reflexivity ].
    match goal with |- context [enqueue_all rest ?s] => specialize (IH s) end.
    cbv zeta in IH. exact IH.
Qed.

Lemma find_absent (job_id : string) (batch : list TestJob) :
  Forall (fun job => id job <> job_id) batch ->
  List.find (fun j => String.eqb (id j) job_id) batch = None.
Proof.
  induction 1 as [|job rest Hj _ IH]; [ reflexivity | ].
  cbn [List.find]. destruct (String.eqb_spec (id job) job_id); [ contradiction | exact IH ].
Qed.

(** X24: when the queue lists as successful, first in its answer to the
    first batch, an id that no job of the batch has, [submit_batch_jobs]
    raises the error of a coroutine that raised [StopIteration]; no handler
    catches it: the batch was sent, but no job is tracked as active, nothing
    is logged, the metric is not sent and the later batches are not. *)
Theorem unknown_successful_id_ends_submission (jobs : list TestJob) (st : State)
        (response : BatchResponse) (job_id message_id : string)
        (others : list (string * string)) :
  jobs <> [] ->
  send_message_batch env (calls st) (chunk_entries jobs 0) = inr response ->
  Successful response = (job_id, message_id) :: others ->
  Forall (fun job => id job <> job_id) (take Coordinator.batch_size jobs) ->
  let out := submit_batch_jobs env jobs st in
  fst out = Raise (OtherError "coroutine raised StopIteration")
  /\ sent_batches (snd out) = sent_batches st ++ [ chunk_entries jobs 0 ]
  /\ active_jobs (snd out) = active_jobs st
  /\ logged (snd out) = logged st
  /\ metrics (snd out) = metrics st
  /\ calls (snd out) = S (calls st).
Proof.
  intros Hne Hans Hs Habsent. cbv zeta. unfold submit_batch_jobs.
  destruct (range_step_starts_at_zero (length jobs) Coordinator.batch_size)
    as [rest ->]; [ destruct jobs; [ contradiction | cbn; lia ] | unfold Coordinator.batch_size; lia | ].
  cbn [submit_chunks]. unfold chunk_entries in *. rewrite drop_0 in *.
  set (batch := take Coordinator.batch_size jobs) in *.
  set (sent := set_sent_batches (fun l => l ++ [List.map entry_of batch]) (set_calls S st)).
  destruct (enqueue_all_keeps (accepted response (List.map entry_of batch)) sent)
    as (Ok1 & A1 & _ & L1 & M1 & S1 & C1).
  destruct (enqueue_all (accepted response (List.map entry_of batch)) sent)
    as [[[]| |] st1] eqn:Eq; cbn [fst snd] in *; try discriminate Ok1.
  assert (Send : sqs_send_message_batch env (List.map entry_of batch) st = (Ok response, st1)).
  { unfold sqs_send_message_batch.
    erewrite bind_ok; [ | reflexivity ].
    erewrite bind_ok; [ | reflexivity ].
    cbn [calls set_calls set_sent_batches]. rewrite Hans.
    erewrite bind_ok; [ | exact Eq ]. reflexivity. }
  assert (Chunk : (let* response0 := sqs_send_message_batch env (List.map entry_of batch) in
                   let* message_ids :=
                     track_successful batch (Successful response0) [] in
                   log_failed (Failed response0) ;; ret message_ids) st
                  = (Raise (OtherError "coroutine raised StopIteration"), st1)).
  { erewrite bind_ok; [ | exact Send ].
    rewrite Hs. cbn [track_successful]. rewrite (find_absent job_id batch Habsent).
    reflexivity. }
  erewrite bind_raised;
    [ | erewrite bind_raised; [ reflexivity | ];
        erewrite try_client_raised; [ | exact Chunk ]; reflexivity ].
  cbn [fst snd]. rewrite S1, A1, L1, M1, C1. repeat split.
Qed.

End Uncaught.

Lemma raising_callback_ends_parallel_runs_instance :
  fst (_execute_parallel_files quiet_env (config_of PARALLEL_FILES 1) (numbered_jobs 2)
         (Some (raising_callback (OtherError "display closed"))) init)
  = Raise (OtherError "display closed").
Proof.
  apply (raising_callback_ends_parallel_runs quiet_env (config_of PARALLEL_FILES 1)
           (numbered_jobs 2) (raising_callback (OtherError "display closed"))
           (OtherError "display closed") init).
  - reflexivity.
  - discriminate.
  - cbn. lia.
Defined.

Lemma unknown_successful_id_ends_submission_instance :
  fst (submit_batch_jobs stray_id_env (numbered_jobs 2) init)
  = Raise (OtherError "coroutine raised StopIteration").
Proof.
  apply (unknown_successful_id_ends_submission stray_id_env (numbered_jobs 2) init
           {| Successful := [ ("job-9", "msg-9") ]; Failed := [] |}
           "job-9" "msg-9" []).
  - discriminate.
  - reflexivity.
  - reflexivity.
  - repeat constructor; discriminate.
Defined.
